(** * Gail breast-cancer risk calculator: model and verification

    Shallow embedding of [backend/app/calculators/gail_model.py].

    Conventions of the embedding.
    - Python [int] is [Z].
    - [np.float64] quantities are modelled by real numbers ([R]) with the
      exact operations [+ - * /], [exp] and [ln]; rounding is not modelled.
    - numpy arrays are lists; every indexed access follows Python's rule
      (a negative index counts from the end, an index outside the array
      raises [IndexError]).
    - The calculator instance is a record [calc] threaded through a small
      state-and-exception monad: an exception keeps the state reached so
      far, as attribute mutation is not undone when Python raises. *)

From Stdlib Require Import ZArith List Reals Lra Lia Bool.
From Stdlib Require String Ascii.
Import ListNotations.
Import String.StringSyntax Ascii.AsciiSyntax.

Local Open Scope Z_scope.

(** ** Python sequences *)

Module Py.

Section Seq.
Context {A : Type}.

(** Index normalisation of a sequence of length [len]. *)
Definition norm_index (len : nat) (j : Z) : option nat :=
  let n := Z.of_nat len in
  if (0 <=? j) && (j <? n) then Some (Z.to_nat j)
  else if (- n <=? j) && (j <? 0) then Some (Z.to_nat (j + n))
  else None.

Fixpoint upd (l : list A) (k : nat) (v : A) : list A :=
  match l, k with
  | [], _ => []
  | _ :: l', O => v :: l'
  | x :: l', S k' => x :: upd l' k' v
  end.

Definition get (l : list A) (j : Z) : option A :=
  match norm_index (length l) j with
  | Some k => nth_error l k
  | None => None
  end.

Definition set (l : list A) (j : Z) (v : A) : option (list A) :=
  match norm_index (length l) j with
  | Some k => Some (upd l k v)
  | None => None
  end.

End Seq.

(** Two-dimensional arrays are lists of rows: [a[i, j]]. *)
Definition get2 {A} (m : list (list A)) (i j : Z) : option A :=
  match get m i with
  | Some row => get row j
  | None => None
  end.

Definition set2 {A} (m : list (list A)) (i j : Z) (v : A)
  : option (list (list A)) :=
  match get m i with
  | Some row =>
      match set row j v with
      | Some row' => set m i row'
      | None => None
      end
  | None => None
  end.

(** [range(lo, hi)] *)
Definition range (lo hi : Z) : list Z :=
  map (fun k => lo + Z.of_nat k) (seq 0 (Z.to_nat (hi - lo))).

End Py.

(** ** Numeric helpers *)

Definition fltb (x y : R) : bool := if Rlt_dec x y then true else false.
Definition fleb (x y : R) : bool := if Rle_dec x y then true else false.

Definition zeros (n : nat) : list R := repeat 0%R n.
Definition zeros2 (r c : nat) : list (list R) := repeat (zeros c) r.

(** [np.array(xs) * k] *)
Definition scale (xs : list R) (k : R) : list R := map (fun x => (x * k)%R) xs.

(** [m[:, j]] and [m[:, j] = c]; the shapes always agree in [initialize]. *)
Definition col (m : list (list R)) (j : nat) : list R :=
  map (fun row => nth j row 0%R) m.

Fixpoint set_col (m : list (list R)) (j : nat) (c : list R)
  : list (list R) :=
  match m, c with
  | row :: m', v :: c' => Py.upd row j v :: set_col m' j c'
  | _, _ => m
  end.

Definition upd2 (m : list (list R)) (i j : nat) (v : R) : list (list R) :=
  Py.upd m i (Py.upd (nth i m []) j v).

(** ** The calculator instance *)

Record calc := mkCalc {
  bet2 : list (list R);
  bet : list R;
  rf : list R;
  rf2 : list (list R);
  abs : list R;
  rlan : list R;
  rlan2 : list (list R);
  rmu : list R;
  rmu2 : list (list R);
  sumb : list R;
  sumbb : list R;
  t : list R;
  is_initialized : bool
}.

Definition NumCovPattInGailModel : Z := 216.

(** [GailRiskCalculator.__init__] *)
Definition __init__ : calc :=
  mkCalc (zeros2 8 12) (zeros 8) (zeros 2) (zeros2 2 13)
         (zeros 216) (zeros 14) (zeros2 14 12) (zeros 14) (zeros2 14 12)
         (zeros 216) (zeros 216) (zeros 15) false.

(** *** The transcribed tables of [initialize] *)

Local Open Scope R_scope.

Definition age_boundaries : list R :=
  [20; 25; 30; 35; 40; 45; 50; 55; 60; 65; 70; 75; 80; 85; 90].

Definition rmu2_col0 : list R :=
  scale [49.3; 53.1; 62.5; 82.5; 130.7; 218.1; 365.5; 585.2; 943.9; 1502.8; 
  2383.9; 3883.2; 6682.8; 14490.8] 0.00001.
Definition rmu2_col1 : list R :=
  [0.00074354; 0.00101698; 0.00145937; 0.00215933; 0.00315077; 0.00448779; 
  0.00632281; 0.00963037; 0.01471818; 0.02116304; 0.03266035; 0.04564087; 
  0.06835185; 0.13271262].
Definition rmu2_col2 : list R :=
  scale [43.7; 53.3; 70.0; 89.7; 116.3; 170.2; 264.6; 421.6; 696.0; 1086.7; 
  1685.8; 2515.6; 4186.6; 8947.6] 0.00001.
Definition rmu2_col3 : list R :=
  scale [44.12; 52.54; 67.46; 90.92; 125.34; 195.70; 329.84; 546.22; 910.35; 
  1418.54; 2259.35; 3611.46; 6136.26; 14206.63] 0.00001.
Definition rmu2_col6 : list R :=
  [0.000210649076; 0.000192644865; 0.000244435215; 0.000317895949; 
  0.000473261994; 0.000800271380; 0.001217480226; 0.002099836508; 
  0.003436889186; 0.006097405623; 0.010664526765; 0.020148678452; 
  0.037990796590; 0.098333900733].
Definition rmu2_col7 : list R :=
  [0.000173593803; 0.000295805882; 0.000228322534; 0.000363242389; 
  0.000590633044; 0.001086079485; 0.001859999966; 0.003216600974; 
  0.004719402141; 0.008535331402; 0.012433511681; 0.020230197885; 
  0.037725498348; 0.106149118663].
Definition rmu2_col8 : list R :=
  [0.000229120979; 0.000262988494; 0.000314844090; 0.000394471908; 
  0.000647622610; 0.001170202327; 0.001809380379; 0.002614170568; 
  0.004483330681; 0.007393665092; 0.012233059675; 0.021127058106; 
  0.037936954809; 0.085138518334].
Definition rmu2_col9 : list R :=
  [0.000563507269; 0.000369640217; 0.001019912579; 0.001234013911; 
  0.002098344078; 0.002982934175; 0.005402445702; 0.009591474245; 
  0.016315472607; 0.020152229069; 0.027354838710; 0.050446998723; 
  0.072262026612; 0.145844504021].
Definition rmu2_col10 : list R :=
  [0.000465500812; 0.000600466920; 0.000851057138; 0.001478265376; 
  0.001931486788; 0.003866623959; 0.004924932309; 0.008177071806; 
  0.008638202890; 0.018974658371; 0.029257567105; 0.038408980974; 
  0.052869579345; 0.074745721133].
Definition rmu2_col11 : list R :=
  [0.000212632332; 0.000242170741; 0.000301552711; 0.000369053354; 
  0.000543002943; 0.000893862331; 0.001515172239; 0.002574669551; 
  0.004324370426; 0.007419621918; 0.013251765130; 0.022291427490; 
  0.041746550635; 0.087485802065].
Definition rlan2_col0 : list R :=
  scale [1.0; 7.6; 26.6; 66.1; 126.5; 186.6; 221.1; 272.1; 334.8; 392.3; 
  417.8; 443.9; 442.1; 410.9] 0.00001.
Definition rlan2_col1 : list R :=
  [0.00002696; 0.00011295; 0.00031094; 0.00067639; 0.00119444; 0.00187394; 
  0.00241504; 0.00291112; 0.00310127; 0.00366560; 0.00393132; 0.00408951; 
  0.00396793; 0.00363712].
Definition rlan2_col2 : list R :=
  scale [2.00; 7.10; 19.70; 43.80; 81.10; 130.70; 157.40; 185.70; 215.10; 
  251.20; 284.60; 275.70; 252.30; 203.90] 0.00001.
Definition rlan2_col3 : list R :=
  scale [1.22; 7.41; 22.97; 56.49; 116.45; 195.25; 261.54; 302.79; 367.57; 
  420.29; 473.08; 494.25; 479.76; 401.06] 0.00001.
Definition rlan2_col6 : list R :=
  [0.000004059636; 0.000045944465; 0.000188279352; 0.000492930493; 
  0.000913603501; 0.001471537353; 0.001421275482; 0.001970946494; 
  0.001674745804; 0.001821581075; 0.001834477198; 0.001919911972; 
  0.002233371071; 0.002247315779].
Definition rlan2_col7 : list R :=
  [0.000000000001; 0.000099483924; 0.000287041681; 0.000545285759; 
  0.001152211095; 0.001859245108; 0.002606291272; 0.003221751682; 
  0.004006961859; 0.003521715275; 0.003593038294; 0.003589303081; 
  0.003538507159; 0.002051572909].
Definition rlan2_col8 : list R :=
  [0.000007500161; 0.000081073945; 0.000227492565; 0.000549786433; 
  0.001129400541; 0.001813873795; 0.002223665639; 0.002680309266; 
  0.002891219230; 0.002534421279; 0.002457159409; 0.002286616920; 
  0.001814802825; 0.001750879130].
Definition rlan2_col9 : list R :=
  [0.000045080582; 0.000098570724; 0.000339970860; 0.000852591429; 
  0.001668562761; 0.002552703284; 0.003321774046; 0.005373001776; 
  0.005237808549; 0.005581732512; 0.005677419355; 0.006513409962; 
  0.003889457523; 0.002949061662].
Definition rlan2_col10 : list R :=
  [0.000000000001; 0.000071525212; 0.000288799028; 0.000602250698; 
  0.000755579402; 0.000766406354; 0.001893124938; 0.002365580107; 
  0.002843933070; 0.002920921732; 0.002330395655; 0.002036291235; 
  0.001482683983; 0.001012248203].
Definition rlan2_col11 : list R :=
  [0.000012355409; 0.000059526456; 0.000184320831; 0.000454677273; 
  0.000791265338; 0.001048462801; 0.001372467817; 0.001495473711; 
  0.001646746198; 0.001478363563; 0.001216010125; 0.001067663700; 
  0.001376104012; 0.000661576644].
Definition bet2_col0 : list R :=
  [-0.7494824600; 0.0108080720; 0.0940103059; 0.5292641686; 0.2186262218; 
  0.9583027845; -0.2880424830; -0.1908113865].
Definition bet2_col1 : list R :=
  [-0.3457169653; 0.0334703319; 0.2672530336; 0.1822121131; 0.0000000000; 
  0.4757242578; -0.1119411682; 0.0000000000].
Definition asian_beta : list R :=
  [0.0; 0.0; 0.07499257592975; 0.55263612260619; 0.27638268294593; 
  0.79185633720481; 0.0; 0.0].

Definition init_rmu2 (m : list (list R)) : list (list R) :=
  let m := set_col m 0 rmu2_col0 in
  let m := set_col m 1 rmu2_col1 in
  let m := set_col m 2 rmu2_col2 in
  let m := set_col m 3 rmu2_col3 in
  let m := set_col m 4 (col m 1) in
  let m := set_col m 5 (col m 2) in
  let m := set_col m 6 rmu2_col6 in
  let m := set_col m 7 rmu2_col7 in
  let m := set_col m 8 rmu2_col8 in
  let m := set_col m 9 rmu2_col9 in
  let m := set_col m 10 rmu2_col10 in
  set_col m 11 rmu2_col11.

Definition init_rlan2 (m : list (list R)) : list (list R) :=
  let m := set_col m 0 rlan2_col0 in
  let m := set_col m 1 rlan2_col1 in
  let m := set_col m 2 rlan2_col2 in
  let m := set_col m 3 rlan2_col3 in
  let m := set_col m 4 (col m 1) in
  let m := set_col m 5 (col m 2) in
  let m := set_col m 6 rlan2_col6 in
  let m := set_col m 7 rlan2_col7 in
  let m := set_col m 8 rlan2_col8 in
  let m := set_col m 9 rlan2_col9 in
  let m := set_col m 10 rlan2_col10 in
  set_col m 11 rlan2_col11.

Definition init_bet2 (m : list (list R)) : list (list R) :=
  let m := set_col m 0 bet2_col0 in
  let m := set_col m 1 bet2_col1 in
  let m := set_col m 2 (col m 0) in
  let m := set_col m 3 (col m 0) in
  let m := set_col m 4 (col m 1) in
  let m := set_col m 5 (col m 2) in
  fold_left (fun m i => set_col m i asian_beta) (seq 6 6) m.

Definition init_rf2 (m : list (list R)) : list (list R) :=
  let m := upd2 m 0 0 0.5788413 in
  let m := upd2 m 1 0 0.5788413 in
  let m := upd2 m 0 1 0.72949880 in
  let m := upd2 m 1 1 0.74397137 in
  let m := upd2 m 0 2 0.5788413 in
  let m := upd2 m 1 2 0.5788413 in
  let m := fold_left (fun m i => upd2 (upd2 m 0 i 1.0) 1 i 1.0) (seq 3 3) m in
  let m := fold_left (fun m i => upd2 (upd2 m 0 i 0.47519806426735)
                                      1 i 0.50316401683903) (seq 6 6) m in
  let m := upd2 m 0 12 1.0 in
  upd2 m 1 12 1.0.

Local Close Scope R_scope.

(** [initialize]: every index is a literal inside the array, so no access
    can raise; the method is a plain state transformer. *)
Definition initialize (s : calc) : calc :=
  mkCalc (init_bet2 (bet2 s)) (bet s) (rf s) (init_rf2 (rf2 s))
         (abs s) (rlan s) (init_rlan2 (rlan2 s)) (rmu s)
         (init_rmu2 (rmu2 s)) (sumb s) (sumbb s) age_boundaries true.

(** [create_calculator] *)
Definition create_calculator : calc := initialize __init__.

(** ** Exceptions and the calculator monad *)

Inductive exn := RuntimeError | ValueError | IndexError.

Inductive outcome (A : Type) :=
| Ok (a : A)
| Raise (e : exn).
Arguments Ok {A} a.
Arguments Raise {A} e.

Definition M (A : Type) : Type := calc -> outcome A * calc.

Definition ret {A} (a : A) : M A := fun s => (Ok a, s).

Definition raise {A} (e : exn) : M A := fun s => (Raise e, s).

Definition bind {A B} (m : M A) (f : A -> M B) : M B :=
  fun s =>
    match m s with
    | (Ok a, s') => f a s'
    | (Raise e, s') => (Raise e, s')
    end.

Declare Scope calc_scope.
Delimit Scope calc_scope with calc.
Notation "x <- m ;; k" := (bind m (fun x => k))
  (at level 61, m at next level, right associativity) : calc_scope.
Notation "m ;; k" := (bind m (fun _ => k))
  (at level 61, right associativity) : calc_scope.
Local Open Scope calc_scope.

(** An index outside an array raises [IndexError]. *)
Definition lift {A} (o : option A) : M A :=
  match o with
  | Some a => ret a
  | None => raise IndexError
  end.

(** The one-dimensional instance arrays and the race-indexed tables. *)
Inductive vec := Bet | Rf | Abs | Rlan | Rmu | Sumb | Sumbb | T.
Inductive mat := Bet2 | Rf2 | Rlan2 | Rmu2.

Definition vec_of (a : vec) (s : calc) : list R :=
  match a with
  | Bet => bet s | Rf => rf s | Abs => abs s | Rlan => rlan s
  | Rmu => rmu s | Sumb => sumb s | Sumbb => sumbb s | T => t s
  end.

Definition mat_of (a : mat) (s : calc) : list (list R) :=
  match a with
  | Bet2 => bet2 s | Rf2 => rf2 s | Rlan2 => rlan2 s | Rmu2 => rmu2 s
  end.

Definition with_vec (a : vec) (l : list R) (s : calc) : calc :=
  match a with
  | Bet => mkCalc (bet2 s) l (rf s) (rf2 s) (abs s) (rlan s) (rlan2 s)
             (rmu s) (rmu2 s) (sumb s) (sumbb s) (t s) (is_initialized s)
  | Rf => mkCalc (bet2 s) (bet s) l (rf2 s) (abs s) (rlan s) (rlan2 s)
             (rmu s) (rmu2 s) (sumb s) (sumbb s) (t s) (is_initialized s)
  | Abs => mkCalc (bet2 s) (bet s) (rf s) (rf2 s) l (rlan s) (rlan2 s)
             (rmu s) (rmu2 s) (sumb s) (sumbb s) (t s) (is_initialized s)
  | Rlan => mkCalc (bet2 s) (bet s) (rf s) (rf2 s) (abs s) l (rlan2 s)
             (rmu s) (rmu2 s) (sumb s) (sumbb s) (t s) (is_initialized s)
  | Rmu => mkCalc (bet2 s) (bet s) (rf s) (rf2 s) (abs s) (rlan s) (rlan2 s)
             l (rmu2 s) (sumb s) (sumbb s) (t s) (is_initialized s)
  | Sumb => mkCalc (bet2 s) (bet s) (rf s) (rf2 s) (abs s) (rlan s) (rlan2 s)
             (rmu s) (rmu2 s) l (sumbb s) (t s) (is_initialized s)
  | Sumbb => mkCalc (bet2 s) (bet s) (rf s) (rf2 s) (abs s) (rlan s) (rlan2 s)
             (rmu s) (rmu2 s) (sumb s) l (t s) (is_initialized s)
  | T => mkCalc (bet2 s) (bet s) (rf s) (rf2 s) (abs s) (rlan s) (rlan2 s)
             (rmu s) (rmu2 s) (sumb s) (sumbb s) l (is_initialized s)
  end.

(** [self.a[j]] *)
Definition rd (a : vec) (j : Z) : M R :=
  fun s => lift (Py.get (vec_of a s) j) s.

(** [self.a[i, j]] *)
Definition rd2 (a : mat) (i j : Z) : M R :=
  fun s => lift (Py.get2 (mat_of a s) i j) s.

(** [self.a[j] = v] *)
Definition wr (a : vec) (j : Z) (v : R) : M unit :=
  fun s =>
    match Py.set (vec_of a s) j v with
    | Some l => (Ok tt, with_vec a l s)
    | None => (Raise IndexError, s)
    end.

(** [for x in xs: body(x)] *)
Fixpoint for_each {A} (xs : list A) (body : A -> M unit) : M unit :=
  match xs with
  | [] => ret tt
  | x :: xs' => body x ;; for_each xs' body
  end.

Definition for_range (lo hi : Z) (body : Z -> M unit) : M unit :=
  for_each (Py.range lo hi) body.

(** A loop that updates one local variable. *)
Fixpoint for_acc {A B} (xs : list A) (body : B -> A -> M B) (acc : B)
  : M B :=
  match xs with
  | [] => ret acc
  | x :: xs' => acc' <- body acc x ;; for_acc xs' body acc'
  end.

(** ** Input records *)

Record GailInputParams := mkParams {
  current_age : Z;
  projection_age : Z;
  menarche_age : Z;
  first_live_birth_age : Z;
  first_deg_relatives : Z;
  ever_had_biopsy : Z;
  number_of_biopsy : Z;
  hyperplasia : Z;
  race : Z
}.

(** [GailInputParams.validate]; only the verdict is kept, not the text. *)
Definition validate (p : GailInputParams) : bool :=
  if negb ((20 <=? current_age p) && (current_age p <=? 85)) then false
  else if projection_age p <=? current_age p then false
  else if 90 <? projection_age p then false
  else true.

Record GailResult := mkResult {
  absolute_risk : R;
  average_risk : R;
  relative_risk : R;
  result_current_age : Z;
  result_projection_age : Z
}.

(** ** Input cleaning *)

(** [clean_biopsy_inputs] *)
Definition clean_biopsy_inputs (ever_had_biopsy num_biopsy hyperplasia : Z)
  : Z * Z * Z :=
  let ever_had_biopsy :=
    if ever_had_biopsy =? 99 then 0 else ever_had_biopsy in
  let num_biopsy :=
    if (ever_had_biopsy =? 1) && (num_biopsy =? 99) then 1
    else if ever_had_biopsy =? 0 then 0
    else num_biopsy in
  let num_biopsy :=
    if (1 <? num_biopsy) && (num_biopsy <=? 30) then 2 else num_biopsy in
  let hyperplasia := if ever_had_biopsy =? 0 then 99 else hyperplasia in
  (ever_had_biopsy, num_biopsy, hyperplasia).

(** ** The covariate matrix [r8iTox2]

    A local [n x 9] array, filled by the block loops of [_calculate_risk];
    it depends on no input.  [None] stands for an access outside it. *)

Definition obind {A B} (o : option A) (f : A -> option B) : option B :=
  match o with
  | Some a => f a
  | None => None
  end.

Declare Scope opt_scope.
Delimit Scope opt_scope with opt.
Notation "x <- m ;; k" := (obind m (fun x => k))
  (at level 61, m at next level, right associativity) : opt_scope.

(** [for k in ks: X = body(k, X)] on a local array *)
Definition ofor {S} (ks : list Z) (body : Z -> S -> option S) (x0 : S)
  : option S :=
  fold_left (fun acc k => obind acc (body k)) ks (Some x0).

Definition build_r8iTox2 (n : Z) : option (list (list R)) :=
  (let X := zeros2 (Z.to_nat n) 9 in
   X <- ofor (Py.range 0 n) (fun k X => Py.set2 X k 0 1%R) X ;;
   X <- ofor (Py.range 0 108) (fun k X =>
          X <- Py.set2 X k 1 0%R ;;
          Py.set2 X (108 + k) 1 1%R) X ;;
   X <- ofor (Py.range 1 3) (fun j X =>
          ofor (Py.range 1 37) (fun k X =>
            X <- Py.set2 X ((j-1)*108 + k-1) 2 0%R ;;
            X <- Py.set2 X ((j-1)*108 + 36+k-1) 2 1%R ;;
            Py.set2 X ((j-1)*108 + 72+k-1) 2 2%R) X) X ;;
   X <- ofor (Py.range 1 7) (fun j X =>
          ofor (Py.range 1 13) (fun k X =>
            X <- Py.set2 X ((j-1)*36 + k-1) 3 0%R ;;
            X <- Py.set2 X ((j-1)*36 + 12+k-1) 3 1%R ;;
            Py.set2 X ((j-1)*36 + 24+k-1) 3 2%R) X) X ;;
   X <- ofor (Py.range 1 19) (fun j X =>
          ofor (Py.range 1 4) (fun k X =>
            X <- Py.set2 X ((j-1)*12 + k-1) 4 0%R ;;
            X <- Py.set2 X ((j-1)*12 + 3+k-1) 4 1%R ;;
            X <- Py.set2 X ((j-1)*12 + 6+k-1) 4 2%R ;;
            Py.set2 X ((j-1)*12 + 9+k-1) 4 3%R) X) X ;;
   X <- ofor (Py.range 1 73) (fun j X =>
          X <- Py.set2 X ((j-1)*3 + 0) 5 0%R ;;
          X <- Py.set2 X ((j-1)*3 + 1) 5 1%R ;;
          Py.set2 X ((j-1)*3 + 2) 5 2%R) X ;;
   ofor (Py.range 0 n) (fun i X =>
     x1 <- Py.get2 X i 1 ;;
     x3 <- Py.get2 X i 3 ;;
     X <- Py.set2 X i 6 (x1 * x3)%R ;;
     x4 <- Py.get2 X i 4 ;;
     x5 <- Py.get2 X i 5 ;;
     X <- Py.set2 X i 7 (x4 * x5)%R ;;
     Py.set2 X i 8 1%R) X)%opt.

(** ** The phases of [_calculate_risk] *)

(** [for i in range(8): self.bet[i] = self.bet2[i, irace - 1]] *)
Definition select_beta (irace : Z) : M unit :=
  for_range 0 8 (fun i => v <- rd2 Bet2 i (irace - 1) ;; wr Bet i v).

(** The two first-breach searches over the age boundaries:
    [for i in range(1, 16): if x ? self.t[i-1]: result = i - 1; break],
    with result 0 when no boundary is breached. *)
Fixpoint first_breach (cmp : R -> R -> bool) (x : R) (idxs : list Z)
  : M Z :=
  match idxs with
  | [] => ret 0
  | i :: rest =>
      b <- rd T (i - 1) ;;
      if cmp x b then ret (i - 1) else first_breach cmp x rest
  end.

(** Race-specific mortality and incidence columns. *)
Definition select_rates (cindx : Z) : M unit :=
  for_range 0 14 (fun i =>
    m <- rd2 Rmu2 i cindx ;; wr Rmu i m ;;
    l <- rd2 Rlan2 i cindx ;; wr Rlan i l).

(** The attributable-risk pair, with the shared pair of column 12 for the
    average risk of the Asian subgroups. *)
Definition select_rf (riskindex irace incr : Z) : M unit :=
  f0 <- rd2 Rf2 0 (incr + irace - 1) ;; wr Rf 0 f0 ;;
  f1 <- rd2 Rf2 1 (incr + irace - 1) ;; wr Rf 1 f1 ;;
  if (riskindex =? 2) && (7 <=? irace) then
    g0 <- rd2 Rf2 0 12 ;; wr Rf 0 g0 ;;
    g1 <- rd2 Rf2 1 12 ;; wr Rf 1 g1
  else ret tt.

(** [ilev] *)
Definition pattern_index
  (AgeIndicator MenarcheAge NumberOfBiopsy FirstLiveBirthAge
   FirstDegRelatives : Z) : Z :=
  AgeIndicator * 108 + MenarcheAge * 36 + NumberOfBiopsy * 12 +
  FirstLiveBirthAge * 3 + FirstDegRelatives + 1.

(** [self.sumb[i] = sum_j self.bet[j] * r8iTox2[i, j]] *)
Definition compute_sumb (n : Z) (X : list (list R)) : M unit :=
  for_range 0 n (fun i =>
    wr Sumb i 0%R ;;
    for_range 0 8 (fun j =>
      acc <- rd Sumb i ;;
      b <- rd Bet j ;;
      x <- lift (Py.get2 X i j) ;;
      wr Sumb i (acc + b * x)%R)).

(** Centring of the predictor. *)
Definition center_sumbb (n : Z) : M unit :=
  for_range 1 109 (fun i =>
    v <- rd Sumb (i-1) ;; b0 <- rd Bet 0 ;;
    wr Sumbb (i-1) (v - b0)%R) ;;
  for_range 109 (n+1) (fun i =>
    v <- rd Sumb (i-1) ;; b0 <- rd Bet 0 ;; b1 <- rd Bet 1 ;;
    wr Sumbb (i-1) (v - b0 - b1)%R).

(** Incidence scaled by the attributable-risk factors. *)
Definition scale_rlan : M unit :=
  for_range 1 7 (fun j =>
    l <- rd Rlan (j-1) ;; f <- rd Rf 0 ;; wr Rlan (j-1) (l * f)%R) ;;
  for_range 7 15 (fun j =>
    l <- rd Rlan (j-1) ;; f <- rd Rf 1 ;; wr Rlan (j-1) (l * f)%R).

(** The hyperplasia adjustment:
    [self.sumbb[i-1] += np.log(rhyp)] and, guarded by [i <= 108],
    [self.sumbb[i+107] += np.log(rhyp)]. *)
Definition adjust_hyperplasia (i : Z) (rhyp : R) : M unit :=
  v <- rd Sumbb (i-1) ;; wr Sumbb (i-1) (v + ln rhyp)%R ;;
  if i <=? 108 then
    w <- rd Sumbb (i+107) ;; wr Sumbb (i+107) (w + ln rhyp)%R
  else ret tt.

(** *** The integration over the age bands

    The source repeats three expressions, for a band [k] and a predictor
    entry [p] (both array offsets):
    - [self.rlan[k] * np.exp(self.sumbb[p]) + self.rmu[k]],
    - [1.0 - np.exp(-(...) * w)],
    - [x * self.rlan[k] * np.exp(self.sumbb[p]) / (...)],
    - [np.exp(-(...) * w)]. *)

Definition hazard (k p : Z) : M R :=
  l <- rd Rlan k ;; b <- rd Sumbb p ;; m <- rd Rmu k ;;
  ret (l * exp b + m)%R.

Definition one_minus_surv (k p : Z) (w : R) : M R :=
  h <- hazard k p ;; ret (1 - exp (- h * w))%R.

Definition share (x : R) (k p : Z) : M R :=
  l <- rd Rlan k ;; b <- rd Sumbb p ;; h <- hazard k p ;;
  ret (x * l * exp b / h)%R.

Definition surv (k p : Z) (w : R) : M R :=
  h <- hazard k p ;; ret (exp (- h * w))%R.

(** [self.t[j] - self.t[j-1]] *)
Definition width (j : Z) : M R :=
  hi <- rd T j ;; lo <- rd T (j-1) ;; ret (hi - lo)%R.

(** The predictor entry of band [j] where the interval spans age 50:
    [i+107] when [self.t[j-1] >= 50.0], else [i-1]. *)
Definition band_entry (i j : Z) : M Z :=
  lo <- rd T (j-1) ;;
  ret (if fleb 50 lo then i + 107 else i - 1).

(** [self.abs[i-1] += r] *)
Definition add_abs (i : Z) (r : R) : M unit :=
  a <- rd Abs (i-1) ;; wr Abs (i-1) (a + r)%R.

(** The first band, from [ti] over a width [w]. *)
Definition first_band (ni i : Z) (w : R) : M unit :=
  x <- one_minus_surv (ni-1) (i-1) w ;;
  wr Abs (i-1) x ;;
  a <- rd Abs (i-1) ;;
  y <- share a (ni-1) (i-1) ;;
  wr Abs (i-1) y.

Definition integrate (CurrentAge ProjectionAge : Z) (ti ts : R)
  (ni ns i : Z) : M R :=
  let spans50 := (50 <? ProjectionAge) && (CurrentAge <? 50) in
  tni <- rd T ni ;;
  (if fleb ts tni then
     first_band ni i (ts - ti)%R
   else
     tni <- rd T ni ;;
     first_band ni i (tni - ti)%R ;;
     (if 0 <? ns - ni then
        if spans50 then
          tns <- rd T (ns-1) ;;
          r <- one_minus_surv (ns-1) (i+107) (ts - tns)%R ;;
          r <- share r (ns-1) (i+107) ;;
          tni <- rd T ni ;;
          s0 <- surv (ni-1) (i-1) (tni - ti)%R ;;
          r <- (if 1 <? ns - ni then
                  for_acc (Py.range (ni+1) ns) (fun r j =>
                    p <- band_entry i j ;;
                    w <- width j ;;
                    sj <- surv (j-1) p w ;;
                    ret (r * sj)%R) (r * s0)%R
                else ret (r * s0)%R) ;;
          add_abs i r
        else
          tns <- rd T (ns-1) ;;
          r <- one_minus_surv (ns-1) (i-1) (ts - tns)%R ;;
          r <- share r (ns-1) (i-1) ;;
          tni <- rd T ni ;;
          s0 <- surv (ni-1) (i-1) (tni - ti)%R ;;
          r <- (if 1 <? ns - ni then
                  for_acc (Py.range (ni+1) ns) (fun r j =>
                    w <- width j ;;
                    sj <- surv (j-1) (i-1) w ;;
                    ret (r * sj)%R) (r * s0)%R
                else ret (r * s0)%R) ;;
          add_abs i r
      else ret tt) ;;
     (if 1 <? ns - ni then
        if spans50 then
          for_range (ni+1) ns (fun k =>
            p <- band_entry i k ;;
            w <- width k ;;
            r <- one_minus_surv (k-1) p w ;;
            r <- share r (k-1) p ;;
            tni <- rd T ni ;;
            s0 <- surv (ni-1) (i-1) (tni - ti)%R ;;
            r <- for_acc (Py.range (ni+1) k) (fun r j =>
                   q <- band_entry i j ;;
                   v <- width j ;;
                   sj <- surv (j-1) q v ;;
                   ret (r * sj)%R) (r * s0)%R ;;
            add_abs i r)
        else
          for_range (ni+1) ns (fun k =>
            w <- width k ;;
            r <- one_minus_surv (k-1) (i-1) w ;;
            r <- share r (k-1) (i-1) ;;
            tni <- rd T ni ;;
            s0 <- surv (ni-1) (i-1) (tni - ti)%R ;;
            r <- for_acc (Py.range (ni+1) k) (fun r j =>
                   v <- width j ;;
                   sj <- surv (j-1) (i-1) v ;;
                   ret (r * sj)%R) (r * s0)%R ;;
            add_abs i r)
      else ret tt)) ;;
  rd Abs (i-1).

(** [_calculate_risk] *)
Definition _calculate_risk
  (riskindex CurrentAge ProjectionAge AgeIndicator NumberOfBiopsy
   MenarcheAge FirstLiveBirthAge EverHadBiopsy FirstDegRelatives ihyp : Z)
  (rhyp : R) (irace : Z) : M R :=
  let n := NumCovPattInGailModel in
  let ti := IZR CurrentAge in
  let ts := IZR ProjectionAge in
  select_beta irace ;;
  let recode := (irace =? 2) && (MenarcheAge =? 2) in
  let MenarcheAge := if recode then 1 else MenarcheAge in
  let FirstLiveBirthAge := if recode then 0 else FirstLiveBirthAge in
  ni <- first_breach fltb ti (Py.range 1 16) ;;
  ns <- first_breach fleb ts (Py.range 1 16) ;;
  let incr := if (riskindex =? 2) && (irace <? 7) then 3 else 0 in
  let cindx := incr + irace - 1 in
  select_rates cindx ;;
  select_rf riskindex irace incr ;;
  let average := 2 <=? riskindex in
  let MenarcheAge := if average then 0 else MenarcheAge in
  let NumberOfBiopsy := if average then 0 else NumberOfBiopsy in
  let FirstLiveBirthAge := if average then 0 else FirstLiveBirthAge in
  let FirstDegRelatives := if average then 0 else FirstDegRelatives in
  let rhyp := if average then 1.0%R else rhyp in
  let ilev := pattern_index AgeIndicator MenarcheAge NumberOfBiopsy
                FirstLiveBirthAge FirstDegRelatives in
  r8iTox2 <- lift (build_r8iTox2 n) ;;
  compute_sumb n r8iTox2 ;;
  center_sumbb n ;;
  scale_rlan ;;
  let i := ilev in
  adjust_hyperplasia i rhyp ;;
  integrate CurrentAge ProjectionAge ti ts ni ns i.

(** [_calculate_risk_api] *)
Definition _calculate_risk_api
  (risk_index current_age projection_age menarche_age first_live_birth_age
   first_deg_relatives ever_had_biopsy number_of_biopsy hyperplasia
   race : Z) : M R :=
  let age_indicator := if 50 <=? current_age then 1 else 0 in
  let '(ever_had_biopsy, number_of_biopsy, hyperplasia) :=
    clean_biopsy_inputs ever_had_biopsy number_of_biopsy hyperplasia in
  let real_hyp :=
    if hyperplasia =? 1 then 1.82%R
    else if hyperplasia =? 0 then 0.93%R
    else 1.0%R in
  let first_deg_relatives :=
    if (first_deg_relatives =? 0) || (first_deg_relatives =? 99) then 0
    else if (2 <=? first_deg_relatives) && (first_deg_relatives <=? 31)
            && (race <? 7) then 2
    else if (2 <=? first_deg_relatives) && (7 <=? race) then 1
    else first_deg_relatives in
  _calculate_risk risk_index current_age projection_age age_indicator
    number_of_biopsy menarche_age first_live_birth_age ever_had_biopsy
    first_deg_relatives hyperplasia real_hyp race.

Definition ABSOLUTE : Z := 1.
Definition AVERAGE : Z := 2.

(** [calculate_absolute_risk] *)
Definition calculate_absolute_risk
  (current_age projection_age menarche_age first_live_birth_age
   first_deg_relatives ever_had_biopsy number_of_biopsy hyperplasia
   race : Z) : M R :=
  fun s =>
    if negb (is_initialized s) then raise RuntimeError s
    else _calculate_risk_api ABSOLUTE current_age projection_age
           menarche_age first_live_birth_age first_deg_relatives
           ever_had_biopsy number_of_biopsy hyperplasia race s.

(** [calculate_average_risk] *)
Definition calculate_average_risk
  (current_age projection_age menarche_age first_live_birth_age
   first_deg_relatives ever_had_biopsy number_of_biopsy hyperplasia
   race : Z) : M R :=
  fun s =>
    if negb (is_initialized s) then raise RuntimeError s
    else _calculate_risk_api AVERAGE current_age projection_age
           menarche_age first_live_birth_age first_deg_relatives
           ever_had_biopsy number_of_biopsy hyperplasia race s.

(** [calculate_full_risk] *)
Definition calculate_full_risk (params : GailInputParams) : M GailResult :=
  if negb (validate params) then raise ValueError
  else
    abs_risk <- calculate_absolute_risk
      (current_age params) (projection_age params) (menarche_age params)
      (first_live_birth_age params) (first_deg_relatives params)
      (ever_had_biopsy params) (number_of_biopsy params)
      (hyperplasia params) (race params) ;;
    avg_risk <- calculate_average_risk
      (current_age params) (projection_age params) (menarche_age params)
      (first_live_birth_age params) (first_deg_relatives params)
      (ever_had_biopsy params) (number_of_biopsy params)
      (hyperplasia params) (race params) ;;
    let rel_risk :=
      if fltb 0 avg_risk then (abs_risk / avg_risk)%R else 0.0%R in
    ret (mkResult abs_risk avg_risk rel_risk
           (current_age params) (projection_age params)).

(** * Specification-level definitions *)

Definition at_ (l : list R) (j : Z) : R := nth (Z.to_nat j) l 0%R.

Definition at2 (m : list (list R)) (i j : Z) : R :=
  at_ (nth (Z.to_nat i) m []) j.

Definition tabulate (n : Z) (g : Z -> R) : list R := map g (Py.range 0 n).

(** [l] with [h j] applied in place to the entries [lo <= j < hi]. *)
Definition map_range (lo hi : Z) (h : Z -> R -> R) (l : list R) : list R :=
  tabulate (Z.of_nat (length l))
    (fun j => if (lo <=? j) && (j <? hi) then h j (at_ l j) else at_ l j).

Definition len_of (a : vec) : nat :=
  match a with
  | Bet => 8 | Rf => 2 | Abs => 216 | Rlan => 14 | Rmu => 14
  | Sumb => 216 | Sumbb => 216 | T => 15
  end%nat.

Definition rows_of (a : mat) : nat :=
  match a with Bet2 => 8 | Rf2 => 2 | Rlan2 => 14 | Rmu2 => 14 end%nat.

Definition cols_of (a : mat) : nat :=
  match a with Bet2 => 12 | Rf2 => 13 | Rlan2 => 12 | Rmu2 => 12 end%nat.

(** The array shapes fixed by [__init__]. *)
Definition shape (s : calc) : Prop :=
  (forall a, length (vec_of a s) = len_of a) /\
  (forall a, length (mat_of a s) = rows_of a /\
             Forall (fun row => length row = cols_of a) (mat_of a s)).

Definition tables (s : calc) :=
  (bet2 s, rf2 s, rlan2 s, rmu2 s, t s, is_initialized s).

(** A computation that leaves the tables alone and can only fail with
    [IndexError]. *)
Definition frame_safe {A} (m : M A) : Prop :=
  forall s, tables (snd (m s)) = tables s /\
            (forall e, fst (m s) = Raise e -> e = IndexError).

(** ** The value computed by [_calculate_risk], as a function of the tables *)

Definition beta_of (s : calc) (irace : Z) : list R :=
  tabulate 8 (fun k => at2 (bet2 s) k (irace - 1)).

Definition rmu_of (s : calc) (cindx : Z) : list R :=
  tabulate 14 (fun k => at2 (rmu2 s) k cindx).

Definition rlan_of (s : calc) (cindx : Z) : list R :=
  tabulate 14 (fun k => at2 (rlan2 s) k cindx).

Definition rf_of (s : calc) (riskindex irace incr : Z) : list R :=
  if (riskindex =? 2) && (7 <=? irace)
  then [at2 (rf2 s) 0 12; at2 (rf2 s) 1 12]
  else [at2 (rf2 s) 0 (incr + irace - 1); at2 (rf2 s) 1 (incr + irace - 1)].

Definition dot8 (b : list R) (X : list (list R)) (i : Z) : R :=
  fold_left (fun acc j => (acc + at_ b j * at2 X i j)%R) (Py.range 0 8) 0%R.

Definition sumb_of (b : list R) (X : list (list R)) : list R :=
  tabulate 216 (dot8 b X).

Definition sumbb_of (b sb : list R) : list R :=
  tabulate 216 (fun k =>
    if k <? 108 then (at_ sb k - at_ b 0)%R
    else (at_ sb k - at_ b 0 - at_ b 1)%R).

Definition rlan_scaled (l f : list R) : list R :=
  tabulate 14 (fun k =>
    if k <? 6 then (at_ l k * at_ f 0)%R else (at_ l k * at_ f 1)%R).

Definition adjusted (sbb : list R) (i : Z) (rhyp : R) : list R :=
  let l := Py.upd sbb (Z.to_nat (i - 1)) (at_ sbb (i - 1) + ln rhyp)%R in
  if i <=? 108
  then Py.upd l (Z.to_nat (i + 107)) (at_ l (i + 107) + ln rhyp)%R
  else l.

(** The first boundary breached, [0] if none. *)
Fixpoint breach (cmp : R -> R -> bool) (x : R) (tb : list R) (idxs : list Z)
  : Z :=
  match idxs with
  | [] => 0
  | i :: rest =>
      if cmp x (at_ tb (i - 1)) then i - 1 else breach cmp x tb rest
  end.

Section Bands.
Variables l b m tb : list R.

Definition haz (k p : Z) : R := (at_ l k * exp (at_ b p) + at_ m k)%R.

Definition oms (k p : Z) (w : R) : R := (1 - exp (- haz k p * w))%R.

Definition shr (x : R) (k p : Z) : R :=
  (x * at_ l k * exp (at_ b p) / haz k p)%R.

Definition ev (k p : Z) (w : R) : R := shr (oms k p w) k p.

Definition sv (k p : Z) (w : R) : R := exp (- haz k p * w)%R.

Definition wd (j : Z) : R := (at_ tb j - at_ tb (j - 1))%R.

Definition entry (sp : bool) (i j : Z) : Z :=
  if sp && fleb 50 (at_ tb (j - 1)) then i + 107 else i - 1.

(** Product of the survival terms of the bands [lo <= j < hi], the
    predictor entry of band [j] being [pe j]. *)
Definition sprod (pe : Z -> Z) (lo hi : Z) (r0 : R) : R :=
  fold_left (fun r j => (r * sv (j - 1) (pe j) (wd j))%R)
            (Py.range lo hi) r0.

(** The sum over the bands [ni .. ns], in the order of the source: first
    band, last band, then the bands in between; [pl] is the predictor
    entry of the last band. *)
Definition band_sum (pe : Z -> Z) (pl : Z) (ti ts : R) (ni ns i : Z) : R :=
  if fleb ts (at_ tb ni) then ev (ni - 1) (i - 1) (ts - ti)%R
  else
    let a0 := ev (ni - 1) (i - 1) (at_ tb ni - ti)%R in
    let s0 := sv (ni - 1) (i - 1) (at_ tb ni - ti)%R in
    let a1 :=
      if 0 <? ns - ni then
        (a0 + sprod pe (ni + 1) ns
                (ev (ns - 1) pl (ts - at_ tb (ns - 1)) * s0))%R
      else a0 in
    fold_left (fun a k =>
                 (a + sprod pe (ni + 1) k
                        (ev (k - 1) (pe k) (wd k) * s0))%R)
              (Py.range (ni + 1) ns) a1.

Definition integ_val (sp : bool) (ti ts : R) (ni ns i : Z) : R :=
  band_sum (entry sp i) (if sp then i + 107 else i - 1) ti ts ni ns i.

End Bands.

Definition design : list (list R) :=
  match build_r8iTox2 NumCovPattInGailModel with
  | Some X => X
  | None => []
  end.

(** The pattern index [ilev] after the recodes of [_calculate_risk]. *)
Definition effective_pattern
  (riskindex irace AgeIndicator NumberOfBiopsy MenarcheAge
   FirstLiveBirthAge FirstDegRelatives : Z) : Z :=
  let recode := (irace =? 2) && (MenarcheAge =? 2) in
  let MenarcheAge := if recode then 1 else MenarcheAge in
  let FirstLiveBirthAge := if recode then 0 else FirstLiveBirthAge in
  let average := 2 <=? riskindex in
  let MenarcheAge := if average then 0 else MenarcheAge in
  let NumberOfBiopsy := if average then 0 else NumberOfBiopsy in
  let FirstLiveBirthAge := if average then 0 else FirstLiveBirthAge in
  let FirstDegRelatives := if average then 0 else FirstDegRelatives in
  pattern_index AgeIndicator MenarcheAge NumberOfBiopsy
    FirstLiveBirthAge FirstDegRelatives.

Definition effective_rhyp (riskindex : Z) (rhyp : R) : R :=
  if 2 <=? riskindex then 1.0%R else rhyp.

Definition column_index (riskindex irace : Z) : Z :=
  (if (riskindex =? 2) && (irace <? 7) then 3 else 0) + irace - 1.

Definition spans50 (CurrentAge ProjectionAge : Z) : bool :=
  (50 <? ProjectionAge) && (CurrentAge <? 50).

(** The predictor table a call leaves in [self.sumbb]. *)
Definition predictor (s : calc) (irace i : Z) (rhyp : R) : list R :=
  let b := beta_of s irace in
  adjusted (sumbb_of b (sumb_of b design)) i rhyp.

(** The scaled incidence a call leaves in [self.rlan]. *)
Definition incidence (s : calc) (riskindex irace : Z) : list R :=
  rlan_scaled (rlan_of s (column_index riskindex irace))
    (rf_of s riskindex irace
       (if (riskindex =? 2) && (irace <? 7) then 3 else 0)).

Definition risk_value (s : calc)
  (riskindex CurrentAge ProjectionAge AgeIndicator NumberOfBiopsy
   MenarcheAge FirstLiveBirthAge FirstDegRelatives : Z)
  (rhyp : R) (irace : Z) : R :=
  let ti := IZR CurrentAge in
  let ts := IZR ProjectionAge in
  let ni := breach fltb ti (t s) (Py.range 1 16) in
  let ns := breach fleb ts (t s) (Py.range 1 16) in
  let i := effective_pattern riskindex irace AgeIndicator NumberOfBiopsy
             MenarcheAge FirstLiveBirthAge FirstDegRelatives in
  integ_val
    (incidence s riskindex irace)
    (predictor s irace i (effective_rhyp riskindex rhyp))
    (rmu_of s (column_index riskindex irace)) (t s)
    (spans50 CurrentAge ProjectionAge) ti ts ni ns i.

(** ** The block decomposition of a pattern index *)

(** The category tuple of pattern [k], by blocks of 108, 36, 12, 3 and 1. *)
Definition block_decode (k : Z) : Z * Z * Z * Z * Z :=
  let x := k - 1 in
  (x / 108, (x mod 108) / 36, (x mod 36) / 12, (x mod 12) / 3, x mod 3).

(** Row [k] of the covariate matrix as the block loops fill it:
    position 6 is ageIndicator x biopsyCount. *)
Definition design_row (k : Z) : list R :=
  let '(a, m, b, f, r) := block_decode k in
  [1; IZR a; IZR m; IZR b; IZR f; IZR r;
   IZR a * IZR b; IZR f * IZR r; 1]%R.

(** The 8-position design vector as the specification words it:
    position 6 is menarche x biopsyCount. *)
Definition design_vector_spec (k : Z) : list R :=
  let '(a, m, b, f, r) := block_decode k in
  [1; IZR a; IZR m; IZR b; IZR f; IZR r;
   IZR m * IZR b; IZR f * IZR r]%R.

(** A calculator whose arrays have the shapes of [__init__] and whose
    tables are those of [initialize]. *)
Definition wf (s : calc) : Prop :=
  shape s /\
  bet2 s = bet2 create_calculator /\ rf2 s = rf2 create_calculator /\
  rlan2 s = rlan2 create_calculator /\ rmu2 s = rmu2 create_calculator /\
  t s = age_boundaries /\ is_initialized s = true.

(** ** Values at the public interface *)

(** The relatives recode of [_calculate_risk_api]. *)
Definition recoded_relatives (first_deg_relatives race : Z) : Z :=
  if (first_deg_relatives =? 0) || (first_deg_relatives =? 99) then 0
  else if (2 <=? first_deg_relatives) && (first_deg_relatives <=? 31)
          && (race <? 7) then 2
  else if (2 <=? first_deg_relatives) && (7 <=? race) then 1
  else first_deg_relatives.

(** The hyperplasia multiplier of [_calculate_risk_api]. *)
Definition hyperplasia_multiplier (hyperplasia : Z) : R :=
  if hyperplasia =? 1 then 1.82%R
  else if hyperplasia =? 0 then 0.93%R
  else 1.0%R.

Definition api_value (s : calc)
  (risk_index current_age projection_age menarche_age first_live_birth_age
   first_deg_relatives ever_had_biopsy number_of_biopsy hyperplasia
   race : Z) : R :=
  let '(_, n, h) :=
    clean_biopsy_inputs ever_had_biopsy number_of_biopsy hyperplasia in
  risk_value s risk_index current_age projection_age
    (if 50 <=? current_age then 1 else 0) n menarche_age
    first_live_birth_age (recoded_relatives first_deg_relatives race)
    (hyperplasia_multiplier h) race.

(** Raw inputs whose recoded categories lie within their cardinalities. *)
Definition valid_params (p : GailInputParams) : Prop :=
  validate p = true /\ 1 <= race p <= 12 /\
  0 <= menarche_age p <= 2 /\ 0 <= first_live_birth_age p <= 3 /\
  (ever_had_biopsy p = 0 \/ ever_had_biopsy p = 1 \/
   ever_had_biopsy p = 99) /\
  (0 <= number_of_biopsy p <= 30 \/ number_of_biopsy p = 99) /\
  (0 <= first_deg_relatives p <= 31 \/ first_deg_relatives p = 99).

Definition full_value (s : calc) (p : GailInputParams) : GailResult :=
  let a := api_value s ABSOLUTE (current_age p) (projection_age p)
             (menarche_age p) (first_live_birth_age p)
             (first_deg_relatives p) (ever_had_biopsy p)
             (number_of_biopsy p) (hyperplasia p) (race p) in
  let v := api_value s AVERAGE (current_age p) (projection_age p)
             (menarche_age p) (first_live_birth_age p)
             (first_deg_relatives p) (ever_had_biopsy p)
             (number_of_biopsy p) (hyperplasia p) (race p) in
  mkResult a v (if fltb 0 v then (a / v)%R else 0.0%R)
           (current_age p) (projection_age p).

Definition nonneg_table (m : list (list R)) : Prop :=
  Forall (Forall (fun x => (0 <= x)%R)) m.

(** A computation that, on an initialised calculator, leaves the tables
    alone and does not raise [RuntimeError]. *)
Definition guarded {A} (m : M A) : Prop :=
  forall s, is_initialized s = true ->
            tables (snd (m s)) = tables s /\ fst (m s) <> Raise RuntimeError.

Definition preserves_tables {A} (m : M A) : Prop :=
  forall s, tables (snd (m s)) = tables s.

(** * The questionnaire layer

    [backend/app/models/questionnaire.py], [backend/app/utils/mapper.py]
    and the numeric part of [backend/app/services/gail_service.py].
    Python [str] is a byte string; [Optional[int]] is [option Z]. *)

Delimit Scope string_scope with string.
Delimit Scope char_scope with char.

(** [str.lower] on ASCII text. *)
Definition lower_ascii (c : Ascii.ascii) : Ascii.ascii :=
  let n := Ascii.nat_of_ascii c in
  if (Nat.leb 65 n) && (Nat.leb n 90) then Ascii.ascii_of_nat (n + 32)
  else c.

Fixpoint lower (s : String.string) : String.string :=
  match s with
  | String.EmptyString => String.EmptyString
  | String.String c s' => String.String (lower_ascii c) (lower s')
  end.

(** [d.get(key, default)] on a dict literal. *)
Fixpoint dict_get (d : list (String.string * Z)) (key : String.string)
  (default : Z) : Z :=
  match d with
  | [] => default
  | (k, v) :: d' => if String.eqb k key then v else dict_get d' key default
  end.

Module Questionnaire.

(** The fields of [PatientQuestionnaire]. *)
Record PatientQuestionnaire := mkQuestionnaire {
  has_breast_cancer_history : bool;
  has_genetic_mutation : String.string;
  age : Z;
  race : Z;
  sub_race : option Z;
  ever_had_biopsy : String.string;
  number_of_biopsies : option Z;
  has_atypical_hyperplasia : String.string;
  age_at_menarche : Z;
  age_at_first_birth : option Z;
  num_first_degree_relatives : Z
}.

End Questionnaire.

(** ** [QuestionnaireMapper] *)

Definition map_menarche_age (age_at_menarche : Z) : Z :=
  if 14 <=? age_at_menarche then 0
  else if (12 <=? age_at_menarche) && (age_at_menarche <=? 13) then 1
  else 2.

Definition map_first_birth_age (age_at_first_birth : option Z)
  (current_age : Z) : Z :=
  match age_at_first_birth with
  | None => 2
  | Some a =>
      if a <? 20 then 0
      else if (20 <=? a) && (a <? 25) then 1
      else if (25 <=? a) && (a <? 30) then 2
      else 3
  end.

Definition biopsy_codes : list (String.string * Z) :=
  [("no"%string, 0); ("yes"%string, 1); ("unknown"%string, 99)].

Definition map_biopsy_status (ever_had_biopsy : String.string) : Z :=
  dict_get biopsy_codes (lower ever_had_biopsy) 99.

Definition map_number_of_biopsies (ever_had_biopsy : String.string)
  (number_of_biopsies : option Z) : Z :=
  let biopsy_status := map_biopsy_status ever_had_biopsy in
  if biopsy_status =? 0 then 0
  else if biopsy_status =? 99 then 99
  else
    match number_of_biopsies with
    | None => 1
    | Some n =>
        if n =? 1 then 1
        else if (2 <=? n) && (n <=? 30) then 2
        else 99
    end.

Definition map_hyperplasia
  (has_atypical_hyperplasia ever_had_biopsy : String.string) : Z :=
  if String.eqb ever_had_biopsy "no"%string then 99
  else dict_get biopsy_codes (lower has_atypical_hyperplasia) 99.

Definition map_relatives (num_first_degree_relatives race : Z) : Z :=
  if num_first_degree_relatives =? 0 then 0
  else if num_first_degree_relatives =? 1 then 1
  else if 2 <=? num_first_degree_relatives then
    if 7 <=? race then 1 else 2
  else 0.

Definition map_race (race : Z) (sub_race : option Z) : Z :=
  match sub_race with
  | Some sr =>
      if (7 <=? sr) && (sr <=? 12) then sr else race
  | None => if race =? 4 then 12 else race
  end.

(** [questionnaire_to_gail_input]; the dict it returns has exactly the
    fields of [GailInputParams], which the service builds from it. *)
Definition questionnaire_to_gail_input
  (questionnaire : Questionnaire.PatientQuestionnaire) : GailInputParams :=
  let final_race :=
    map_race (Questionnaire.race questionnaire)
             (Questionnaire.sub_race questionnaire) in
  let first_deg_relatives_code :=
    map_relatives (Questionnaire.num_first_degree_relatives questionnaire)
                  final_race in
  mkParams
    (Questionnaire.age questionnaire)
    (Questionnaire.age questionnaire + 5)
    (map_menarche_age (Questionnaire.age_at_menarche questionnaire))
    (map_first_birth_age (Questionnaire.age_at_first_birth questionnaire)
                         (Questionnaire.age questionnaire))
    first_deg_relatives_code
    (map_biopsy_status (Questionnaire.ever_had_biopsy questionnaire))
    (map_number_of_biopsies (Questionnaire.ever_had_biopsy questionnaire)
                            (Questionnaire.number_of_biopsies questionnaire))
    (map_hyperplasia (Questionnaire.has_atypical_hyperplasia questionnaire)
                     (Questionnaire.ever_had_biopsy questionnaire))
    final_race.

(** ** [GailService] *)

(** [_categorize_risk] *)
Definition _categorize_risk (relative_risk : R) : String.string :=
  if fltb relative_risk 1.0 then "پایین"%string
  else if fltb relative_risk 1.67 then "متوسط"%string
  else "بالا"%string.

(** The numbers and the category of [RiskAssessment]. *)
Record RiskAssessment := mkRiskAssessment {
  absolute_risk_5year : R;
  average_risk_5year : R;
  relative_risk_5year : R;
  absolute_risk_lifetime : R;
  average_risk_lifetime : R;
  relative_risk_lifetime : R;
  risk_category : String.string
}.

(** [gail_input.copy()] with ["projection_age"] replaced. *)
Definition with_projection_age (p : GailInputParams) (projection : Z)
  : GailInputParams :=
  mkParams (current_age p) projection (menarche_age p)
    (first_live_birth_age p) (first_deg_relatives p) (ever_had_biopsy p)
    (number_of_biopsy p) (hyperplasia p) (race p).

(** [GailService.calculate_risk] on the service's calculator: the two
    calls of the engine and the categorisation.  The texts, the patient
    information and the metadata of the response are formatted from these
    values and are not modelled. *)
Definition calculate_risk
  (questionnaire : Questionnaire.PatientQuestionnaire) : M RiskAssessment :=
  let gail_input := questionnaire_to_gail_input questionnaire in
  result_5year <- calculate_full_risk gail_input ;;
  let projection_lifetime :=
    Z.min 90 (Questionnaire.age questionnaire + 50) in
  let params_lifetime := with_projection_age gail_input projection_lifetime in
  result_lifetime <- calculate_full_risk params_lifetime ;;
  let risk_category := _categorize_risk (relative_risk result_5year) in
  ret (mkRiskAssessment
         (absolute_risk result_5year) (average_risk result_5year)
         (relative_risk result_5year)
         (absolute_risk result_lifetime) (average_risk result_lifetime)
         (relative_risk result_lifetime) risk_category).

(** [GailResult._interpret].  The two tests [>=] are those of real
    numbers: the definition stands for the source on a relative risk that
    is a number.  On a NaN both tests of the source are false and it
    returns the last text, while [_categorize_risk], whose tests [<] are
    false as well, returns its last one; a result of the engine for valid
    parameters holds a positive quotient, never a NaN. *)
Definition _interpret (r : GailResult) : String.string :=
  if fleb 1.67 (relative_risk r) then "ریسک بالا - نیاز به مشاوره"%string
  else if fleb 1.0 (relative_risk r) then "ریسک متوسط"%string
  else "ریسک پایین‌تر از میانگین"%string.

Definition pos_table (m : list (list R)) : Prop :=
  Forall (Forall (fun x => (0 < x)%R)) m.

Definition example_questionnaire : Questionnaire.PatientQuestionnaire :=
  Questionnaire.mkQuestionnaire false "no"%string 45 1 None "yes"%string
    (Some 1) "unknown"%string 12 (Some 28) 1.

(** The parameters of the lifetime call. *)
Definition lifetime_params (q : Questionnaire.PatientQuestionnaire)
  : GailInputParams :=
  with_projection_age (questionnaire_to_gail_input q)
    (Z.min 90 (Questionnaire.age q + 50)).

(** * Proofs *)

(** ** Python sequences: basic facts *)

Lemma norm_index_in (len : nat) (j : Z) :
  0 <= j < Z.of_nat len -> Py.norm_index len j = Some (Z.to_nat j).
Proof.
  intros H. unfold Py.norm_index.
  destruct (0 <=? j) eqn:E1; [|lia].
  destruct (j <? Z.of_nat len) eqn:E2; [reflexivity|lia].
Qed.

Lemma norm_index_above (len : nat) (j : Z) :
  Z.of_nat len <= j -> Py.norm_index len j = None.
Proof.
  intros H. unfold Py.norm_index.
  destruct (j <? Z.of_nat len) eqn:E2; [lia|].
  rewrite andb_false_r.
  destruct (j <? 0) eqn:E3; [lia|]. rewrite andb_false_r. reflexivity.
Qed.

Lemma norm_index_some (len : nat) (j : Z) (k : nat) :
  Py.norm_index len j = Some k -> (k < len)%nat.
Proof.
  unfold Py.norm_index.
  destruct ((0 <=? j) && (j <? Z.of_nat len)) eqn:E1.
  - intros [= <-]. apply andb_true_iff in E1. lia.
  - destruct ((- Z.of_nat len <=? j) && (j <? 0)) eqn:E2; [|discriminate].
    intros [= <-]. apply andb_true_iff in E2. lia.
Qed.

Lemma upd_length {A} (l : list A) k v : length (Py.upd l k v) = length l.
Proof.
  revert k. induction l as [|x l IH]; intros [|k]; simpl; auto.
Qed.

Lemma nth_upd_eq {A} (l : list A) k v d :
  (k < length l)%nat -> nth k (Py.upd l k v) d = v.
Proof.
  revert k. induction l as [|x l IH]; intros [|k]; simpl; intros H;
    try lia; auto. apply IH. lia.
Qed.

Lemma nth_upd_neq {A} (l : list A) k k' v d :
  k <> k' -> nth k' (Py.upd l k v) d = nth k' l d.
Proof.
  revert k k'. induction l as [|x l IH]; intros [|k] [|k'] H; simpl;
    try reflexivity; try congruence. apply IH. congruence.
Qed.

Lemma get_in {A} (l : list A) (j : Z) (d : A) :
  0 <= j < Z.of_nat (length l) ->
  Py.get l j = Some (nth (Z.to_nat j) l d).
Proof.
  intros H. unfold Py.get. rewrite norm_index_in by exact H.
  apply nth_error_nth'. lia.
Qed.


Lemma set_in {A} (l : list A) (j : Z) (v : A) :
  0 <= j < Z.of_nat (length l) ->
  Py.set l j v = Some (Py.upd l (Z.to_nat j) v).
Proof.
  intros H. unfold Py.set. now rewrite norm_index_in.
Qed.

Lemma set_above {A} (l : list A) (j : Z) (v : A) :
  Z.of_nat (length l) <= j -> Py.set l j v = None.
Proof.
  intros H. unfold Py.set. now rewrite norm_index_above.
Qed.

Lemma set_length {A} (l l' : list A) j v :
  Py.set l j v = Some l' -> length l' = length l.
Proof.
  unfold Py.set. destruct Py.norm_index; [|discriminate].
  intros [= <-]. apply upd_length.
Qed.

Lemma range_length lo hi : length (Py.range lo hi) = Z.to_nat (hi - lo).
Proof. unfold Py.range. now rewrite length_map, length_seq. Qed.

Lemma range_nil lo hi : hi <= lo -> Py.range lo hi = [].
Proof.
  intros H. unfold Py.range. replace (Z.to_nat (hi - lo)) with 0%nat by lia.
  reflexivity.
Qed.

Lemma range_cons lo hi : lo < hi -> Py.range lo hi = lo :: Py.range (lo + 1) hi.
Proof.
  intros H. unfold Py.range.
  replace (Z.to_nat (hi - lo)) with (S (Z.to_nat (hi - (lo + 1)))) by lia.
  simpl. f_equal. { lia. }
  rewrite <- seq_shift, map_map. apply map_ext. intros k. lia.
Qed.

Lemma range_snoc lo hi : lo <= hi -> Py.range lo (hi + 1) = Py.range lo hi ++ [hi].
Proof.
  intros H. unfold Py.range.
  replace (Z.to_nat (hi + 1 - lo)) with (Z.to_nat (hi - lo) + 1)%nat by lia.
  rewrite seq_app, map_app. simpl. do 2 f_equal. lia.
Qed.

Lemma in_range lo hi k : In k (Py.range lo hi) <-> lo <= k < hi.
Proof.
  unfold Py.range. rewrite in_map_iff. split.
  - intros (n & <- & Hn). apply in_seq in Hn. lia.
  - intros H. exists (Z.to_nat (k - lo)). split; [lia|]. apply in_seq. lia.
Qed.

Create HintDb fsafe.

(** ** What no call touches *)

Lemma fs_ret {A} (a : A) : frame_safe (ret a).
Proof. intros s; split; [reflexivity|discriminate]. Qed.

Lemma fs_bind {A B} (m : M A) (f : A -> M B) :
  frame_safe m -> (forall a, frame_safe (f a)) -> frame_safe (bind m f).
Proof.
  intros Hm Hf s. unfold bind. destruct (Hm s) as [Ht He].
  destruct (m s) as [[a|e] s1]; simpl in *.
  - destruct (Hf a s1) as [Ht' He']. split; [congruence|exact He'].
  - split; [exact Ht|]. intros e0 [= <-]. now apply He.
Qed.

Lemma fs_lift {A} (o : option A) : frame_safe (lift o).
Proof.
  intros s. destruct o; simpl; split; try reflexivity; try discriminate.
  intros e [= <-]. reflexivity.
Qed.

Lemma fs_rd a j : frame_safe (rd a j).
Proof. intros s. unfold rd. apply fs_lift. Qed.

Lemma fs_rd2 a i j : frame_safe (rd2 a i j).
Proof. intros s. unfold rd2. apply fs_lift. Qed.

Lemma fs_wr a j v : a <> T -> frame_safe (wr a j v).
Proof.
  intros Ha s. unfold wr. destruct (Py.set (vec_of a s) j v); simpl.
  - split; [|discriminate]. destruct a; try reflexivity. congruence.
  - split; [reflexivity|]. intros e [= <-]. reflexivity.
Qed.

Lemma fs_for_each {A} (xs : list A) body :
  (forall x, frame_safe (body x)) -> frame_safe (for_each xs body).
Proof.
  intros Hb. induction xs as [|x xs IH]; simpl.
  - apply fs_ret.
  - apply fs_bind; [apply Hb|intros _; exact IH].
Qed.

Lemma fs_for_range lo hi body :
  (forall x, frame_safe (body x)) -> frame_safe (for_range lo hi body).
Proof. apply fs_for_each. Qed.

Lemma fs_for_acc {A B} (xs : list A) (body : B -> A -> M B) acc :
  (forall b x, frame_safe (body b x)) -> frame_safe (for_acc xs body acc).
Proof.
  intros Hb. revert acc. induction xs as [|x xs IH]; intros acc; simpl.
  - apply fs_ret.
  - apply fs_bind; [apply Hb|intros b; apply IH].
Qed.

Ltac fs_step :=
  match goal with
  | |- frame_safe (bind _ _) => apply fs_bind; [|intros ?]
  | |- frame_safe (ret _) => apply fs_ret
  | |- frame_safe (lift _) => apply fs_lift
  | |- frame_safe (rd _ _) => apply fs_rd
  | |- frame_safe (rd2 _ _ _) => apply fs_rd2
  | |- frame_safe (wr _ _ _) => apply fs_wr; discriminate
  | |- frame_safe (for_range _ _ _) => apply fs_for_range; intros ?
  | |- frame_safe (for_each _ _) => apply fs_for_each; intros ?
  | |- frame_safe (for_acc _ _ _) => apply fs_for_acc; intros ? ?
  | |- frame_safe (if ?b then _ else _) => destruct b
  | |- frame_safe (let _ := _ in _) => cbv zeta
  end.

Ltac fs := repeat fs_step.

Lemma fs_first_breach cmp x idxs : frame_safe (first_breach cmp x idxs).
Proof. induction idxs as [|i rest IH]; simpl; fs. exact IH. Qed.

Lemma fs_hazard k p : frame_safe (hazard k p).
Proof. unfold hazard; fs. Qed.

Lemma fs_one_minus_surv k p w : frame_safe (one_minus_surv k p w).
Proof. unfold one_minus_surv; fs. apply fs_hazard. Qed.

Lemma fs_share x k p : frame_safe (share x k p).
Proof. unfold share; fs. apply fs_hazard. Qed.

Lemma fs_surv k p w : frame_safe (surv k p w).
Proof. unfold surv; fs. apply fs_hazard. Qed.

Lemma fs_width j : frame_safe (width j).
Proof. unfold width; fs. Qed.

Lemma fs_band_entry i j : frame_safe (band_entry i j).
Proof. unfold band_entry; fs. Qed.

Lemma fs_add_abs i r : frame_safe (add_abs i r).
Proof. unfold add_abs; fs. Qed.

Lemma fs_first_band ni i w : frame_safe (first_band ni i w).
Proof.
  unfold first_band; fs; auto using fs_one_minus_surv, fs_share.
Qed.

#[local] Hint Resolve fs_first_breach fs_hazard fs_one_minus_surv fs_share
  fs_surv fs_width fs_band_entry fs_add_abs fs_first_band : fsafe.

Lemma fs_integrate C P ti ts ni ns i : frame_safe (integrate C P ti ts ni ns i).
Proof. unfold integrate; fs; auto with fsafe. Qed.

Lemma fs_select_beta irace : frame_safe (select_beta irace).
Proof. unfold select_beta; fs. Qed.

Lemma fs_select_rates c : frame_safe (select_rates c).
Proof. unfold select_rates; fs. Qed.

Lemma fs_select_rf r i c : frame_safe (select_rf r i c).
Proof. unfold select_rf; fs. Qed.

Lemma fs_compute_sumb n X : frame_safe (compute_sumb n X).
Proof. unfold compute_sumb; fs. Qed.

Lemma fs_center_sumbb n : frame_safe (center_sumbb n).
Proof. unfold center_sumbb; fs. Qed.

Lemma fs_scale_rlan : frame_safe scale_rlan.
Proof. unfold scale_rlan; fs. Qed.

Lemma fs_adjust_hyperplasia i r : frame_safe (adjust_hyperplasia i r).
Proof. unfold adjust_hyperplasia; fs. Qed.

#[local] Hint Resolve fs_integrate fs_select_beta fs_select_rates fs_select_rf
  fs_compute_sumb fs_center_sumbb fs_scale_rlan fs_adjust_hyperplasia : fsafe.

Lemma fs_calculate_risk ri C P A nb ma fl eb fd ih rh ir :
  frame_safe (_calculate_risk ri C P A nb ma fl eb fd ih rh ir).
Proof. unfold _calculate_risk; fs; auto with fsafe. Qed.

Lemma fs_calculate_risk_api ri C P ma fl fd eb nb ih ir :
  frame_safe (_calculate_risk_api ri C P ma fl fd eb nb ih ir).
Proof.
  unfold _calculate_risk_api.
  destruct (clean_biopsy_inputs eb nb ih) as [[e n] h].
  apply fs_calculate_risk.
Qed.

(** ** Total reads and closed forms of the array loops *)

Lemma tabulate_length n g : length (tabulate n g) = Z.to_nat n.
Proof. unfold tabulate. rewrite length_map, range_length. f_equal. lia. Qed.

Lemma range_nth lo hi k d :
  (k < Z.to_nat (hi - lo))%nat -> nth k (Py.range lo hi) d = lo + Z.of_nat k.
Proof.
  intros H. unfold Py.range.
  rewrite nth_indep with (d' := lo + Z.of_nat 0)
    by now rewrite length_map, length_seq.
  change (lo + Z.of_nat 0) with ((fun k => lo + Z.of_nat k) 0%nat).
  rewrite map_nth, seq_nth by exact H. reflexivity.
Qed.

Lemma at_tabulate n g j : 0 <= j < n -> at_ (tabulate n g) j = g j.
Proof.
  intros H. unfold at_, tabulate.
  rewrite nth_indep with (d' := g 0)
    by (rewrite length_map, range_length; lia).
  rewrite map_nth. f_equal. rewrite range_nth by lia. lia.
Qed.

Lemma list_ext_at (l l' : list R) :
  length l = length l' ->
  (forall j, 0 <= j < Z.of_nat (length l) -> at_ l j = at_ l' j) ->
  l = l'.
Proof.
  intros Hlen H. apply nth_ext with (d := 0%R) (d' := 0%R); [exact Hlen|].
  intros n Hn. specialize (H (Z.of_nat n)). unfold at_ in H.
  rewrite Nat2Z.id in H. apply H. lia.
Qed.

Lemma at_upd_eq l k v :
  0 <= k < Z.of_nat (length l) -> at_ (Py.upd l (Z.to_nat k) v) k = v.
Proof. intros H. unfold at_. apply nth_upd_eq. lia. Qed.

Lemma at_upd_neq l k j v :
  0 <= k -> 0 <= j -> k <> j -> at_ (Py.upd l (Z.to_nat k) v) j = at_ l j.
Proof. intros Hk Hj H. unfold at_. apply nth_upd_neq. lia. Qed.

Lemma map_range_length lo hi h l : length (map_range lo hi h l) = length l.
Proof. unfold map_range. rewrite tabulate_length. lia. Qed.

Lemma at_map_range lo hi h l j :
  0 <= j < Z.of_nat (length l) ->
  at_ (map_range lo hi h l) j =
  if (lo <=? j) && (j <? hi) then h j (at_ l j) else at_ l j.
Proof. intros H. unfold map_range. now rewrite at_tabulate. Qed.

Lemma map_range_empty lo h l : map_range lo lo h l = l.
Proof.
  apply list_ext_at; [apply map_range_length|].
  intros j Hj. rewrite map_range_length in Hj. rewrite at_map_range by exact Hj.
  destruct (lo <=? j) eqn:E1, (j <? lo) eqn:E2; simpl; try reflexivity. lia.
Qed.

Lemma map_range_step lo k h l :
  lo <= k -> 0 <= k < Z.of_nat (length l) ->
  Py.upd (map_range lo k h l) (Z.to_nat k) (h k (at_ l k)) =
  map_range lo (k + 1) h l.
Proof.
  intros Hlo Hk. apply list_ext_at.
  - now rewrite upd_length, !map_range_length.
  - intros j Hj. rewrite upd_length, map_range_length in Hj.
    rewrite (at_map_range lo (k + 1)) by exact Hj.
    destruct (Z.eq_dec k j) as [<-|Hne].
    + rewrite at_upd_eq by (rewrite map_range_length; lia).
      destruct (lo <=? k) eqn:E1, (k <? k + 1) eqn:E2; simpl;
        try reflexivity; lia.
    + rewrite at_upd_neq by lia. rewrite at_map_range by exact Hj.
      destruct (lo <=? j) eqn:E1; simpl; [|reflexivity].
      destruct (j <? k) eqn:E2, (j <? k + 1) eqn:E3; try reflexivity; lia.
Qed.

Lemma map_range_at_step lo k h l :
  lo <= k -> 0 <= k < Z.of_nat (length l) ->
  at_ (map_range lo k h l) k = at_ l k.
Proof.
  intros Hlo Hk. rewrite at_map_range by exact Hk.
  destruct (k <? k) eqn:E; [lia|]. now rewrite andb_false_r.
Qed.

(** A fill of the whole array does not depend on what it held. *)
Lemma map_range_fill n g l :
  Z.of_nat (length l) = n ->
  map_range 0 n (fun j _ => g j) l = tabulate n g.
Proof.
  intros Hn. apply list_ext_at.
  - rewrite map_range_length, tabulate_length. lia.
  - intros j Hj. rewrite map_range_length in Hj.
    rewrite at_map_range, at_tabulate by lia.
    destruct (0 <=? j) eqn:E1, (j <? n) eqn:E2; simpl; try reflexivity; lia.
Qed.

(** ** State selectors under update *)

Lemma vec_eq_dec (a b : vec) : {a = b} + {a <> b}.
Proof. decide equality. Qed.

Lemma vec_of_with_same a l s : vec_of a (with_vec a l s) = l.
Proof. destruct a; reflexivity. Qed.

Lemma vec_of_with_other a b l s :
  a <> b -> vec_of b (with_vec a l s) = vec_of b s.
Proof. intros H; destruct a, b; try reflexivity; congruence. Qed.

Lemma mat_of_with a b l s : mat_of b (with_vec a l s) = mat_of b s.
Proof. destruct a, b; reflexivity. Qed.

Lemma with_vec_same a s : with_vec a (vec_of a s) s = s.
Proof. destruct a, s; reflexivity. Qed.

Lemma with_vec_twice a l l' s :
  with_vec a l (with_vec a l' s) = with_vec a l s.
Proof. destruct a; reflexivity. Qed.

Lemma shape_with a l s :
  shape s -> length l = len_of a -> shape (with_vec a l s).
Proof.
  intros [Hv Hm] Hl. split.
  - intros b. destruct (vec_eq_dec a b) as [<-|Hne].
    + now rewrite vec_of_with_same.
    + rewrite vec_of_with_other by exact Hne. apply Hv.
  - intros b. rewrite mat_of_with. apply Hm.
Qed.

(** ** Running the primitives *)

Lemma run_bind {A B} (m : M A) (f : A -> M B) s a s' :
  m s = (Ok a, s') -> bind m f s = f a s'.
Proof. intros H. unfold bind. now rewrite H. Qed.

Lemma run_rd a j s :
  0 <= j < Z.of_nat (length (vec_of a s)) ->
  rd a j s = (Ok (at_ (vec_of a s) j), s).
Proof. intros H. unfold rd. now rewrite (get_in _ _ 0%R H). Qed.

Lemma run_wr a j v s :
  0 <= j < Z.of_nat (length (vec_of a s)) ->
  wr a j v s = (Ok tt, with_vec a (Py.upd (vec_of a s) (Z.to_nat j) v) s).
Proof. intros H. unfold wr. now rewrite (set_in _ _ v H). Qed.

Lemma run_rd2 a i j s :
  0 <= i < Z.of_nat (length (mat_of a s)) ->
  0 <= j < Z.of_nat (length (nth (Z.to_nat i) (mat_of a s) [])) ->
  rd2 a i j s = (Ok (at2 (mat_of a s) i j), s).
Proof.
  intros Hi Hj. unfold rd2, Py.get2.
  rewrite (get_in _ _ [] Hi), (get_in _ _ 0%R Hj). reflexivity.
Qed.

Lemma bind_rd {B} a j (f : R -> M B) s :
  0 <= j < Z.of_nat (length (vec_of a s)) ->
  bind (rd a j) f s = f (at_ (vec_of a s) j) s.
Proof. intros H. apply run_bind, run_rd, H. Qed.

Lemma bind_wr {B} a j v (f : unit -> M B) s :
  0 <= j < Z.of_nat (length (vec_of a s)) ->
  bind (wr a j v) f s =
  f tt (with_vec a (Py.upd (vec_of a s) (Z.to_nat j) v) s).
Proof. intros H. apply run_bind, run_wr, H. Qed.

Lemma bind_rd2 {B} a i j (f : R -> M B) s :
  0 <= i < Z.of_nat (length (mat_of a s)) ->
  0 <= j < Z.of_nat (length (nth (Z.to_nat i) (mat_of a s) [])) ->
  bind (rd2 a i j) f s = f (at2 (mat_of a s) i j) s.
Proof. intros Hi Hj. apply run_bind, run_rd2; assumption. Qed.

Lemma bind_ret {A B} (a : A) (f : A -> M B) s : bind (ret a) f s = f a s.
Proof. reflexivity. Qed.

Lemma bind_assoc {A B C} (m : M A) (f : A -> M B) (g : B -> M C) s :
  bind (bind m f) g s = bind m (fun a => bind (f a) g) s.
Proof. unfold bind. destruct (m s) as [[a|e] s1]; reflexivity. Qed.

Lemma row_length (m : list (list R)) (c : nat) (i : Z) :
  Forall (fun row => length row = c) m ->
  0 <= i < Z.of_nat (length m) ->
  length (nth (Z.to_nat i) m []) = c.
Proof.
  intros HF Hi. rewrite Forall_forall in HF. apply HF, nth_In. lia.
Qed.

(** ** Loops *)

Lemma for_range_cons lo hi body s :
  lo < hi ->
  for_range lo hi body s = bind (body lo) (fun _ => for_range (lo + 1) hi body) s.
Proof. intros H. unfold for_range. now rewrite range_cons. Qed.

Lemma for_range_nil lo hi body s :
  hi <= lo -> for_range lo hi body s = (Ok tt, s).
Proof. intros H. unfold for_range. now rewrite range_nil. Qed.

Lemma for_range_inv (I : Z -> calc -> Prop) lo hi body :
  lo <= hi ->
  (forall k s, lo <= k < hi -> I k s ->
     exists s', body k s = (Ok tt, s') /\ I (k + 1) s') ->
  forall s, I lo s ->
  exists s', for_range lo hi body s = (Ok tt, s') /\ I hi s'.
Proof.
  intros Hle Hbody.
  remember (Z.to_nat (hi - lo)) as n eqn:Hn.
  revert lo Hle Hbody Hn. induction n as [|n IH]; intros lo Hle Hbody Hn s HI.
  - assert (lo = hi) by lia. subst lo. exists s. split; [|exact HI].
    apply for_range_nil. lia.
  - assert (Hlt : lo < hi) by lia.
    destruct (Hbody lo s ltac:(lia) HI) as (s1 & Hb & HI1).
    destruct (IH (lo + 1) ltac:(lia)
                 ltac:(intros k s2 Hk; apply Hbody; lia) ltac:(lia) s1 HI1)
      as (s2 & Hr & HI2).
    exists s2. split; [|exact HI2].
    rewrite for_range_cons by exact Hlt. rewrite (run_bind _ _ _ _ _ Hb).
    exact Hr.
Qed.

(** An in-place update [a[k+off] = h(a[k+off])] for [k] over a range. *)
Lemma update_loop a (h : Z -> R -> R) (body : Z -> M unit) (off : Z) s0 :
  (forall k l, length l = length (vec_of a s0) ->
     0 <= k + off < Z.of_nat (length l) ->
     body k (with_vec a l s0) =
     (Ok tt, with_vec a (Py.upd l (Z.to_nat (k + off))
                           (h (k + off) (at_ l (k + off)))) s0)) ->
  forall lo hi,
    0 <= lo + off -> hi + off <= Z.of_nat (length (vec_of a s0)) -> lo <= hi ->
    for_range lo hi body s0 =
    (Ok tt, with_vec a (map_range (lo + off) (hi + off) h (vec_of a s0)) s0).
Proof.
  intros Hbody lo hi Hlo Hhi Hle.
  destruct (for_range_inv
    (fun k s => s = with_vec a (map_range (lo + off) (k + off) h
                                  (vec_of a s0)) s0)
    lo hi body Hle) with (s := s0) as (s' & Hrun & ->).
  - intros k s Hk ->. eexists. split; [|reflexivity].
    rewrite Hbody by (rewrite ?map_range_length; lia).
    rewrite map_range_at_step by lia.
    rewrite map_range_step by lia.
    do 3 f_equal. lia.
  - now rewrite map_range_empty, with_vec_same.
  - exact Hrun.
Qed.

(** A read-only loop on a local accumulator. *)
Lemma for_acc_pure {A B} (xs : list A) (body : B -> A -> M B)
  (g : B -> A -> B) s :
  (forall b x, In x xs -> body b x s = (Ok (g b x), s)) ->
  forall acc, for_acc xs body acc s = (Ok (fold_left g xs acc), s).
Proof.
  induction xs as [|x xs IH]; intros Hb acc; simpl.
  - reflexivity.
  - rewrite (run_bind _ _ _ _ _ (Hb acc x (or_introl eq_refl))).
    apply IH. intros b y Hy. apply Hb. now right.
Qed.

Lemma shape_vec s a : shape s -> length (vec_of a s) = len_of a.
Proof. intros [H _]. apply H. Qed.

Lemma shape_rows s a : shape s -> length (mat_of a s) = rows_of a.
Proof. intros [_ H]. apply H. Qed.

Lemma shape_cols s a i :
  shape s -> 0 <= i < Z.of_nat (rows_of a) ->
  length (nth (Z.to_nat i) (mat_of a s) []) = cols_of a.
Proof.
  intros [_ H] Hi. destruct (H a) as [Hr Hc].
  apply row_length; [exact Hc|]. now rewrite Hr.
Qed.

(** Side conditions: an index inside an array of known length. *)
Ltac fold_fields :=
  repeat match goal with
  | |- context [bet ?s] => change (bet s) with (vec_of Bet s)
  | |- context [rf ?s] => change (rf s) with (vec_of Rf s)
  | |- context [abs ?s] => change (abs s) with (vec_of Abs s)
  | |- context [rlan ?s] => change (rlan s) with (vec_of Rlan s)
  | |- context [rmu ?s] => change (rmu s) with (vec_of Rmu s)
  | |- context [sumb ?s] => change (sumb s) with (vec_of Sumb s)
  | |- context [sumbb ?s] => change (sumbb s) with (vec_of Sumbb s)
  | |- context [t ?s] => change (t s) with (vec_of T s)
  | |- context [bet2 ?s] => change (bet2 s) with (mat_of Bet2 s)
  | |- context [rf2 ?s] => change (rf2 s) with (mat_of Rf2 s)
  | |- context [rlan2 ?s] => change (rlan2 s) with (mat_of Rlan2 s)
  | |- context [rmu2 ?s] => change (rmu2 s) with (mat_of Rmu2 s)
  end.

Ltac in_bounds :=
  fold_fields;
  repeat (rewrite vec_of_with_same || rewrite mat_of_with ||
          rewrite vec_of_with_other by discriminate);
  rewrite ?upd_length, ?map_range_length, ?tabulate_length;
  repeat match goal with
  | Hs : shape ?s |- context [length (vec_of ?a ?s)] =>
      rewrite (shape_vec s a Hs)
  | Hs : shape ?s |- context [length (mat_of ?a ?s)] =>
      rewrite (shape_rows s a Hs)
  | Hs : shape ?s |- context [length (nth (Z.to_nat ?i) (mat_of ?a ?s) [])] =>
      rewrite (shape_cols s a i Hs) by (simpl; lia)
  end;
  simpl len_of; simpl rows_of; simpl cols_of; try lia.

Lemma upd_same (l : list R) (k : Z) :
  Py.upd l (Z.to_nat k) (at_ l k) = l.
Proof.
  unfold at_. generalize (Z.to_nat k) as n. clear k.
  induction l as [|x l IH]; intros [|n]; simpl; try reflexivity.
  now rewrite IH.
Qed.

Lemma upd_upd {A} (l : list A) k v v' :
  Py.upd (Py.upd l k v) k v' = Py.upd l k v'.
Proof.
  revert k. induction l as [|x l IH]; intros [|k]; simpl; try reflexivity.
  now rewrite IH.
Qed.

(** Accumulation into one cell: [a[idx] += term(k)] for [k] over a range. *)
Lemma accum_loop a (idx : Z) (term : Z -> R) (body : Z -> M unit) s0 lo hi :
  0 <= idx < Z.of_nat (length (vec_of a s0)) ->
  (forall k l, lo <= k < hi -> length l = length (vec_of a s0) ->
     body k (with_vec a l s0) =
     (Ok tt, with_vec a (Py.upd l (Z.to_nat idx) (at_ l idx + term k)%R) s0)) ->
  for_range lo hi body s0 =
  (Ok tt, with_vec a
     (Py.upd (vec_of a s0) (Z.to_nat idx)
        (fold_left (fun acc k => (acc + term k)%R) (Py.range lo hi)
                   (at_ (vec_of a s0) idx))) s0).
Proof.
  intros Hidx Hbody.
  destruct (Z_le_gt_dec hi lo) as [Hle|Hgt].
  { rewrite for_range_nil, range_nil by exact Hle. simpl.
    now rewrite upd_same, with_vec_same. }
  destruct (for_range_inv
    (fun k s => s = with_vec a
       (Py.upd (vec_of a s0) (Z.to_nat idx)
          (fold_left (fun acc k => (acc + term k)%R) (Py.range lo k)
                     (at_ (vec_of a s0) idx))) s0)
    lo hi body ltac:(lia)) with (s := s0) as (s' & Hrun & ->).
  - intros k s Hk ->. eexists. split; [|reflexivity].
    rewrite Hbody by (rewrite ?upd_length; auto; lia).
    rewrite upd_upd. do 3 f_equal.
    rewrite range_snoc by lia. rewrite fold_left_app. simpl. f_equal.
    now rewrite at_upd_eq.
  - rewrite range_nil by lia. simpl. now rewrite upd_same, with_vec_same.
  - exact Hrun.
Qed.

Lemma run_select_beta irace s :
  shape s -> 1 <= irace <= 12 ->
  select_beta irace s = (Ok tt, with_vec Bet (beta_of s irace) s).
Proof.
  intros Hs Hr. unfold select_beta.
  rewrite (update_loop Bet (fun k _ => at2 (bet2 s) k (irace - 1)) _ 0 s).
  - change (0 + 0) with 0. change (8 + 0) with 8.
    rewrite map_range_fill; [reflexivity|]. in_bounds.
  - intros k l Hl Hk. rewrite Z.add_0_r in *.
    rewrite (shape_vec s Bet Hs) in Hl. simpl in Hl.
    rewrite bind_rd2 by in_bounds.
    rewrite run_wr by in_bounds.
    rewrite mat_of_with, vec_of_with_same, with_vec_twice. reflexivity.
  - lia.
  - in_bounds.
  - lia.
Qed.

Lemma run_first_breach cmp x idxs s :
  shape s -> (forall i, In i idxs -> 1 <= i <= 15) ->
  first_breach cmp x idxs s = (Ok (breach cmp x (t s) idxs), s).
Proof.
  intros Hs. induction idxs as [|i rest IH]; intros Hin; simpl.
  - reflexivity.
  - assert (1 <= i <= 15) by (apply Hin; now left).
    rewrite bind_rd by in_bounds. cbn [vec_of].
    destruct (cmp x (at_ (t s) (i - 1))); [reflexivity|].
    apply IH. intros j Hj. apply Hin. now right.
Qed.

Lemma run_select_rates cindx s :
  shape s -> 0 <= cindx < 12 ->
  select_rates cindx s =
  (Ok tt, with_vec Rlan (rlan_of s cindx) (with_vec Rmu (rmu_of s cindx) s)).
Proof.
  intros Hs Hc. unfold select_rates.
  set (h1 := fun (k : Z) (_ : R) => at2 (rmu2 s) k cindx).
  set (h2 := fun (k : Z) (_ : R) => at2 (rlan2 s) k cindx).
  destruct (for_range_inv
    (fun k st => st = with_vec Rlan (map_range 0 k h2 (rlan s))
                        (with_vec Rmu (map_range 0 k h1 (rmu s)) s))
    0 14 (fun i => m <- rd2 Rmu2 i cindx ;; wr Rmu i m ;;
                   l <- rd2 Rlan2 i cindx ;; wr Rlan i l)
    ltac:(lia)) with (s := s) as (s' & Hrun & ->).
  - intros k st Hk ->. eexists. split; [|reflexivity].
    rewrite bind_rd2 by in_bounds.
    rewrite bind_wr by in_bounds.
    rewrite bind_rd2 by in_bounds.
    rewrite run_wr by in_bounds.
    rewrite ?mat_of_with. simpl vec_of. simpl with_vec.
    rewrite <- (map_range_step 0 k h1) by in_bounds.
    rewrite <- (map_range_step 0 k h2) by in_bounds.
    reflexivity.
  - rewrite !map_range_empty. now destruct s.
  - rewrite Hrun. unfold rlan_of, rmu_of.
    rewrite <- (map_range_fill 14 _ (rlan s)) by in_bounds.
    rewrite <- (map_range_fill 14 _ (rmu s)) by in_bounds.
    reflexivity.
Qed.

Lemma upd2_list (x y f0 f1 : R) :
  Py.upd (Py.upd [x; y] 0 f0) 1 f1 = [f0; f1].
Proof. reflexivity. Qed.

Lemma run_select_rf riskindex irace incr s :
  shape s -> 0 <= incr + irace - 1 < 13 ->
  select_rf riskindex irace incr s =
  (Ok tt, with_vec Rf (rf_of s riskindex irace incr) s).
Proof.
  intros Hs Hc. unfold select_rf, rf_of.
  assert (Hl := shape_vec s Rf Hs). simpl in Hl.
  destruct (rf s) as [|x [|y [|z r]]] eqn:Erf; try discriminate.
  rewrite bind_rd2 by in_bounds.
  rewrite bind_wr by in_bounds.
  rewrite bind_rd2 by in_bounds.
  rewrite bind_wr by in_bounds.
  rewrite ?mat_of_with, ?vec_of_with_same, ?with_vec_twice.
  cbn [vec_of mat_of]. rewrite Erf.
  destruct ((riskindex =? 2) && (7 <=? irace)).
  - rewrite bind_rd2 by in_bounds.
    rewrite bind_wr by in_bounds.
    rewrite bind_rd2 by in_bounds.
    rewrite run_wr by in_bounds.
    rewrite ?mat_of_with, ?vec_of_with_same, ?with_vec_twice.
    reflexivity.
  - reflexivity.
Qed.

Lemma bind_lift_get2 {B} (X : list (list R)) i j (f : R -> M B) s :
  0 <= i < Z.of_nat (length X) ->
  0 <= j < Z.of_nat (length (nth (Z.to_nat i) X [])) ->
  bind (lift (Py.get2 X i j)) f s = f (at2 X i j) s.
Proof.
  intros Hi Hj. unfold Py.get2.
  rewrite (get_in _ _ [] Hi), (get_in _ _ 0%R Hj). reflexivity.
Qed.

Lemma run_compute_sumb X s :
  shape s -> length X = 216%nat -> Forall (fun row => length row = 9%nat) X ->
  compute_sumb 216 X s = (Ok tt, with_vec Sumb (sumb_of (bet s) X) s).
Proof.
  intros Hs HX HXr. unfold compute_sumb, sumb_of.
  rewrite (update_loop Sumb (fun k _ => dot8 (bet s) X k) _ 0 s).
  - change (0 + 0) with 0. change (216 + 0) with 216.
    rewrite map_range_fill; [reflexivity|]. in_bounds.
  - intros k l Hl Hk. rewrite Z.add_0_r in *.
    rewrite (shape_vec s Sumb Hs) in Hl. simpl in Hl.
    rewrite bind_wr by in_bounds.
    rewrite vec_of_with_same, with_vec_twice.
    rewrite (accum_loop Sumb k (fun j => (at_ (bet s) j * at2 X k j)%R)).
    + rewrite vec_of_with_same, with_vec_twice, upd_upd.
      rewrite at_upd_eq by lia. reflexivity.
    + in_bounds.
    + intros j l' Hj Hl'. rewrite vec_of_with_same, upd_length in Hl'.
      rewrite with_vec_twice.
      rewrite bind_rd by in_bounds.
      rewrite bind_rd by in_bounds.
      rewrite bind_lift_get2
        by (rewrite ?(row_length X 9 k HXr) by lia; lia).
      rewrite run_wr by in_bounds.
      rewrite vec_of_with_same, with_vec_twice.
      rewrite vec_of_with_other by discriminate. reflexivity.
  - lia.
  - in_bounds.
  - lia.
Qed.

Lemma run_center_sumbb s :
  shape s ->
  center_sumbb 216 s =
  (Ok tt, with_vec Sumbb (sumbb_of (bet s) (sumb s)) s).
Proof.
  intros Hs. unfold center_sumbb. change (216 + 1) with 217.
  erewrite run_bind; cycle 1.
  { apply (update_loop Sumbb
             (fun k _ => (at_ (sumb s) k - at_ (bet s) 0)%R) _ (-1) s).
    - intros k l Hl Hk.
      rewrite (shape_vec s Sumbb Hs) in Hl. simpl in Hl.
      replace (k - 1) with (k + -1) by lia.
      rewrite bind_rd by in_bounds.
      rewrite bind_rd by in_bounds.
      rewrite run_wr by in_bounds.
      rewrite vec_of_with_same, with_vec_twice.
      rewrite !vec_of_with_other by discriminate. reflexivity.
    - lia.
    - in_bounds.
    - lia. }
  change (1 + -1) with 0. change (109 + -1) with 108.
  set (L1 := map_range 0 108 _ _).
  rewrite (update_loop Sumbb
    (fun k _ => (at_ (sumb s) k - at_ (bet s) 0 - at_ (bet s) 1)%R) _ (-1)).
  - rewrite vec_of_with_same, with_vec_twice.
    change (109 + -1) with 108. change (217 + -1) with 216.
    do 2 f_equal. unfold sumbb_of. apply list_ext_at.
    + unfold L1. rewrite !map_range_length, tabulate_length. in_bounds.
    + intros j Hj. unfold L1 in *. rewrite !map_range_length in Hj.
      assert (Hj' : 0 <= j < 216) by (revert Hj; in_bounds).
      rewrite at_map_range by (rewrite map_range_length; exact Hj).
      rewrite at_map_range by exact Hj.
      rewrite at_tabulate by exact Hj'.
      destruct (108 <=? j) eqn:E1, (j <? 216) eqn:E2, (0 <=? j) eqn:E3,
               (j <? 108) eqn:E4; simpl; try reflexivity; lia.
  - intros k l Hl Hk. rewrite vec_of_with_same in Hl.
    unfold L1 in Hl. rewrite map_range_length in Hl.
    rewrite (shape_vec s Sumbb Hs) in Hl. simpl in Hl.
    rewrite with_vec_twice.
    replace (k - 1) with (k + -1) by lia.
    rewrite bind_rd by in_bounds.
    rewrite bind_rd by in_bounds.
    rewrite bind_rd by in_bounds.
    rewrite run_wr by in_bounds.
    rewrite vec_of_with_same, with_vec_twice.
    rewrite !vec_of_with_other by discriminate. reflexivity.
  - lia.
  - unfold L1. in_bounds.
  - lia.
Qed.

Lemma run_scale_rlan s :
  shape s ->
  scale_rlan s = (Ok tt, with_vec Rlan (rlan_scaled (rlan s) (rf s)) s).
Proof.
  intros Hs. unfold scale_rlan.
  erewrite run_bind; cycle 1.
  { apply (update_loop Rlan (fun _ x => (x * at_ (rf s) 0)%R) _ (-1) s).
    - intros k l Hl Hk.
      rewrite (shape_vec s Rlan Hs) in Hl. simpl in Hl.
      replace (k - 1) with (k + -1) by lia.
      rewrite bind_rd by in_bounds.
      rewrite bind_rd by in_bounds.
      rewrite run_wr by in_bounds.
      rewrite vec_of_with_same, with_vec_twice.
      rewrite !vec_of_with_other by discriminate. reflexivity.
    - lia.
    - in_bounds.
    - lia. }
  change (1 + -1) with 0. change (7 + -1) with 6.
  set (L1 := map_range 0 6 _ _).
  rewrite (update_loop Rlan (fun _ x => (x * at_ (rf s) 1)%R) _ (-1)).
  - rewrite vec_of_with_same, with_vec_twice.
    change (7 + -1) with 6. change (15 + -1) with 14.
    do 2 f_equal. unfold rlan_scaled. apply list_ext_at.
    + unfold L1. rewrite !map_range_length, tabulate_length. in_bounds.
    + intros j Hj. unfold L1 in *. rewrite !map_range_length in Hj.
      assert (Hj' : 0 <= j < 14) by (revert Hj; in_bounds).
      rewrite at_map_range by (rewrite map_range_length; exact Hj).
      rewrite at_map_range by exact Hj.
      rewrite at_tabulate by exact Hj'.
      destruct (6 <=? j) eqn:E1, (j <? 14) eqn:E2, (0 <=? j) eqn:E3,
               (j <? 6) eqn:E4; simpl; try reflexivity; lia.
  - intros k l Hl Hk. rewrite vec_of_with_same in Hl.
    unfold L1 in Hl. rewrite map_range_length in Hl.
    rewrite (shape_vec s Rlan Hs) in Hl. simpl in Hl.
    rewrite with_vec_twice.
    replace (k - 1) with (k + -1) by lia.
    rewrite bind_rd by in_bounds.
    rewrite bind_rd by in_bounds.
    rewrite run_wr by in_bounds.
    rewrite vec_of_with_same, with_vec_twice.
    rewrite !vec_of_with_other by discriminate. reflexivity.
  - lia.
  - unfold L1. in_bounds.
  - lia.
Qed.

Lemma run_adjust_hyperplasia i rhyp s :
  shape s -> 1 <= i <= 216 ->
  adjust_hyperplasia i rhyp s =
  (Ok tt, with_vec Sumbb (adjusted (sumbb s) i rhyp) s).
Proof.
  intros Hs Hi. unfold adjust_hyperplasia, adjusted.
  rewrite bind_rd by in_bounds.
  rewrite bind_wr by in_bounds.
  destruct (i <=? 108) eqn:E.
  - rewrite bind_rd by in_bounds.
    rewrite run_wr by in_bounds.
    rewrite vec_of_with_same, with_vec_twice. reflexivity.
  - reflexivity.
Qed.

(** ** The integration returns [integ_val] *)

Section Reads.
Variable S : calc.
Hypothesis HS : shape S.

Lemma bind_hazard {B} k p (f : R -> M B) :
  0 <= k < 14 -> 0 <= p < 216 ->
  bind (hazard k p) f S =
  f (haz (vec_of Rlan S) (vec_of Sumbb S) (vec_of Rmu S) k p) S.
Proof.
  intros Hk Hp. unfold hazard. rewrite bind_assoc.
  rewrite bind_rd by in_bounds. rewrite bind_assoc.
  rewrite bind_rd by in_bounds. rewrite bind_assoc.
  rewrite bind_rd by in_bounds. reflexivity.
Qed.

Lemma bind_one_minus_surv {B} k p w (f : R -> M B) :
  0 <= k < 14 -> 0 <= p < 216 ->
  bind (one_minus_surv k p w) f S =
  f (oms (vec_of Rlan S) (vec_of Sumbb S) (vec_of Rmu S) k p w) S.
Proof.
  intros Hk Hp. unfold one_minus_surv. rewrite bind_assoc.
  rewrite bind_hazard by assumption. reflexivity.
Qed.

Lemma bind_share {B} x k p (f : R -> M B) :
  0 <= k < 14 -> 0 <= p < 216 ->
  bind (share x k p) f S =
  f (shr (vec_of Rlan S) (vec_of Sumbb S) (vec_of Rmu S) x k p) S.
Proof.
  intros Hk Hp. unfold share. rewrite bind_assoc.
  rewrite bind_rd by in_bounds. rewrite bind_assoc.
  rewrite bind_rd by in_bounds. rewrite bind_assoc.
  rewrite bind_hazard by assumption. reflexivity.
Qed.

Lemma bind_surv {B} k p w (f : R -> M B) :
  0 <= k < 14 -> 0 <= p < 216 ->
  bind (surv k p w) f S =
  f (sv (vec_of Rlan S) (vec_of Sumbb S) (vec_of Rmu S) k p w) S.
Proof.
  intros Hk Hp. unfold surv. rewrite bind_assoc.
  rewrite bind_hazard by assumption. reflexivity.
Qed.

Lemma bind_width {B} j (f : R -> M B) :
  1 <= j <= 14 ->
  bind (width j) f S = f (wd (vec_of T S) j) S.
Proof.
  intros Hj. unfold width. rewrite bind_assoc.
  rewrite bind_rd by in_bounds. rewrite bind_assoc.
  rewrite bind_rd by in_bounds. reflexivity.
Qed.

Lemma bind_band_entry {B} i j (f : Z -> M B) :
  1 <= j <= 15 ->
  bind (band_entry i j) f S = f (entry (vec_of T S) true i j) S.
Proof.
  intros Hj. unfold band_entry. rewrite bind_assoc.
  rewrite bind_rd by in_bounds. reflexivity.
Qed.

End Reads.

Lemma entry_bounds tb sp i j :
  1 <= i <= 216 -> (sp = true -> i <= 108) -> 0 <= entry tb sp i j < 216.
Proof.
  intros Hi Hsp. unfold entry.
  destruct sp; simpl; [|lia].
  specialize (Hsp eq_refl). destruct (fleb 50 (at_ tb (j - 1))); lia.
Qed.

Section Integrate.
Variable s : calc.
Hypothesis Hs : shape s.
Variables (ni ns i : Z) (ti ts : R).
Hypothesis Hni : 1 <= ni <= 14.
Hypothesis Hns : 1 <= ns <= 14.
Hypothesis Hi : 1 <= i <= 216.

Let l := vec_of Rlan s.
Let b := vec_of Sumbb s.
Let m := vec_of Rmu s.
Let tb := vec_of T s.

Lemma shape_abs ab : length ab = 216%nat -> shape (with_vec Abs ab s).
Proof. intros H. now apply shape_with. Qed.

Lemma run_add_abs ab r :
  length ab = 216%nat ->
  add_abs i r (with_vec Abs ab s) =
  (Ok tt, with_vec Abs (Py.upd ab (Z.to_nat (i - 1)) (at_ ab (i - 1) + r)%R) s).
Proof.
  intros Hab. unfold add_abs.
  rewrite bind_rd by in_bounds. rewrite run_wr by in_bounds.
  now rewrite vec_of_with_same, with_vec_twice.
Qed.

Lemma run_first_band ab w :
  length ab = 216%nat ->
  first_band ni i w (with_vec Abs ab s) =
  (Ok tt, with_vec Abs
            (Py.upd ab (Z.to_nat (i - 1)) (ev l b m (ni - 1) (i - 1) w)) s).
Proof.
  intros Hab. unfold first_band.
  rewrite bind_one_minus_surv by (auto using shape_abs; lia).
  rewrite bind_wr by in_bounds.
  rewrite vec_of_with_same, with_vec_twice.
  rewrite bind_rd by in_bounds.
  rewrite bind_share by (try apply shape_abs; rewrite ?upd_length; auto; lia).
  rewrite run_wr by in_bounds.
  rewrite vec_of_with_same, with_vec_twice, upd_upd.
  rewrite at_upd_eq by lia.
  rewrite !vec_of_with_other by discriminate. reflexivity.
Qed.

Lemma run_surv_loop sp ab lo hi r0 :
  length ab = 216%nat -> 1 <= lo -> hi <= 15 -> (sp = true -> i <= 108) ->
  for_acc (Py.range lo hi)
    (fun r j =>
       if sp then
         p <- band_entry i j ;; w <- width j ;; sj <- surv (j-1) p w ;;
         ret (r * sj)%R
       else
         w <- width j ;; sj <- surv (j-1) (i-1) w ;; ret (r * sj)%R)
    r0 (with_vec Abs ab s) =
  (Ok (sprod l b m tb (entry tb sp i) lo hi r0), with_vec Abs ab s).
Proof.
  intros Hab Hlo Hhi Hsp. unfold sprod.
  apply for_acc_pure. intros r j Hj. apply in_range in Hj.
  assert (HS := shape_abs ab Hab).
  destruct sp.
  - rewrite bind_band_entry by (auto; lia).
    rewrite bind_width by (auto; lia).
    rewrite !vec_of_with_other by discriminate.
    rewrite bind_surv
      by (auto; try lia; apply entry_bounds; auto).
    rewrite !vec_of_with_other by discriminate. reflexivity.
  - rewrite bind_width by (auto; lia).
    rewrite bind_surv by (auto; lia).
    rewrite !vec_of_with_other by discriminate. reflexivity.
Qed.

Lemma run_integrate_abs C P ab :
  length ab = 216%nat ->
  ((50 <? P) && (C <? 50) = true -> i <= 108) ->
  let v := integ_val l b m tb ((50 <? P) && (C <? 50)) ti ts ni ns i in
  integrate C P ti ts ni ns i (with_vec Abs ab s) =
  (Ok v, with_vec Abs (Py.upd ab (Z.to_nat (i - 1)) v) s).
Proof.
  intros Hab Hsp v. unfold integrate. subst v. unfold integ_val, band_sum.
  set (sp := (50 <? P) && (C <? 50)) in *.
  assert (HS := shape_abs ab Hab).
  rewrite bind_rd by in_bounds.
  rewrite vec_of_with_other by discriminate. fold tb.
  destruct (fleb ts (at_ tb ni)).
  { erewrite run_bind by (apply run_first_band; exact Hab).
    rewrite run_rd by in_bounds.
    rewrite vec_of_with_same, at_upd_eq by lia. reflexivity. }
  rewrite bind_assoc.
  rewrite bind_rd by in_bounds.
  rewrite vec_of_with_other by discriminate. fold tb.
  rewrite bind_assoc.
  erewrite run_bind by (apply run_first_band; exact Hab).
  set (a0 := ev l b m (ni - 1) (i - 1) (at_ tb ni - ti)).
  set (s0 := sv l b m (ni - 1) (i - 1) (at_ tb ni - ti)).
  set (ab0 := Py.upd ab (Z.to_nat (i - 1)) a0).
  assert (Hab0 : length ab0 = 216%nat) by (unfold ab0; now rewrite upd_length).
  assert (HS0 := shape_abs ab0 Hab0).
  assert (Hat0 : at_ ab0 (i - 1) = a0) by (unfold ab0; apply at_upd_eq; lia).
  set (a1 := if 0 <? ns - ni then _ else a0).
  set (ab1 := Py.upd ab (Z.to_nat (i - 1)) a1).
  assert (Hab1 : length ab1 = 216%nat) by (unfold ab1; now rewrite upd_length).
  assert (Hat1 : at_ ab1 (i - 1) = a1) by (unfold ab1; apply at_upd_eq; lia).
  (* the last band *)
  rewrite bind_assoc.
  assert (Hlast :
    (if 0 <? ns - ni then
       if sp then
         tns <- rd T (ns-1) ;;
         r <- one_minus_surv (ns-1) (i+107) (ts - tns)%R ;;
         r <- share r (ns-1) (i+107) ;;
         tni <- rd T ni ;;
         s0 <- surv (ni-1) (i-1) (tni - ti)%R ;;
         r <- (if 1 <? ns - ni then
                 for_acc (Py.range (ni+1) ns) (fun r j =>
                   p <- band_entry i j ;;
                   w <- width j ;;
                   sj <- surv (j-1) p w ;;
                   ret (r * sj)%R) (r * s0)%R
               else ret (r * s0)%R) ;;
         add_abs i r
       else
         tns <- rd T (ns-1) ;;
         r <- one_minus_surv (ns-1) (i-1) (ts - tns)%R ;;
         r <- share r (ns-1) (i-1) ;;
         tni <- rd T ni ;;
         s0 <- surv (ni-1) (i-1) (tni - ti)%R ;;
         r <- (if 1 <? ns - ni then
                 for_acc (Py.range (ni+1) ns) (fun r j =>
                   w <- width j ;;
                   sj <- surv (j-1) (i-1) w ;;
                   ret (r * sj)%R) (r * s0)%R
               else ret (r * s0)%R) ;;
         add_abs i r
     else ret tt) (with_vec Abs ab0 s) = (Ok tt, with_vec Abs ab1 s)).
  { unfold ab1, a1. destruct (0 <? ns - ni) eqn:E0.
    2:{ unfold ab0. reflexivity. }
    destruct sp eqn:Esp.
    - specialize (Hsp eq_refl).
      rewrite bind_rd by in_bounds.
      rewrite bind_one_minus_surv by (auto; lia).
      rewrite bind_share by (auto; lia).
      rewrite bind_rd by in_bounds.
      rewrite bind_surv by (auto; lia).
      rewrite !vec_of_with_other by discriminate. fold l b m tb s0.
      erewrite run_bind; cycle 1.
      { destruct (1 <? ns - ni) eqn:E1.
        - apply (run_surv_loop true ab0 (ni + 1) ns); auto; lia.
        - unfold ret, sprod. rewrite range_nil by lia. reflexivity. }
      rewrite run_add_abs by exact Hab0.
      unfold ab0. rewrite upd_upd. fold ab0. rewrite Hat0. reflexivity.
    - rewrite bind_rd by in_bounds.
      rewrite bind_one_minus_surv by (auto; lia).
      rewrite bind_share by (auto; lia).
      rewrite bind_rd by in_bounds.
      rewrite bind_surv by (auto; lia).
      rewrite !vec_of_with_other by discriminate. fold l b m tb s0.
      erewrite run_bind; cycle 1.
      { destruct (1 <? ns - ni) eqn:E1.
        - apply (run_surv_loop false ab0 (ni + 1) ns); auto; try lia;
            discriminate.
        - unfold ret, sprod. rewrite range_nil by lia. reflexivity. }
      rewrite run_add_abs by exact Hab0.
      unfold ab0. rewrite upd_upd. fold ab0. rewrite Hat0. reflexivity. }
  rewrite (run_bind _ _ _ _ _ Hlast).
  set (term := fun k =>
    sprod l b m tb (entry tb sp i) (ni + 1) k
      (ev l b m (k - 1) (entry tb sp i k) (wd tb k) * s0)%R).
  assert (Hmid :
    (if 1 <? ns - ni then
       if sp then
         for_range (ni+1) ns (fun k =>
           p <- band_entry i k ;;
           w <- width k ;;
           r <- one_minus_surv (k-1) p w ;;
           r <- share r (k-1) p ;;
           tni <- rd T ni ;;
           s0 <- surv (ni-1) (i-1) (tni - ti)%R ;;
           r <- for_acc (Py.range (ni+1) k) (fun r j =>
                  q <- band_entry i j ;;
                  v <- width j ;;
                  sj <- surv (j-1) q v ;;
                  ret (r * sj)%R) (r * s0)%R ;;
           add_abs i r)
       else
         for_range (ni+1) ns (fun k =>
           w <- width k ;;
           r <- one_minus_surv (k-1) (i-1) w ;;
           r <- share r (k-1) (i-1) ;;
           tni <- rd T ni ;;
           s0 <- surv (ni-1) (i-1) (tni - ti)%R ;;
           r <- for_acc (Py.range (ni+1) k) (fun r j =>
                  v <- width j ;;
                  sj <- surv (j-1) (i-1) v ;;
                  ret (r * sj)%R) (r * s0)%R ;;
           add_abs i r)
     else ret tt) (with_vec Abs ab1 s) =
    (Ok tt, with_vec Abs
       (Py.upd ab1 (Z.to_nat (i - 1))
          (fold_left (fun acc k => (acc + term k)%R)
                     (Py.range (ni + 1) ns) a1)) s)).
  { destruct (1 <? ns - ni) eqn:E1.
    2:{ rewrite range_nil by lia. simpl fold_left.
        rewrite <- Hat1, upd_same. reflexivity. }
    destruct sp eqn:Esp.
    - specialize (Hsp eq_refl).
      rewrite (accum_loop Abs (i - 1) term).
      + now rewrite vec_of_with_same, with_vec_twice, Hat1.
      + in_bounds.
      + intros k l' Hk Hl'. rewrite vec_of_with_same in Hl'.
        rewrite with_vec_twice.
        assert (Hl216 : length l' = 216%nat) by congruence.
        assert (HS' := shape_abs l' Hl216).
        rewrite bind_band_entry by (auto; lia).
        rewrite bind_width by (auto; lia).
        rewrite !vec_of_with_other by discriminate.
        assert (He := entry_bounds (vec_of T s) true i k Hi ltac:(auto)).
        rewrite bind_one_minus_surv by (auto; lia).
        rewrite bind_share by (auto; lia).
        rewrite bind_rd by in_bounds.
        rewrite bind_surv by (auto; lia).
        rewrite !vec_of_with_other by discriminate. fold l b m tb s0.
        erewrite run_bind
          by (apply (run_surv_loop true l' (ni + 1) k); auto; lia).
        rewrite run_add_abs by exact Hl216. reflexivity.
    - rewrite (accum_loop Abs (i - 1) term).
      + now rewrite vec_of_with_same, with_vec_twice, Hat1.
      + in_bounds.
      + intros k l' Hk Hl'. rewrite vec_of_with_same in Hl'.
        rewrite with_vec_twice.
        assert (Hl216 : length l' = 216%nat) by congruence.
        assert (HS' := shape_abs l' Hl216).
        rewrite bind_width by (auto; lia).
        rewrite !vec_of_with_other by discriminate.
        rewrite bind_one_minus_surv by (auto; lia).
        rewrite bind_share by (auto; lia).
        rewrite bind_rd by in_bounds.
        rewrite bind_surv by (auto; lia).
        rewrite !vec_of_with_other by discriminate. fold l b m tb s0.
        erewrite run_bind
          by (apply (run_surv_loop false l' (ni + 1) k); auto; try lia;
              discriminate).
        rewrite run_add_abs by exact Hl216. reflexivity. }
  rewrite (run_bind _ _ _ _ _ Hmid).
  rewrite run_rd by in_bounds.
  rewrite vec_of_with_same. unfold ab1. rewrite upd_upd.
  rewrite at_upd_eq by lia. reflexivity.
Qed.

End Integrate.

Lemma run_integrate s C P ti ts ni ns i :
  shape s -> 1 <= ni <= 14 -> 1 <= ns <= 14 -> 1 <= i <= 216 ->
  ((50 <? P) && (C <? 50) = true -> i <= 108) ->
  let v := integ_val (rlan s) (sumbb s) (rmu s) (t s)
             ((50 <? P) && (C <? 50)) ti ts ni ns i in
  integrate C P ti ts ni ns i s =
  (Ok v, with_vec Abs (Py.upd (abs s) (Z.to_nat (i - 1)) v) s).
Proof.
  intros Hs Hni Hns Hi Hsp v.
  rewrite <- (with_vec_same Abs s) at 1.
  apply (run_integrate_abs s Hs ni ns i ti ts Hni Hns Hi C P (abs s)).
  - apply (shape_vec s Abs Hs).
  - exact Hsp.
Qed.

(** ** The age bands *)

Lemma fltb_IZR a b : fltb (IZR a) (IZR b) = (a <? b).
Proof.
  unfold fltb. destruct (Rlt_dec (IZR a) (IZR b)) as [H|H].
  - apply lt_IZR in H. symmetry. now apply Z.ltb_lt.
  - symmetry. apply Z.ltb_ge. apply le_IZR. now apply Rnot_lt_le.
Qed.

Lemma fleb_IZR a b : fleb (IZR a) (IZR b) = (a <=? b).
Proof.
  unfold fleb. destruct (Rle_dec (IZR a) (IZR b)) as [H|H].
  - apply le_IZR in H. symmetry. now apply Z.leb_le.
  - symmetry. apply Z.leb_gt. apply lt_IZR. now apply Rnot_le_lt.
Qed.

Lemma at_age k : 0 <= k <= 14 -> at_ age_boundaries k = IZR (20 + 5 * k).
Proof.
  intros H.
  assert (Hk : k = 0 \/ k = 1 \/ k = 2 \/ k = 3 \/ k = 4 \/ k = 5 \/ k = 6 \/
               k = 7 \/ k = 8 \/ k = 9 \/ k = 10 \/ k = 11 \/ k = 12 \/
               k = 13 \/ k = 14) by lia.
  repeat (destruct Hk as [->|Hk]; [reflexivity|]). subst k. reflexivity.
Qed.

Lemma range_1_16 :
  Py.range 1 16 = [1; 2; 3; 4; 5; 6; 7; 8; 9; 10; 11; 12; 13; 14; 15].
Proof. reflexivity. Qed.

(** Band of the current age: [t[ni-1] <= ti < t[ni]]. *)
Lemma breach_current C :
  20 <= C < 90 ->
  let ni := breach fltb (IZR C) age_boundaries (Py.range 1 16) in
  1 <= ni <= 14 /\ 20 + 5 * (ni - 1) <= C < 20 + 5 * ni.
Proof.
  intros H. rewrite range_1_16. unfold breach.
  repeat (rewrite at_age by lia; rewrite fltb_IZR;
          match goal with |- context [?a <? ?b] =>
            destruct (Z.ltb_spec a b)
          end; [cbv zeta; lia|]).
  lia.
Qed.

(** Band of the projection age: [t[ns-1] < ts <= t[ns]]. *)
Lemma breach_projection P :
  20 < P <= 90 ->
  let ns := breach fleb (IZR P) age_boundaries (Py.range 1 16) in
  1 <= ns <= 14 /\ 20 + 5 * (ns - 1) < P <= 20 + 5 * ns.
Proof.
  intros H. rewrite range_1_16. unfold breach.
  repeat (rewrite at_age by lia; rewrite fleb_IZR;
          match goal with |- context [?a <=? ?b] =>
            destruct (Z.leb_spec a b)
          end; [cbv zeta; lia|]).
  lia.
Qed.

(** ** The covariate matrix *)

Lemma build_design :
  build_r8iTox2 NumCovPattInGailModel = Some (map design_row (Py.range 1 217)).
Proof. vm_compute. reflexivity. Qed.

Lemma design_eq : design = map design_row (Py.range 1 217).
Proof. unfold design. now rewrite build_design. Qed.

Lemma design_length : length design = 216%nat.
Proof. rewrite design_eq, length_map, range_length. reflexivity. Qed.

Lemma design_rows : Forall (fun row => length row = 9%nat) design.
Proof.
  rewrite design_eq. apply Forall_forall. intros row Hin.
  apply in_map_iff in Hin. destruct Hin as (k & <- & _).
  unfold design_row. destruct (block_decode k) as [[[[a m] b] f] r].
  reflexivity.
Qed.

Lemma design_nth k :
  1 <= k <= 216 -> nth (Z.to_nat (k - 1)) design [] = design_row k.
Proof.
  intros H. rewrite design_eq.
  rewrite nth_indep with (d' := design_row 0)
    by (rewrite length_map, range_length; lia).
  rewrite map_nth. f_equal. rewrite range_nth by lia. lia.
Qed.

(** ** Shapes *)

Lemma shape_init : shape __init__.
Proof.
  split.
  - intros []; reflexivity.
  - intros []; split; try reflexivity; repeat constructor.
Qed.

Lemma rows_check (m : list (list R)) (c : nat) :
  forallb (fun row => Nat.eqb (length row) c) m = true ->
  Forall (fun row => length row = c) m.
Proof.
  intros H. apply Forall_forall. intros row Hin.
  rewrite forallb_forall in H. now apply Nat.eqb_eq, H.
Qed.

Lemma shape_create : shape create_calculator.
Proof.
  split.
  - intros []; reflexivity.
  - intros []; (split; [vm_compute; reflexivity|]);
      apply rows_check; vm_compute; reflexivity.
Qed.

Lemma wf_create : wf create_calculator.
Proof. split; [apply shape_create|]. repeat split. Qed.

Lemma wf_tables s s' : tables s' = tables s -> shape s' -> wf s -> wf s'.
Proof.
  unfold tables. intros H Hs' (_ & H1 & H2 & H3 & H4 & H5 & H6).
  injection H as E1 E2 E3 E4 E5 E6.
  split; [exact Hs'|]. repeat split; congruence.
Qed.

Lemma adjusted_length sbb i rhyp : length (adjusted sbb i rhyp) = length sbb.
Proof.
  unfold adjusted. destruct (i <=? 108); now rewrite ?upd_length.
Qed.

Lemma wf_t s : wf s -> t s = age_boundaries.
Proof. intros H. apply H. Qed.

(** ** [_calculate_risk] returns [risk_value] *)

(** Everything before the hyperplasia adjustment succeeds and leaves the
    centred predictor, the scaled incidence and the mortality of the race
    in the instance arrays. *)
Lemma run_prefix s ri C P A nb ma fl eb fd ih rh ir :
  wf s ->
  1 <= ir <= 12 -> 20 <= C < 90 -> 20 < P <= 90 ->
  let i := effective_pattern ri ir A nb ma fl fd in
  let ni := breach fltb (IZR C) age_boundaries (Py.range 1 16) in
  let ns := breach fleb (IZR P) age_boundaries (Py.range 1 16) in
  exists s6,
    _calculate_risk ri C P A nb ma fl eb fd ih rh ir s =
      (adjust_hyperplasia i (effective_rhyp ri rh) ;;
       integrate C P (IZR C) (IZR P) ni ns i)%calc s6 /\
    shape s6 /\
    bet s6 = beta_of s ir /\
    sumb s6 = sumb_of (beta_of s ir) design /\
    sumbb s6 = sumbb_of (beta_of s ir) (sumb_of (beta_of s ir) design) /\
    rlan s6 = incidence s ri ir /\
    rmu s6 = rmu_of s (column_index ri ir) /\
    t s6 = age_boundaries /\
    abs s6 = abs s.
Proof.
  intros Hwf Hir HC HP i ni ns. assert (Hs : shape s) by apply Hwf.
  assert (Htb : t s = age_boundaries) by now apply wf_t.
  unfold _calculate_risk.
  (* race-specific coefficients *)
  erewrite run_bind by (apply run_select_beta; assumption).
  set (s1 := with_vec Bet _ s).
  assert (Hs1 : shape s1) by (apply shape_with; [assumption|reflexivity]).
  cbv zeta.
  (* the two bands *)
  erewrite run_bind
    by (apply run_first_breach; [exact Hs1|];
        intros j Hj; apply in_range in Hj; lia).
  erewrite run_bind
    by (apply run_first_breach; [exact Hs1|];
        intros j Hj; apply in_range in Hj; lia).
  change (t s1) with (t s). rewrite Htb. fold ni ns.
  (* rates and attributable-risk factors *)
  set (incr := if (ri =? 2) && (ir <? 7) then 3 else 0).
  assert (Hincr : 0 <= incr + ir - 1 < 12).
  { unfold incr. destruct (ri =? 2); simpl; [|lia].
    destruct (Z.ltb_spec ir 7); lia. }
  erewrite run_bind by (apply run_select_rates; [exact Hs1|exact Hincr]).
  set (s2 := with_vec Rlan _ _).
  assert (Hs2 : shape s2) by (repeat apply shape_with; auto; reflexivity).
  erewrite run_bind by (apply run_select_rf; [exact Hs2|lia]).
  set (s3 := with_vec Rf _ _).
  assert (Hs3 : shape s3).
  { apply shape_with; [assumption|]. unfold rf_of.
    destruct ((ri =? 2) && (7 <=? ir)); reflexivity. }
  (* the predictor *)
  rewrite build_design. change (lift (Some ?x)) with (ret x).
  rewrite bind_ret. rewrite <- design_eq.
  change NumCovPattInGailModel with 216.
  erewrite run_bind
    by (apply run_compute_sumb;
        [exact Hs3|apply design_length|apply design_rows]).
  set (s4 := with_vec Sumb _ _).
  assert (Hs4 : shape s4) by (apply shape_with; [assumption|reflexivity]).
  erewrite run_bind by (apply run_center_sumbb; exact Hs4).
  set (s5 := with_vec Sumbb _ _).
  assert (Hs5 : shape s5) by (apply shape_with; [assumption|reflexivity]).
  erewrite run_bind by (apply run_scale_rlan; exact Hs5).
  set (s6 := with_vec Rlan _ _).
  assert (Hs6 : shape s6) by (apply shape_with; [assumption|reflexivity]).
  fold (effective_pattern ri ir A nb ma fl fd). fold i.
  fold (effective_rhyp ri rh).
  exists s6. split; [reflexivity|]. split; [exact Hs6|].
  repeat split; try reflexivity; exact Htb.
Qed.

Theorem run_calculate_risk s ri C P A nb ma fl eb fd ih rh ir :
  wf s ->
  1 <= ir <= 12 -> 20 <= C < 90 -> 20 < P <= 90 ->
  let i := effective_pattern ri ir A nb ma fl fd in
  1 <= i <= 216 -> (spans50 C P = true -> i <= 108) ->
  exists s',
    _calculate_risk ri C P A nb ma fl eb fd ih rh ir s =
      (Ok (risk_value s ri C P A nb ma fl fd rh ir), s') /\
    shape s' /\
    bet s' = beta_of s ir /\
    sumb s' = sumb_of (beta_of s ir) design /\
    sumbb s' = predictor s ir i (effective_rhyp ri rh) /\
    rlan s' = incidence s ri ir /\
    rmu s' = rmu_of s (column_index ri ir).
Proof.
  intros Hwf Hir HC HP i Hi Hsp.
  destruct (run_prefix s ri C P A nb ma fl eb fd ih rh ir Hwf Hir HC HP)
    as (s6 & Hrun & Hs6 & E1 & E2 & E3 & E4 & E5 & E6 & E7).
  fold i in Hrun. rewrite Hrun.
  destruct (breach_current C HC) as [Hni _].
  destruct (breach_projection P HP) as [Hns _].
  erewrite run_bind by (apply run_adjust_hyperplasia; [exact Hs6|exact Hi]).
  set (s7 := with_vec Sumbb _ _).
  assert (Hs7 : shape s7).
  { apply shape_with; [assumption|]. rewrite adjusted_length.
    apply (shape_vec s6 Sumbb Hs6). }
  rewrite run_integrate by assumption.
  assert (F1 : rlan s7 = incidence s ri ir) by exact E4.
  assert (F2 : sumbb s7 = predictor s ir i (effective_rhyp ri rh)).
  { unfold s7, predictor. rewrite <- E3. reflexivity. }
  assert (F3 : rmu s7 = rmu_of s (column_index ri ir)) by exact E5.
  assert (F4 : t s7 = age_boundaries) by exact E6.
  eexists. split; [|split; [|repeat split]].
  - rewrite F1, F2, F3, F4. unfold risk_value.
    rewrite (wf_t s Hwf). reflexivity.
  - apply shape_with; [assumption|]. rewrite upd_length.
    apply (shape_vec s7 Abs Hs7).
  - exact E1.
  - exact E2.
  - exact F2.
  - exact F1.
  - exact F3.
Qed.

Local Open Scope R_scope.

(** ** Competing-risk arithmetic of one band *)

Lemma exp_le_compat x y : x <= y -> exp x <= exp y.
Proof.
  intros [H | ->]; [left; now apply exp_increasing | right; reflexivity].
Qed.

Section BandMath.
Variables l b m : list R.
Hypothesis Hl : forall k, 0 <= at_ l k.
Hypothesis Hm : forall k, 0 <= at_ m k.

Lemma haz_nonneg k p : 0 <= haz l b m k p.
Proof.
  unfold haz. pose proof (exp_pos (at_ b p)).
  specialize (Hl k). specialize (Hm k). nra.
Qed.

Lemma sv_range k p w : 0 <= w -> 0 < sv l b m k p w <= 1.
Proof.
  intros Hw. unfold sv. split; [apply exp_pos|].
  rewrite <- exp_0. apply exp_le_compat.
  pose proof (haz_nonneg k p). nra.
Qed.

Lemma ev_range k p w :
  0 <= w -> 0 <= ev l b m k p w <= 1 - sv l b m k p w.
Proof.
  intros Hw. pose proof (sv_range k p w Hw) as Hs.
  pose proof (haz_nonneg k p) as Hh.
  unfold ev, shr, oms. fold (sv l b m k p w).
  set (e := sv l b m k p w) in *.
  pose proof (exp_pos (at_ b p)) as He.
  specialize (Hl k). specialize (Hm k).
  assert (Ha : 0 <= at_ l k * exp (at_ b p)) by nra.
  destruct Hh as [Hh|Hh].
  - set (h := haz l b m k p) in *.
    assert (Hq : 0 < / h) by now apply Rinv_0_lt_compat.
    assert (Hhq : h * / h = 1) by (apply Rinv_r; lra).
    assert (Hah : at_ l k * exp (at_ b p) <= h) by (unfold h, haz; lra).
    unfold Rdiv.
    replace ((1 - e) * at_ l k * exp (at_ b p) * / h)
      with ((1 - e) * ((at_ l k * exp (at_ b p)) * / h)) by ring.
    assert (0 <= at_ l k * exp (at_ b p) * / h <= 1).
    { split; [nra|]. rewrite <- Hhq. apply Rmult_le_compat_r; lra. }
    nra.
  - assert (Hz : at_ l k * exp (at_ b p) = 0) by (unfold haz in Hh; lra).
    replace ((1 - e) * at_ l k * exp (at_ b p) / haz l b m k p)
      with ((1 - e) * (at_ l k * exp (at_ b p)) / haz l b m k p)
      by (unfold Rdiv; ring).
    rewrite Hz. unfold Rdiv. rewrite Rmult_0_r, Rmult_0_l. lra.
Qed.

Lemma ev_mono k p w w' :
  w <= w' -> ev l b m k p w <= ev l b m k p w'.
Proof.
  intros Hw. pose proof (haz_nonneg k p) as Hh.
  unfold ev, shr, oms.
  pose proof (exp_pos (at_ b p)) as He.
  specialize (Hl k). specialize (Hm k).
  assert (Ha : 0 <= at_ l k * exp (at_ b p)) by nra.
  assert (Hee : exp (- haz l b m k p * w') <= exp (- haz l b m k p * w)).
  { apply exp_le_compat. nra. }
  destruct Hh as [Hh|Hh].
  - set (h := haz l b m k p) in *.
    assert (Hq : 0 < / h) by now apply Rinv_0_lt_compat.
    unfold Rdiv.
    replace ((1 - exp (- h * w)) * at_ l k * exp (at_ b p) * / h)
      with ((1 - exp (- h * w)) * ((at_ l k * exp (at_ b p)) * / h)) by ring.
    replace ((1 - exp (- h * w')) * at_ l k * exp (at_ b p) * / h)
      with ((1 - exp (- h * w')) * ((at_ l k * exp (at_ b p)) * / h)) by ring.
    apply Rmult_le_compat_r; [nra|lra].
  - assert (Hz : at_ l k * exp (at_ b p) = 0) by (unfold haz in Hh; lra).
    replace ((1 - exp (- haz l b m k p * w)) * at_ l k * exp (at_ b p)
               / haz l b m k p)
      with ((1 - exp (- haz l b m k p * w)) * (at_ l k * exp (at_ b p))
               / haz l b m k p) by (unfold Rdiv; ring).
    replace ((1 - exp (- haz l b m k p * w')) * at_ l k * exp (at_ b p)
               / haz l b m k p)
      with ((1 - exp (- haz l b m k p * w')) * (at_ l k * exp (at_ b p))
               / haz l b m k p) by (unfold Rdiv; ring).
    rewrite Hz. unfold Rdiv. rewrite !Rmult_0_r, !Rmult_0_l. lra.
Qed.

(** ** The sum over the bands *)

Variable tb : list R.
Variable pe : Z -> Z.
Variables (ni i : Z) (ti : R).
Hypothesis Hw0 : 0 <= at_ tb ni - ti.
Hypothesis Hwd : forall j, (ni < j <= 14)%Z -> 0 <= wd tb j.

Let a0 := ev l b m (ni - 1) (i - 1) (at_ tb ni - ti).
Let s0 := sv l b m (ni - 1) (i - 1) (at_ tb ni - ti).
Let Pi (n : Z) := sprod l b m tb pe (ni + 1) n s0.
Let term (k : Z) :=
  sprod l b m tb pe (ni + 1) k (ev l b m (k - 1) (pe k) (wd tb k) * s0).
Let Sg (n : Z) :=
  fold_left (fun a k => a + term k) (Py.range (ni + 1) n) 0.

Lemma sprod_mul x lo hi r :
  sprod l b m tb pe lo hi (x * r) = x * sprod l b m tb pe lo hi r.
Proof.
  unfold sprod. generalize (Py.range lo hi) as xs. intros xs. revert r.
  induction xs as [|j xs IH]; intros r; simpl; [reflexivity|].
  rewrite Rmult_assoc. apply IH.
Qed.

Lemma sprod_snoc lo hi r :
  (lo <= hi)%Z ->
  sprod l b m tb pe lo (hi + 1) r =
  sprod l b m tb pe lo hi r * sv l b m (hi - 1) (pe hi) (wd tb hi).
Proof.
  intros H. unfold sprod. rewrite range_snoc by exact H.
  now rewrite fold_left_app.
Qed.

Lemma fold_add_shift (g : Z -> R) xs a :
  fold_left (fun a k => a + g k) xs a =
  a + fold_left (fun a k => a + g k) xs 0.
Proof.
  revert a. induction xs as [|x xs IH]; intros a; simpl; [ring|].
  rewrite IH, (IH (0 + g x)). ring.
Qed.

Lemma term_eq k : term k = ev l b m (k - 1) (pe k) (wd tb k) * Pi k.
Proof. unfold term, Pi. apply sprod_mul. Qed.

Lemma Pi_first : Pi (ni + 1) = s0.
Proof. unfold Pi, sprod. now rewrite range_nil by lia. Qed.

Lemma Pi_step n : (ni + 1 <= n)%Z ->
  Pi (n + 1) = Pi n * sv l b m (n - 1) (pe n) (wd tb n).
Proof. intros H. unfold Pi. now apply sprod_snoc. Qed.

Lemma Sg_first : Sg (ni + 1) = 0.
Proof. unfold Sg. now rewrite range_nil by lia. Qed.

Lemma Sg_step n : (ni + 1 <= n)%Z -> Sg (n + 1) = Sg n + term n.
Proof.
  intros H. unfold Sg. rewrite range_snoc by exact H.
  now rewrite fold_left_app.
Qed.

(** What has happened by the start of band [n]: the event, with
    probability [a0 + Sg n], or survival, with probability [Pi n]. *)
Lemma bands_invariant (d : nat) :
  let n := (ni + 1 + Z.of_nat d)%Z in
  (n <= 15)%Z -> 0 <= Sg n /\ 0 <= Pi n /\ a0 + Sg n + Pi n <= 1.
Proof.
  induction d as [|d IH]; intros n Hn.
  - subst n. rewrite Z.add_0_r, Sg_first, Pi_first.
    pose proof (ev_range (ni - 1) (i - 1) _ Hw0) as He.
    pose proof (sv_range (ni - 1) (i - 1) _ Hw0) as Hs.
    fold a0 in He. fold s0 in He, Hs. lra.
  - set (n0 := (ni + 1 + Z.of_nat d)%Z) in *.
    assert (En : n = (n0 + 1)%Z) by (unfold n, n0; lia).
    destruct (IH ltac:(lia)) as (H1 & H2 & H3).
    rewrite En, Sg_step, Pi_step, term_eq by (unfold n0; lia).
    assert (Hw : 0 <= wd tb n0) by (apply Hwd; unfold n0; lia).
    pose proof (ev_range (n0 - 1) (pe n0) _ Hw) as He.
    pose proof (sv_range (n0 - 1) (pe n0) _ Hw) as Hs.
    set (e := ev l b m (n0 - 1) (pe n0) (wd tb n0)) in *.
    set (sg := sv l b m (n0 - 1) (pe n0) (wd tb n0)) in *.
    repeat split; nra.
Qed.

Lemma bands_inv n :
  (ni + 1 <= n <= 15)%Z -> 0 <= Sg n /\ 0 <= Pi n /\ a0 + Sg n + Pi n <= 1.
Proof.
  intros H. pose proof (bands_invariant (Z.to_nat (n - (ni + 1)))) as Hd.
  replace (ni + 1 + Z.of_nat (Z.to_nat (n - (ni + 1))))%Z with n in Hd by lia.
  apply Hd. lia.
Qed.

Lemma term_nonneg k : (ni + 1 <= k <= 14)%Z -> 0 <= term k.
Proof.
  intros H. rewrite term_eq.
  destruct (bands_inv k ltac:(lia)) as (_ & HP & _).
  assert (Hw : 0 <= wd tb k) by (apply Hwd; lia).
  pose proof (ev_range (k - 1) (pe k) _ Hw). nra.
Qed.

Lemma Sg_mono_nat n (d : nat) :
  (ni + 1 <= n)%Z -> (n + Z.of_nat d <= 15)%Z -> Sg n <= Sg (n + Z.of_nat d).
Proof.
  intros Hn. induction d as [|d IH]; intros Hd.
  - rewrite Z.add_0_r. lra.
  - replace (n + Z.of_nat (S d))%Z with (n + Z.of_nat d + 1)%Z by lia.
    rewrite Sg_step by lia.
    pose proof (term_nonneg (n + Z.of_nat d) ltac:(lia)).
    specialize (IH ltac:(lia)). lra.
Qed.

Lemma Sg_mono n n' : (ni + 1 <= n <= n')%Z -> (n' <= 15)%Z -> Sg n <= Sg n'.
Proof.
  intros H H'. replace n' with (n + Z.of_nat (Z.to_nat (n' - n)))%Z by lia.
  apply Sg_mono_nat; lia.
Qed.

Lemma a0_range : 0 <= a0 <= 1.
Proof.
  pose proof (ev_range (ni - 1) (i - 1) _ Hw0) as He.
  pose proof (sv_range (ni - 1) (i - 1) _ Hw0) as Hs.
  fold a0 in He. lra.
Qed.

(** The sum when the projection lies beyond the first band. *)
Lemma band_sum_multi pl ts ns :
  ~ ts <= at_ tb ni -> (ni < ns)%Z ->
  band_sum l b m tb pe pl ti ts ni ns i =
  a0 + ev l b m (ns - 1) pl (ts - at_ tb (ns - 1)) * Pi ns + Sg ns.
Proof.
  intros Hts Hns. unfold band_sum, fleb.
  destruct (Rle_dec ts (at_ tb ni)) as [H|_]; [contradiction|].
  destruct (Z.ltb_spec 0 (ns - ni)) as [_|H]; [|lia].
  cbv zeta. fold a0 s0.
  rewrite (fold_add_shift
    (fun k => sprod l b m tb pe (ni + 1) k
                (ev l b m (k - 1) (pe k) (wd tb k) * s0))).
  fold term. fold (Sg ns). rewrite sprod_mul. fold (Pi ns). reflexivity.
Qed.

Lemma band_sum_single pl ts ns :
  ts <= at_ tb ni ->
  band_sum l b m tb pe pl ti ts ni ns i = ev l b m (ni - 1) (i - 1) (ts - ti).
Proof.
  intros Hts. unfold band_sum, fleb.
  destruct (Rle_dec ts (at_ tb ni)) as [_|H]; [reflexivity|contradiction].
Qed.

(** The result is a probability. *)
Lemma band_sum_range pl ts ns :
  ti <= ts ->
  (ts <= at_ tb ni \/
   ((ni < ns <= 14)%Z /\ 0 <= ts - at_ tb (ns - 1))) ->
  0 <= band_sum l b m tb pe pl ti ts ni ns i <= 1.
Proof.
  intros Hti Hcase.
  destruct (Rle_dec ts (at_ tb ni)) as [Hs|Hs].
  - rewrite band_sum_single by exact Hs.
    assert (Hw : 0 <= ts - ti) by lra.
    pose proof (ev_range (ni - 1) (i - 1) _ Hw) as He.
    pose proof (sv_range (ni - 1) (i - 1) _ Hw). lra.
  - destruct Hcase as [Hc|[Hns Hw]]; [contradiction|].
    rewrite band_sum_multi by (auto; lia).
    destruct (bands_inv ns ltac:(lia)) as (H1 & H2 & H3).
    pose proof (ev_range (ns - 1) pl _ Hw) as He.
    pose proof (sv_range (ns - 1) pl _ Hw) as Hsv.
    pose proof a0_range. split; nra.
Qed.

(** The result grows with the projection age, the predictor entry of the
    last band being that of the band itself. *)
Lemma band_sum_mono ts ns ts' ns' :
  ti <= ts -> ts <= ts' ->
  (ts <= at_ tb ni \/
   ((ni < ns <= 14)%Z /\ 0 <= ts - at_ tb (ns - 1) /\ ts <= at_ tb ns)) ->
  (ts' <= at_ tb ni \/
   ((ni < ns' <= 14)%Z /\ 0 <= ts' - at_ tb (ns' - 1))) ->
  (~ ts <= at_ tb ni -> (ns <= ns')%Z) ->
  band_sum l b m tb pe (pe ns) ti ts ni ns i <=
  band_sum l b m tb pe (pe ns') ti ts' ni ns' i.
Proof.
  intros Hti Hle Hc Hc' Hnn.
  destruct (Rle_dec ts (at_ tb ni)) as [Hs|Hs];
  destruct (Rle_dec ts' (at_ tb ni)) as [Hs'|Hs'].
  - rewrite !band_sum_single by assumption. apply ev_mono. lra.
  - destruct Hc' as [Hc'|[Hns' Hw']]; [contradiction|].
    rewrite band_sum_single by assumption.
    rewrite band_sum_multi by (auto; lia).
    destruct (bands_inv ns' ltac:(lia)) as (H1 & H2 & H3).
    pose proof (ev_range (ns' - 1) (pe ns') _ Hw') as He.
    assert (ev l b m (ni - 1) (i - 1) (ts - ti) <= a0)
      by (apply ev_mono; lra).
    nra.
  - lra.
  - destruct Hc as [Hc|(Hns & Hw & Hup)]; [contradiction|].
    destruct Hc' as [Hc'|[Hns' Hw']]; [contradiction|].
    specialize (Hnn Hs).
    rewrite !band_sum_multi by (auto; lia).
    destruct (bands_inv ns ltac:(lia)) as (H1 & H2 & H3).
    destruct (bands_inv ns' ltac:(lia)) as (H1' & H2' & H3').
    pose proof (ev_range (ns' - 1) (pe ns') _ Hw') as He'.
    destruct (Z.eq_dec ns ns') as [<-|Hne].
    + assert (ev l b m (ns - 1) (pe ns) (ts - at_ tb (ns - 1)) <=
              ev l b m (ns - 1) (pe ns) (ts' - at_ tb (ns - 1)))
        by (apply ev_mono; lra).
      nra.
    + assert (Hfull : ev l b m (ns - 1) (pe ns) (ts - at_ tb (ns - 1)) <=
                      ev l b m (ns - 1) (pe ns) (wd tb ns))
        by (apply ev_mono; unfold wd; lra).
      assert (Hstep : Sg (ns + 1) = Sg ns + term ns) by (apply Sg_step; lia).
      rewrite term_eq in Hstep.
      assert (Hmono : Sg (ns + 1) <= Sg ns') by (apply Sg_mono; lia).
      nra.
Qed.

End BandMath.

Local Close Scope R_scope.

(** ** The tables are non-negative *)

Lemma rlan2_nonneg : nonneg_table (rlan2 create_calculator).
Proof.
  unfold nonneg_table.
  cbv [create_calculator initialize rlan2 init_rlan2 __init__ zeros2 zeros
       repeat set_col col Py.upd nth map scale
       rlan2_col0 rlan2_col1 rlan2_col2 rlan2_col3 rlan2_col6 rlan2_col7
       rlan2_col8 rlan2_col9 rlan2_col10 rlan2_col11].
  repeat (constructor; [repeat (constructor; [lra|]); constructor|]).
  constructor.
Qed.

Lemma rmu2_nonneg : nonneg_table (rmu2 create_calculator).
Proof.
  unfold nonneg_table.
  cbv [create_calculator initialize rmu2 init_rmu2 __init__ zeros2 zeros
       repeat set_col col Py.upd nth map scale
       rmu2_col0 rmu2_col1 rmu2_col2 rmu2_col3 rmu2_col6 rmu2_col7
       rmu2_col8 rmu2_col9 rmu2_col10 rmu2_col11].
  repeat (constructor; [repeat (constructor; [lra|]); constructor|]).
  constructor.
Qed.

Lemma rf2_nonneg : nonneg_table (rf2 create_calculator).
Proof.
  unfold nonneg_table.
  cbv [create_calculator initialize rf2 init_rf2 __init__ zeros2 zeros
       repeat upd2 Py.upd nth fold_left seq].
  repeat (constructor; [repeat (constructor; [lra|]); constructor|]).
  constructor.
Qed.

Lemma at_nonneg (l : list R) j :
  Forall (fun x => (0 <= x)%R) l -> (0 <= at_ l j)%R.
Proof.
  intros H. unfold at_.
  destruct (nth_in_or_default (Z.to_nat j) l 0%R) as [Hin | ->]; [|lra].
  rewrite Forall_forall in H. now apply H.
Qed.

Lemma at2_nonneg (m : list (list R)) i j :
  nonneg_table m -> (0 <= at2 m i j)%R.
Proof.
  intros H. unfold at2. apply at_nonneg.
  destruct (nth_in_or_default (Z.to_nat i) m []) as [Hin | ->].
  - unfold nonneg_table in H. rewrite Forall_forall in H. now apply H.
  - constructor.
Qed.

Lemma at_tabulate_out n g j : ~ 0 <= j < n -> 0 <= j -> at_ (tabulate n g) j = 0%R.
Proof.
  intros H Hj. unfold at_. apply nth_overflow. rewrite tabulate_length. lia.
Qed.

Lemma tabulate_nonneg n g j :
  (forall k, 0 <= k < n -> (0 <= g k)%R) -> (0 <= at_ (tabulate n g) j)%R.
Proof.
  intros H. apply at_nonneg. unfold tabulate. apply Forall_forall.
  intros x Hx. apply in_map_iff in Hx. destruct Hx as (k & <- & Hk).
  apply in_range in Hk. now apply H.
Qed.

Lemma rmu_of_nonneg s c j : wf s -> (0 <= at_ (rmu_of s c) j)%R.
Proof.
  intros Hwf. unfold rmu_of. apply tabulate_nonneg. intros k _.
  destruct Hwf as (_ & _ & _ & _ & -> & _). apply at2_nonneg, rmu2_nonneg.
Qed.

Lemma incidence_nonneg s ri ir j : wf s -> (0 <= at_ (incidence s ri ir) j)%R.
Proof.
  intros Hwf. unfold incidence, rlan_scaled. apply tabulate_nonneg.
  intros k _. destruct Hwf as (_ & _ & E2 & E3 & _).
  assert (Hl : (0 <= at_ (rlan_of s (column_index ri ir)) k)%R).
  { unfold rlan_of. apply tabulate_nonneg. intros k' _. rewrite E3.
    apply at2_nonneg, rlan2_nonneg. }
  assert (Hf : forall q, (0 <= at_ (rf_of s ri ir
              (if (ri =? 2) && (ir <? 7) then 3 else 0)) q)%R).
  { intros q. apply at_nonneg. unfold rf_of. rewrite E2.
    destruct ((ri =? 2) && (7 <=? ir));
      (apply Forall_cons; [apply at2_nonneg, rf2_nonneg|]);
      (apply Forall_cons; [apply at2_nonneg, rf2_nonneg|]);
      apply Forall_nil. }
  destruct (k <? 6); apply Rmult_le_pos; auto.
Qed.

(** ** Band geometry of the age table *)

Lemma wd_age j : 1 <= j <= 14 -> wd age_boundaries j = 5%R.
Proof.
  intros H. unfold wd. rewrite !at_age by lia. rewrite <- minus_IZR.
  f_equal. lia.
Qed.

Lemma risk_value_wf s ri C P A nb ma fl fd rh ir :
  wf s ->
  risk_value s ri C P A nb ma fl fd rh ir =
  risk_value create_calculator ri C P A nb ma fl fd rh ir.
Proof.
  intros (_ & E1 & E2 & E3 & E4 & E5 & _).
  unfold risk_value, incidence, predictor, beta_of, rmu_of, rlan_of, rf_of.
  rewrite E1, E2, E3, E4, E5. reflexivity.
Qed.

(** The pattern index of categories within their cardinalities. *)
Lemma effective_pattern_range ri ir A nb ma fl fd :
  0 <= A <= 1 -> 0 <= ma <= 2 -> 0 <= nb <= 2 -> 0 <= fl <= 3 ->
  0 <= fd <= 2 ->
  let i := effective_pattern ri ir A nb ma fl fd in
  1 <= i <= 216 /\ (A = 0 -> i <= 108).
Proof.
  intros HA Hma Hnb Hfl Hfd. unfold effective_pattern, pattern_index.
  destruct ((ir =? 2) && (ma =? 2)), (2 <=? ri); cbv zeta; lia.
Qed.

Lemma fold_left_ext_in {A B} (f g : A -> B -> A) xs a :
  (forall a x, In x xs -> f a x = g a x) ->
  fold_left f xs a = fold_left g xs a.
Proof.
  revert a. induction xs as [|x xs IH]; intros a H; simpl; [reflexivity|].
  rewrite H by now left. apply IH. intros a' y Hy. apply H. now right.
Qed.

Lemma sprod_ext l b m tb pe pe' lo hi r :
  (forall j, lo <= j < hi -> pe j = pe' j) ->
  sprod l b m tb pe lo hi r = sprod l b m tb pe' lo hi r.
Proof.
  intros H. unfold sprod. apply fold_left_ext_in.
  intros a j Hj. apply in_range in Hj. now rewrite H.
Qed.

Lemma band_sum_ext l b m tb pe pe' pl pl' ti ts ni ns i :
  (forall j, ni < j < ns -> pe j = pe' j) ->
  (ni < ns -> pl = pl') ->
  band_sum l b m tb pe pl ti ts ni ns i =
  band_sum l b m tb pe' pl' ti ts ni ns i.
Proof.
  intros Hpe Hpl. unfold band_sum.
  destruct (fleb ts (at_ tb ni)); [reflexivity|]. cbv zeta.
  assert (Hfold : forall a,
    fold_left (fun a k =>
      (a + sprod l b m tb pe (ni + 1) k
             (ev l b m (k - 1) (pe k) (wd tb k) *
              sv l b m (ni - 1) (i - 1) (at_ tb ni - ti)))%R)
      (Py.range (ni + 1) ns) a =
    fold_left (fun a k =>
      (a + sprod l b m tb pe' (ni + 1) k
             (ev l b m (k - 1) (pe' k) (wd tb k) *
              sv l b m (ni - 1) (i - 1) (at_ tb ni - ti)))%R)
      (Py.range (ni + 1) ns) a).
  { intros a. apply fold_left_ext_in. intros a' k Hk. apply in_range in Hk.
    rewrite (Hpe k) by lia. f_equal. apply sprod_ext.
    intros j Hj. apply Hpe. lia. }
  rewrite Hfold. f_equal.
  destruct (Z.ltb_spec 0 (ns - ni)) as [H|H]; [|reflexivity].
  rewrite (Hpl ltac:(lia)). f_equal. apply sprod_ext.
  intros j Hj. apply Hpe. lia.
Qed.

(** ** The value of a call is a probability *)

Lemma IZR_sub_nonneg a c : a <= c -> (0 <= IZR c - IZR a)%R.
Proof. intros H. apply IZR_le in H. lra. Qed.

Theorem risk_value_range s ri C P A nb ma fl fd rh ir :
  wf s -> 20 <= C < 90 -> C < P <= 90 ->
  (0 <= risk_value s ri C P A nb ma fl fd rh ir <= 1)%R.
Proof.
  intros Hwf HC HP. unfold risk_value, integ_val.
  rewrite (wf_t s Hwf).
  destruct (breach_current C HC) as [Hni HniC].
  destruct (breach_projection P ltac:(lia)) as [Hns HnsP].
  set (ni := breach fltb _ _ _) in *.
  set (ns := breach fleb _ _ _) in *.
  apply band_sum_range.
  - intros k. now apply incidence_nonneg.
  - intros k. now apply rmu_of_nonneg.
  - rewrite at_age by lia. apply IZR_sub_nonneg. lia.
  - intros j Hj. rewrite wd_age by lia. lra.
  - apply IZR_le. lia.
  - rewrite at_age by lia.
    destruct (Z_le_gt_dec P (20 + 5 * ni)) as [H|H].
    + left. now apply IZR_le.
    + right. split; [lia|]. rewrite at_age by lia.
      apply IZR_sub_nonneg. lia.
Qed.

(** ** The value of a call grows with the projection age *)

Lemma entry_unified C P i j :
  20 + 5 * (j - 1) < P -> 1 <= j <= 15 ->
  (spans50 C P = true \/ P <= 50 \/ 50 <= C) ->
  entry age_boundaries (spans50 C P) i j =
  entry age_boundaries (C <? 50) i j.
Proof.
  intros Hj Hj' Hcase. unfold entry, spans50.
  rewrite at_age by lia. rewrite (fleb_IZR 50).
  destruct (Z.ltb_spec C 50), (Z.ltb_spec 50 P),
           (Z.leb_spec 50 (20 + 5 * (j - 1))); simpl; try reflexivity; lia.
Qed.

Theorem risk_value_mono s ri C P1 P2 A nb ma fl fd rh ir :
  wf s -> 20 <= C < 90 -> C < P1 -> P1 <= P2 -> P2 <= 90 ->
  (risk_value s ri C P1 A nb ma fl fd rh ir <=
   risk_value s ri C P2 A nb ma fl fd rh ir)%R.
Proof.
  intros Hwf HC H1 H12 H2. unfold risk_value, integ_val.
  rewrite (wf_t s Hwf).
  destruct (breach_current C HC) as [Hni HniC].
  destruct (breach_projection P1 ltac:(lia)) as [Hns1 HnsP1].
  destruct (breach_projection P2 ltac:(lia)) as [Hns2 HnsP2].
  set (ni := breach fltb _ _ _) in *.
  set (ns1 := breach fleb (IZR P1) _ _) in *.
  set (ns2 := breach fleb (IZR P2) _ _) in *.
  set (i := effective_pattern ri ir A nb ma fl fd).
  set (pe := entry age_boundaries (C <? 50) i).
  assert (Hu : forall P ns,
    20 + 5 * (ns - 1) < P <= 20 + 5 * ns -> 1 <= ns <= 14 ->
    forall l b m,
    band_sum l b m age_boundaries (entry age_boundaries (spans50 C P) i)
      (if spans50 C P then i + 107 else i - 1) (IZR C) (IZR P) ni ns i =
    band_sum l b m age_boundaries pe (pe ns) (IZR C) (IZR P) ni ns i).
  { intros P ns HP Hns l b m. apply band_sum_ext.
    - intros j Hj. apply entry_unified; try lia.
      unfold spans50.
      destruct (Z.ltb_spec 50 P), (Z.ltb_spec C 50); simpl; auto; lia.
    - intros Hlt. unfold pe, entry, spans50.
      rewrite at_age by lia. rewrite (fleb_IZR 50).
      destruct (Z.ltb_spec C 50), (Z.ltb_spec 50 P),
               (Z.leb_spec 50 (20 + 5 * (ns - 1)));
        simpl; try reflexivity; lia. }
  rewrite (Hu P1 ns1) by assumption.
  rewrite (Hu P2 ns2) by assumption.
  apply band_sum_mono.
  - intros k. now apply incidence_nonneg.
  - intros k. now apply rmu_of_nonneg.
  - rewrite at_age by lia. apply IZR_sub_nonneg. lia.
  - intros j Hj. rewrite wd_age by lia. lra.
  - apply IZR_le. lia.
  - apply IZR_le. lia.
  - rewrite at_age by lia.
    destruct (Z_le_gt_dec P1 (20 + 5 * ni)) as [H|H].
    + left. now apply IZR_le.
    + right. split; [lia|]. rewrite !at_age by lia. split.
      * apply IZR_sub_nonneg. lia.
      * apply IZR_le. lia.
  - rewrite at_age by lia.
    destruct (Z_le_gt_dec P2 (20 + 5 * ni)) as [H|H].
    + left. now apply IZR_le.
    + right. split; [lia|]. rewrite at_age by lia.
      apply IZR_sub_nonneg. lia.
  - intros _. lia.
Qed.

(** ** The public methods on a well-formed calculator *)

Lemma wf_after {A} (m : M A) s :
  frame_safe m -> wf s -> shape (snd (m s)) -> wf (snd (m s)).
Proof.
  intros Hm Hwf Hs. destruct (Hm s) as [Ht _].
  now apply (wf_tables s).
Qed.

Lemma clean_biopsy_range eb nb ih :
  (eb = 0 \/ eb = 1 \/ eb = 99) -> (0 <= nb <= 30 \/ nb = 99) ->
  let '(_, n, _) := clean_biopsy_inputs eb nb ih in 0 <= n <= 2.
Proof.
  intros He Hn. unfold clean_biopsy_inputs.
  destruct He as [-> | [-> | ->]]; simpl; try lia.
  destruct Hn as [Hn | ->]; simpl; [|lia].
  destruct (nb =? 99) eqn:E; [lia|].
  destruct (Z.ltb_spec 1 nb), (Z.leb_spec nb 30); simpl; lia.
Qed.

Lemma recoded_relatives_range fd ir :
  (0 <= fd <= 31 \/ fd = 99) -> 0 <= recoded_relatives fd ir <= 2.
Proof.
  intros H. unfold recoded_relatives.
  destruct (Z.eqb_spec fd 0), (Z.eqb_spec fd 99); simpl; try lia.
  destruct (Z.leb_spec 2 fd), (Z.leb_spec fd 31), (Z.ltb_spec ir 7),
           (Z.leb_spec 7 ir); simpl; lia.
Qed.

Lemma run_api s ri C P ma fl fd eb nb ih ir :
  wf s -> 20 <= C < 90 -> 20 < P <= 90 -> 1 <= ir <= 12 ->
  0 <= ma <= 2 -> 0 <= fl <= 3 ->
  (eb = 0 \/ eb = 1 \/ eb = 99) -> (0 <= nb <= 30 \/ nb = 99) ->
  (0 <= fd <= 31 \/ fd = 99) ->
  exists s',
    _calculate_risk_api ri C P ma fl fd eb nb ih ir s =
      (Ok (api_value create_calculator ri C P ma fl fd eb nb ih ir), s') /\
    wf s'.
Proof.
  intros Hwf HC HP Hir Hma Hfl Heb Hnb Hfd.
  pose proof (fs_calculate_risk_api ri C P ma fl fd eb nb ih ir) as Hfs.
  pose proof (wf_after _ s Hfs Hwf) as Hafter.
  unfold _calculate_risk_api, api_value in *.
  pose proof (clean_biopsy_range eb nb ih Heb Hnb) as Hn.
  destruct (clean_biopsy_inputs eb nb ih) as [[e n] h].
  fold (recoded_relatives fd ir) in *. fold (hyperplasia_multiplier h) in *.
  pose proof (recoded_relatives_range fd ir Hfd) as Hr.
  set (A := if 50 <=? C then 1 else 0) in *.
  assert (HA : 0 <= A <= 1) by (unfold A; destruct (50 <=? C); lia).
  destruct (effective_pattern_range ri ir A n ma fl (recoded_relatives fd ir)
              HA Hma Hn Hfl Hr) as [Hi Hi0].
  destruct (run_calculate_risk s ri C P A n ma fl e
              (recoded_relatives fd ir) h (hyperplasia_multiplier h) ir
              Hwf Hir HC HP Hi) as (s' & Hrun & Hs' & _).
  { intros Hsp. apply Hi0. unfold A, spans50 in *.
    destruct (Z.leb_spec 50 C), (Z.ltb_spec C 50); try reflexivity; try lia.
    all: now rewrite andb_false_r in Hsp. }
  exists s'. rewrite Hrun in *. split.
  - now rewrite (risk_value_wf s).
  - apply Hafter. exact Hs'.
Qed.

Lemma validate_true p :
  validate p = true ->
  20 <= current_age p <= 85 /\ current_age p < projection_age p <= 90.
Proof.
  unfold validate.
  destruct (Z.leb_spec 20 (current_age p)), (Z.leb_spec (current_age p) 85),
           (Z.leb_spec (projection_age p) (current_age p)),
           (Z.ltb_spec 90 (projection_age p)); simpl; intros; try discriminate;
    lia.
Qed.

Lemma wf_initialized s : wf s -> is_initialized s = true.
Proof. intros H. apply H. Qed.

Lemma run_full s p :
  wf s -> valid_params p ->
  exists s',
    calculate_full_risk p s = (Ok (full_value create_calculator p), s') /\
    wf s'.
Proof.
  intros Hwf (Hv & Hir & Hma & Hfl & Heb & Hnb & Hfd).
  destruct (validate_true p Hv) as [HC HP].
  unfold calculate_full_risk. rewrite Hv. change (negb true) with false. cbv iota.
  destruct (run_api s ABSOLUTE (current_age p) (projection_age p)
              (menarche_age p) (first_live_birth_age p)
              (first_deg_relatives p) (ever_had_biopsy p)
              (number_of_biopsy p) (hyperplasia p) (race p) Hwf
              ltac:(lia) ltac:(lia) Hir Hma Hfl Heb Hnb Hfd)
    as (s1 & Hrun1 & Hwf1).
  destruct (run_api s1 AVERAGE (current_age p) (projection_age p)
              (menarche_age p) (first_live_birth_age p)
              (first_deg_relatives p) (ever_had_biopsy p)
              (number_of_biopsy p) (hyperplasia p) (race p) Hwf1
              ltac:(lia) ltac:(lia) Hir Hma Hfl Heb Hnb Hfd)
    as (s2 & Hrun2 & Hwf2).
  exists s2. split; [|exact Hwf2].
  erewrite run_bind; cycle 1.
  { unfold calculate_absolute_risk. rewrite (wf_initialized s Hwf).
    change (negb true) with false. cbv iota. exact Hrun1. }
  erewrite run_bind; cycle 1.
  { unfold calculate_average_risk. rewrite (wf_initialized s1 Hwf1).
    change (negb true) with false. cbv iota. exact Hrun2. }
  reflexivity.
Qed.

(** ** The design vector of a pattern *)

Lemma design_get k :
  1 <= k <= 216 -> Py.get design (k - 1) = Some (design_row k).
Proof.
  intros H. rewrite (get_in _ _ []) by (rewrite design_length; lia).
  now rewrite design_nth.
Qed.

Lemma range_forallb (P : Z -> bool) lo hi :
  forallb P (Py.range lo hi) = true -> forall k, lo <= k < hi -> P k = true.
Proof.
  intros H k Hk. rewrite forallb_forall in H. apply H. now apply in_range.
Qed.

Lemma pattern_index_decode k :
  1 <= k <= 216 ->
  let '(a, m, b, f, r) := block_decode k in pattern_index a m b f r = k.
Proof.
  intros H.
  assert (Hb := range_forallb
    (fun k => let '(a, m, b, f, r) := block_decode k in
              pattern_index a m b f r =? k) 1 217 ltac:(vm_compute; reflexivity)
    k ltac:(lia)).
  cbv beta in Hb.
  destruct (block_decode k) as [[[[a m] b] f] r]. now apply Z.eqb_eq.
Qed.

(** C1, as stated, fails: position 6 of pattern 49 (menarche 1, one
    biopsy, age indicator 0) is not menarche x biopsyCount. *)
Lemma design_position6_counterexample :
  ~ (exists X row,
       build_r8iTox2 NumCovPattInGailModel = Some X /\
       Py.get X (49 - 1) = Some row /\
       firstn 8 row = design_vector_spec 49).
Proof.
  intros (X & row & HX & Hrow & Heq).
  rewrite build_design, <- design_eq in HX.
  assert (X = design) by congruence. subst X. clear HX.
  rewrite (design_get 49) in Hrow by lia.
  assert (row = design_row 49) by congruence. subst row. clear Hrow.
  unfold design_row, design_vector_spec, block_decode in Heq.
  cbn [firstn] in Heq.
  change ((49 - 1) / 108) with 0 in Heq.
  change ((49 - 1) mod 108 / 36) with 1 in Heq.
  change ((49 - 1) mod 36 / 12) with 1 in Heq.
  assert (H6 : (0 * 1 = 1 * 1)%R) by congruence.
  lra.
Qed.

(** C1 (amended): for every pattern index k in [1,216] the design vector
    used for sumb[k] is {1, ageIndicator, menarche, biopsyCount,
    firstBirth, relatives, ageIndicator x biopsyCount,
    firstBirth x relatives}, the categories being the block decomposition
    of k; sumb[k] is the dot product of the coefficients with it. *)
Theorem design_vector_of_pattern k :
  1 <= k <= 216 ->
  let '(a, m, b, f, r) := block_decode k in
  pattern_index a m b f r = k /\
  exists X row,
    build_r8iTox2 NumCovPattInGailModel = Some X /\
    Py.get X (k - 1) = Some row /\
    firstn 8 row =
      [1; IZR a; IZR m; IZR b; IZR f; IZR r;
       IZR a * IZR b; IZR f * IZR r]%R /\
    forall s, shape s ->
      exists s',
        compute_sumb NumCovPattInGailModel X s = (Ok tt, s') /\
        at_ (sumb s') (k - 1) =
          fold_left (fun acc j => (acc + at_ (bet s) j * at_ row j)%R)
                    (Py.range 0 8) 0%R.
Proof.
  intros H. pose proof (pattern_index_decode k H) as Hp.
  pose proof (design_get k H) as Hg.
  pose proof (design_nth k H) as Hn.
  unfold design_row in *.
  destruct (block_decode k) as [[[[a m] b] f] r].
  split; [exact Hp|].
  exists design. eexists. split; [|split; [exact Hg|split; [reflexivity|]]].
  - now rewrite build_design, design_eq.
  - intros s Hs. eexists. split.
    + apply run_compute_sumb;
        [exact Hs|apply design_length|apply design_rows].
    + cbn [sumb with_vec]. unfold sumb_of. rewrite at_tabulate by lia.
      unfold dot8, at2. now rewrite Hn.
Qed.

Lemma design_vector_of_pattern_witness :
  1 <= 49 <= 216 /\
  pattern_index 0 1 1 0 0 = 49 /\
  exists X row,
    build_r8iTox2 NumCovPattInGailModel = Some X /\
    Py.get X (49 - 1) = Some row /\
    firstn 8 row = [1; 0; 1; 1; 0; 0; 0 * 1; 0 * 0]%R /\
    forall s, shape s ->
      exists s',
        compute_sumb NumCovPattInGailModel X s = (Ok tt, s') /\
        at_ (sumb s') (49 - 1) =
          fold_left (fun acc j => (acc + at_ (bet s) j * at_ row j)%R)
                    (Py.range 0 8) 0%R.
Proof.
  split; [lia|]. apply (design_vector_of_pattern 49). lia.
Defined.

(** ** The hyperplasia adjustment *)

Lemma ln_182_pos : (0 < ln 1.82)%R.
Proof. rewrite <- ln_1. apply ln_increasing; lra. Qed.

(** C2, as stated, fails for an index above 108: with i = 109 the mirror
    entry (index 1, offset 0) does not receive log(rhyp). *)
Lemma mirror_adjustment_counterexample :
  exists s',
    adjust_hyperplasia 109 1.82 create_calculator = (Ok tt, s') /\
    at_ (sumbb s') (109 - 108 - 1) <>
    (at_ (sumbb create_calculator) (109 - 108 - 1) + ln 1.82)%R.
Proof.
  eexists. split.
  - apply run_adjust_hyperplasia; [apply shape_create|lia].
  - cbn [sumbb with_vec]. fold (sumbb create_calculator).
    unfold adjusted. change (109 <=? 108) with false. cbv iota.
    rewrite at_upd_neq by lia. pose proof ln_182_pos. lra.
Qed.

(** C2 (amended): the adjustment adds log(rhyp) to the predictor entry of
    the pattern index i and, only when i <= 108, to its mirror i + 108;
    for i > 108 the entry of i alone changes.  No other entry and no other
    array is changed. *)
Theorem hyperplasia_adjustment s i rhyp :
  shape s -> 1 <= i <= 216 ->
  exists s',
    adjust_hyperplasia i rhyp s = (Ok tt, s') /\
    s' = with_vec Sumbb (sumbb s') s /\
    at_ (sumbb s') (i - 1) = (at_ (sumbb s) (i - 1) + ln rhyp)%R /\
    (i <= 108 ->
     at_ (sumbb s') (i + 107) = (at_ (sumbb s) (i + 107) + ln rhyp)%R) /\
    (108 < i -> at_ (sumbb s') (i - 109) = at_ (sumbb s) (i - 109)) /\
    (forall j, 0 <= j < 216 -> j <> i - 1 -> (i <= 108 -> j <> i + 107) ->
               at_ (sumbb s') j = at_ (sumbb s) j).
Proof.
  intros Hs Hi. eexists. split; [now apply run_adjust_hyperplasia|].
  assert (Hl := shape_vec s Sumbb Hs). cbn [vec_of len_of] in Hl.
  set (l' := adjusted (sumbb s) i rhyp).
  change (sumbb (with_vec Sumbb l' s)) with l'.
  split; [reflexivity|]. unfold l', adjusted. clear l'.
  destruct (Z.leb_spec i 108) as [Hle|Hgt].
  - repeat split.
    + rewrite at_upd_neq by lia. apply at_upd_eq. lia.
    + intros _. rewrite at_upd_eq by (rewrite upd_length; lia).
      now rewrite at_upd_neq by lia.
    + lia.
    + intros j Hj H1 H2. specialize (H2 Hle).
      now rewrite !at_upd_neq by lia.
  - repeat split.
    + apply at_upd_eq. lia.
    + lia.
    + intros _. apply at_upd_neq; lia.
    + intros j Hj H1 _. apply at_upd_neq; lia.
Qed.

Lemma hyperplasia_adjustment_witness :
  shape create_calculator /\ 1 <= 109 <= 216 /\
  exists s',
    adjust_hyperplasia 109 1.82 create_calculator = (Ok tt, s') /\
    s' = with_vec Sumbb (sumbb s') create_calculator /\
    at_ (sumbb s') (109 - 1) =
      (at_ (sumbb create_calculator) (109 - 1) + ln 1.82)%R /\
    (109 <= 108 ->
     at_ (sumbb s') (109 + 107) =
       (at_ (sumbb create_calculator) (109 + 107) + ln 1.82)%R) /\
    (108 < 109 ->
     at_ (sumbb s') (109 - 109) = at_ (sumbb create_calculator) (109 - 109)) /\
    (forall j, 0 <= j < 216 -> j <> 109 - 1 ->
               (109 <= 108 -> j <> 109 + 107) ->
               at_ (sumbb s') j = at_ (sumbb create_calculator) j).
Proof.
  split; [apply shape_create|]. split; [lia|].
  apply (hyperplasia_adjustment create_calculator 109 1.82);
    [apply shape_create|lia].
Defined.

(** ** Biopsy cleaning *)

(** C9, as stated, fails: a count in (1,30] is not mapped to category 2
    for every input triple.  For a woman who never had a biopsy, with a
    count of 5, the count is first set to 0 and stays 0; the same happens
    when ever-had-biopsy is unknown, as for (99, 30, 0). *)
Lemma clean_biopsy_count_counterexample :
  clean_biopsy_inputs 0 5 1 = (0, 0, 99) /\
  clean_biopsy_inputs 99 30 0 = (0, 0, 99) /\
  ~ (forall e n h : Z,
       1 < n <= 30 ->
       let '(_, n', _) := clean_biopsy_inputs e n h in n' = 2).
Proof.
  split; [reflexivity|]. split; [reflexivity|].
  intros H. specialize (H 0 5 1 ltac:(lia)).
  change (clean_biopsy_inputs 0 5 1) with (0, 0, 99) in H.
  cbv iota beta in H. discriminate H.
Qed.

(** C9 (amended): unknown ever-had-biopsy becomes no; had biopsy with
    unknown count gives count 1; never had biopsy, after that cleaning,
    gives count 0; a count in (1,30] gives category 2 when the cleaned
    ever-had-biopsy is not no; hyperplasia is forced to unknown whenever
    the cleaned ever-had-biopsy is no, and is kept otherwise. *)
Theorem clean_biopsy_inputs_spec (e n h : Z) :
  let '(e', n', h') := clean_biopsy_inputs e n h in
  (e = 99 -> e' = 0) /\
  (e <> 99 -> e' = e) /\
  (e = 1 -> n = 99 -> n' = 1) /\
  (e' = 0 -> n' = 0) /\
  (e' <> 0 -> 1 < n <= 30 -> n' = 2) /\
  (e' = 0 -> h' = 99) /\
  (e' <> 0 -> h' = h).
Proof.
  unfold clean_biopsy_inputs.
  destruct (Z.eqb_spec e 99) as [-> | He99].
  - simpl. repeat split; intros; try reflexivity; lia.
  - destruct (Z.eqb_spec e 1) as [-> | He1].
    + simpl. destruct (Z.eqb_spec n 99) as [-> | Hn].
      * simpl. repeat split; intros; try reflexivity; lia.
      * destruct (Z.ltb_spec 1 n), (Z.leb_spec n 30); simpl;
          repeat split; intros; try reflexivity; lia.
    + simpl. destruct (Z.eqb_spec e 0) as [-> | He0].
      * simpl. repeat split; intros; try reflexivity; lia.
      * destruct (Z.ltb_spec 1 n), (Z.leb_spec n 30); simpl;
          repeat split; intros; try reflexivity; lia.
Qed.

(** ** The initialisation guard *)

Lemma tables_initialized s s' :
  tables s' = tables s -> is_initialized s' = is_initialized s.
Proof. unfold tables. intros H. now injection H. Qed.

Lemma guarded_frame_safe {A} (m : M A) : frame_safe m -> guarded m.
Proof.
  intros H s _. destruct (H s) as [Ht He]. split; [exact Ht|].
  intros E. specialize (He _ E). discriminate.
Qed.

Lemma guarded_bind {A B} (m : M A) (f : A -> M B) :
  guarded m -> (forall a, guarded (f a)) -> guarded (bind m f).
Proof.
  intros Hm Hf s Hi. unfold bind. destruct (Hm s Hi) as [Ht He].
  destruct (m s) as [[a|e] s1]; simpl in *.
  - assert (Hi1 : is_initialized s1 = true)
      by now rewrite (tables_initialized s s1 Ht).
    destruct (Hf a s1 Hi1) as [Ht' He']. split; [congruence|exact He'].
  - split; [exact Ht|]. intros E. apply He. congruence.
Qed.

Lemma guarded_absolute C P ma fl fd eb nb ih ir :
  guarded (calculate_absolute_risk C P ma fl fd eb nb ih ir).
Proof.
  intros s Hi. unfold calculate_absolute_risk. rewrite Hi.
  change (negb true) with false. cbv iota.
  apply (guarded_frame_safe _ (fs_calculate_risk_api _ _ _ _ _ _ _ _ _ _)).
  exact Hi.
Qed.

Lemma guarded_average C P ma fl fd eb nb ih ir :
  guarded (calculate_average_risk C P ma fl fd eb nb ih ir).
Proof.
  intros s Hi. unfold calculate_average_risk. rewrite Hi.
  change (negb true) with false. cbv iota.
  apply (guarded_frame_safe _ (fs_calculate_risk_api _ _ _ _ _ _ _ _ _ _)).
  exact Hi.
Qed.

Lemma guarded_full p : guarded (calculate_full_risk p).
Proof.
  unfold calculate_full_risk. destruct (negb (validate p)).
  - intros s _. split; [reflexivity|discriminate].
  - apply guarded_bind; [apply guarded_absolute|intros a].
    apply guarded_bind; [apply guarded_average|intros v].
    intros s _. split; [reflexivity|discriminate].
Qed.

(** C10, as stated, fails for [calculate_full_risk]: the parameters are
    validated before the flag is looked at, so invalid parameters on a
    fresh instance raise [ValueError], not [RuntimeError]. *)
Lemma full_risk_uninitialized_counterexample :
  is_initialized __init__ = false /\
  calculate_full_risk (mkParams 10 15 0 0 0 99 99 99 1) __init__ =
    (Raise ValueError, __init__) /\
  fst (calculate_full_risk (mkParams 10 15 0 0 0 99 99 99 1) __init__) <>
    Raise RuntimeError.
Proof.
  split; [reflexivity|]. split; [reflexivity|]. discriminate.
Qed.

(** C10 (amended): before [initialize], [calculate_absolute_risk] and
    [calculate_average_risk] raise [RuntimeError] for all arguments, and
    [calculate_full_risk] does so for parameters that pass [validate]
    (the others raise [ValueError]); no risk value is produced and the
    instance is left as it was.  [initialize] sets the flag; while it is
    set none of the three methods raises [RuntimeError], and it stays
    set. *)
Theorem initialization_guard :
  (forall s C P ma fl fd eb nb ih ir,
     is_initialized s = false ->
     calculate_absolute_risk C P ma fl fd eb nb ih ir s =
       (Raise RuntimeError, s) /\
     calculate_average_risk C P ma fl fd eb nb ih ir s =
       (Raise RuntimeError, s)) /\
  (forall s p,
     is_initialized s = false -> validate p = true ->
     calculate_full_risk p s = (Raise RuntimeError, s)) /\
  (forall s p,
     validate p = false -> calculate_full_risk p s = (Raise ValueError, s)) /\
  (forall s, is_initialized (initialize s) = true) /\
  (forall s C P ma fl fd eb nb ih ir,
     is_initialized s = true ->
     let a := calculate_absolute_risk C P ma fl fd eb nb ih ir s in
     let v := calculate_average_risk C P ma fl fd eb nb ih ir s in
     fst a <> Raise RuntimeError /\ is_initialized (snd a) = true /\
     fst v <> Raise RuntimeError /\ is_initialized (snd v) = true) /\
  (forall s p,
     is_initialized s = true ->
     let r := calculate_full_risk p s in
     fst r <> Raise RuntimeError /\ is_initialized (snd r) = true).
Proof.
  repeat split.
  - unfold calculate_absolute_risk. now rewrite H.
  - unfold calculate_average_risk. now rewrite H.
  - intros s p Hi Hv. unfold calculate_full_risk. rewrite Hv.
    change (negb true) with false. cbv iota.
    unfold bind, calculate_absolute_risk. now rewrite Hi.
  - intros s p Hv. unfold calculate_full_risk. now rewrite Hv.
  - apply (guarded_absolute C P ma fl fd eb nb ih ir s H).
  - destruct (guarded_absolute C P ma fl fd eb nb ih ir s H) as [Ht _].
    now rewrite (tables_initialized _ _ Ht).
  - apply (guarded_average C P ma fl fd eb nb ih ir s H).
  - destruct (guarded_average C P ma fl fd eb nb ih ir s H) as [Ht _].
    now rewrite (tables_initialized _ _ Ht).
  - apply (guarded_full p s H).
  - destruct (guarded_full p s H) as [Ht _].
    now rewrite (tables_initialized _ _ Ht).
Qed.

(** ** What a call does to the instance *)

Lemma preserves_absolute C P ma fl fd eb nb ih ir :
  preserves_tables (calculate_absolute_risk C P ma fl fd eb nb ih ir).
Proof.
  intros s. unfold calculate_absolute_risk.
  destruct (negb (is_initialized s)); [reflexivity|].
  apply fs_calculate_risk_api.
Qed.

Lemma preserves_average C P ma fl fd eb nb ih ir :
  preserves_tables (calculate_average_risk C P ma fl fd eb nb ih ir).
Proof.
  intros s. unfold calculate_average_risk.
  destruct (negb (is_initialized s)); [reflexivity|].
  apply fs_calculate_risk_api.
Qed.

Lemma preserves_bind {A B} (m : M A) (f : A -> M B) :
  preserves_tables m -> (forall a, preserves_tables (f a)) ->
  preserves_tables (bind m f).
Proof.
  intros Hm Hf s. unfold bind. specialize (Hm s).
  destruct (m s) as [[a|e] s1]; simpl in *; [|exact Hm].
  rewrite (Hf a s1). exact Hm.
Qed.

Lemma preserves_full p : preserves_tables (calculate_full_risk p).
Proof.
  unfold calculate_full_risk. destruct (negb (validate p)).
  - intros s. reflexivity.
  - apply preserves_bind; [apply preserves_absolute|intros a].
    apply preserves_bind; [apply preserves_average|intros v].
    intros s. reflexivity.
Qed.

Lemma range_0_8 : Py.range 0 8 = [0; 1; 2; 3; 4; 5; 6; 7].
Proof. reflexivity. Qed.

(** The raw predictor of pattern 1 is the intercept. *)
Lemma dot8_pattern1 b : dot8 b design 0 = at_ b 0.
Proof.
  unfold dot8, at2. change (Z.to_nat 0) with (Z.to_nat (1 - 1)).
  rewrite (design_nth 1) by lia. rewrite range_0_8.
  unfold design_row, block_decode.
  change ((1 - 1) / 108) with 0. change ((1 - 1) mod 108 / 36) with 0.
  change ((1 - 1) mod 36 / 12) with 0. change ((1 - 1) mod 12 / 3) with 0.
  change ((1 - 1) mod 3) with 0. cbv beta iota zeta.
  unfold fold_left, at_ at 2 4 6 8 10 12 14 16.
  change (Z.to_nat (1 - 1)) with 0%nat. change (Z.to_nat 0) with 0%nat.
  change (Z.to_nat 1) with 1%nat. change (Z.to_nat 2) with 2%nat.
  change (Z.to_nat 3) with 3%nat. change (Z.to_nat 4) with 4%nat.
  change (Z.to_nat 5) with 5%nat. change (Z.to_nat 6) with 6%nat.
  change (Z.to_nat 7) with 7%nat. cbn [nth]. ring.
Qed.

Lemma at_eq_of_eq (l l' : list R) j : l = l' -> at_ l j = at_ l' j.
Proof. now intros ->. Qed.

(** C6, as stated, fails: the adjustment is written to the instance's own
    predictor array.  After one call with hyperplasia on pattern 1 the
    array [sumbb] of the instance holds log(1.82) at offset 0, where it
    held 0 before the call. *)
Lemma shared_predictor_counterexample :
  exists r s',
    calculate_absolute_risk 35 40 0 0 0 1 0 1 1 create_calculator =
      (Ok r, s') /\
    sumbb s' <> sumbb create_calculator.
Proof.
  destruct (run_calculate_risk create_calculator ABSOLUTE 35 40 0 0 0 0 1 0 1
              1.82%R 1 wf_create ltac:(lia) ltac:(lia) ltac:(lia)
              ltac:(vm_compute; split; discriminate)
              ltac:(intros _; vm_compute; discriminate))
    as (s' & Hrun & _ & _ & _ & Hsb & _).
  exists (risk_value create_calculator ABSOLUTE 35 40 0 0 0 0 0 1.82%R 1), s'.
  split; [exact Hrun|].
  intros E. apply (at_eq_of_eq _ _ 0) in E. rewrite Hsb in E.
  change (at_ (sumbb create_calculator) 0) with 0%R in E.
  unfold predictor, effective_rhyp in E.
  change (effective_pattern ABSOLUTE 1 0 0 0 0 0) with 1 in E.
  change (2 <=? ABSOLUTE) with false in E. cbv iota in E.
  unfold adjusted in E. change (1 <=? 108) with true in E. cbv iota in E.
  change (1 - 1) with 0 in E. change (1 + 107) with 108 in E.
  rewrite at_upd_neq in E by lia.
  rewrite at_upd_eq in E
    by (unfold sumbb_of; rewrite tabulate_length; lia).
  unfold sumbb_of, sumb_of in E. rewrite !at_tabulate in E by lia.
  change (0 <? 108) with true in E. cbv iota in E.
  rewrite dot8_pattern1 in E. pose proof ln_182_pos. lra.
Qed.

(** C6 (amended): no call of a public method mutates the race-indexed
    tables [bet2], [rf2], [rlan2], [rmu2], the age boundaries [t] or the
    flag [is_initialized], whatever the arguments and the outcome.  (The
    working arrays, the predictor [sumbb] among them, are instance
    attributes that a call overwrites in place.) *)
Theorem calls_preserve_tables :
  (forall C P ma fl fd eb nb ih ir s,
     tables (snd (calculate_absolute_risk C P ma fl fd eb nb ih ir s)) =
     tables s) /\
  (forall C P ma fl fd eb nb ih ir s,
     tables (snd (calculate_average_risk C P ma fl fd eb nb ih ir s)) =
     tables s) /\
  (forall p s, tables (snd (calculate_full_risk p s)) = tables s) /\
  (forall ri C P A nb ma fl eb fd ih rh ir s,
     tables (snd (_calculate_risk ri C P A nb ma fl eb fd ih rh ir s)) =
     tables s).
Proof.
  repeat split.
  - intros. apply preserves_absolute.
  - intros. apply preserves_average.
  - intros. apply preserves_full.
  - intros. apply fs_calculate_risk.
Qed.

(** ** The risk of a valid query *)

Lemma run_valid_query s ri C P A nb ma fl eb fd ih rh ir :
  wf s -> 20 <= C <= 85 -> C < P <= 90 -> 1 <= ir <= 12 ->
  A = (if 50 <=? C then 1 else 0) ->
  0 <= ma <= 2 -> 0 <= nb <= 2 -> 0 <= fl <= 3 -> 0 <= fd <= 2 ->
  exists s',
    _calculate_risk ri C P A nb ma fl eb fd ih rh ir s =
      (Ok (risk_value create_calculator ri C P A nb ma fl fd rh ir), s').
Proof.
  intros Hwf HC HP Hir HA Hma Hnb Hfl Hfd.
  assert (HA' : 0 <= A <= 1) by (subst A; destruct (50 <=? C); lia).
  destruct (effective_pattern_range ri ir A nb ma fl fd HA' Hma Hnb Hfl Hfd)
    as [Hi Hi0].
  destruct (run_calculate_risk s ri C P A nb ma fl eb fd ih rh ir
              Hwf Hir ltac:(lia) ltac:(lia) Hi) as (s' & Hrun & _).
  { intros Hsp. apply Hi0. subst A. unfold spans50 in Hsp.
    apply andb_true_iff in Hsp. destruct Hsp as [_ Hc].
    apply Z.ltb_lt in Hc. destruct (Z.leb_spec 50 C); [lia|reflexivity]. }
  exists s'. now rewrite <- (risk_value_wf s).
Qed.

(** C3: for every valid query the absolute risk and the average risk that
    [_calculate_risk] returns lie in [0,1]. *)
Theorem risk_is_probability s C P A nb ma fl eb fd ih rh ir :
  wf s -> 20 <= C <= 85 -> C < P <= 90 -> 1 <= ir <= 12 ->
  A = (if 50 <=? C then 1 else 0) ->
  0 <= ma <= 2 -> 0 <= nb <= 2 -> 0 <= fl <= 3 -> 0 <= fd <= 2 ->
  exists a v sa sv,
    _calculate_risk ABSOLUTE C P A nb ma fl eb fd ih rh ir s = (Ok a, sa) /\
    _calculate_risk AVERAGE C P A nb ma fl eb fd ih rh ir s = (Ok v, sv) /\
    (0 <= a <= 1)%R /\ (0 <= v <= 1)%R.
Proof.
  intros Hwf HC HP Hir HA Hma Hnb Hfl Hfd.
  destruct (run_valid_query s ABSOLUTE C P A nb ma fl eb fd ih rh ir
              Hwf HC HP Hir HA Hma Hnb Hfl Hfd) as (sa & Ha).
  destruct (run_valid_query s AVERAGE C P A nb ma fl eb fd ih rh ir
              Hwf HC HP Hir HA Hma Hnb Hfl Hfd) as (sv & Hv).
  do 4 eexists. split; [exact Ha|]. split; [exact Hv|].
  split; apply risk_value_range; try apply wf_create; lia.
Qed.

Lemma risk_is_probability_witness :
  wf create_calculator /\ 20 <= 35 <= 85 /\ 35 < 40 <= 90 /\ 1 <= 1 <= 12 /\
  0 = (if 50 <=? 35 then 1 else 0) /\
  0 <= 2 <= 2 /\ 0 <= 1 <= 2 /\ 0 <= 0 <= 3 /\ 0 <= 0 <= 2 /\
  exists a v sa sv,
    _calculate_risk ABSOLUTE 35 40 0 1 2 0 1 0 1 1.82%R 1 create_calculator =
      (Ok a, sa) /\
    _calculate_risk AVERAGE 35 40 0 1 2 0 1 0 1 1.82%R 1 create_calculator =
      (Ok v, sv) /\
    (0 <= a <= 1)%R /\ (0 <= v <= 1)%R.
Proof.
  split; [exact wf_create|]. repeat (split; [lia || reflexivity|]).
  apply (risk_is_probability create_calculator 35 40 0 1 2 0 1 0 1 1.82%R 1);
    try exact wf_create; try lia; reflexivity.
Defined.

(** C4: with the current age, the race and the recoded categories fixed,
    the absolute risk does not decrease when the projection age grows. *)
Theorem absolute_risk_monotone s s' C P1 P2 A nb ma fl eb fd ih rh ir :
  wf s -> wf s' -> 20 <= C <= 85 -> C < P1 -> P1 <= P2 -> P2 <= 90 ->
  1 <= ir <= 12 -> A = (if 50 <=? C then 1 else 0) ->
  0 <= ma <= 2 -> 0 <= nb <= 2 -> 0 <= fl <= 3 -> 0 <= fd <= 2 ->
  exists r1 r2 s1 s2,
    _calculate_risk ABSOLUTE C P1 A nb ma fl eb fd ih rh ir s = (Ok r1, s1) /\
    _calculate_risk ABSOLUTE C P2 A nb ma fl eb fd ih rh ir s' = (Ok r2, s2) /\
    (r1 <= r2)%R.
Proof.
  intros Hwf Hwf' HC H1 H12 H2 Hir HA Hma Hnb Hfl Hfd.
  destruct (run_valid_query s ABSOLUTE C P1 A nb ma fl eb fd ih rh ir
              Hwf HC ltac:(lia) Hir HA Hma Hnb Hfl Hfd) as (s1 & Hr1).
  destruct (run_valid_query s' ABSOLUTE C P2 A nb ma fl eb fd ih rh ir
              Hwf' HC ltac:(lia) Hir HA Hma Hnb Hfl Hfd) as (s2 & Hr2).
  do 4 eexists. split; [exact Hr1|]. split; [exact Hr2|].
  apply risk_value_mono; try apply wf_create; lia.
Qed.

Lemma absolute_risk_monotone_witness :
  wf create_calculator /\ wf create_calculator /\
  20 <= 45 <= 85 /\ 45 < 50 /\ 50 <= 60 /\ 60 <= 90 /\ 1 <= 1 <= 12 /\
  0 = (if 50 <=? 45 then 1 else 0) /\
  0 <= 2 <= 2 /\ 0 <= 1 <= 2 /\ 0 <= 0 <= 3 /\ 0 <= 0 <= 2 /\
  exists r1 r2 s1 s2,
    _calculate_risk ABSOLUTE 45 50 0 1 2 0 1 0 1 1.82%R 1 create_calculator =
      (Ok r1, s1) /\
    _calculate_risk ABSOLUTE 45 60 0 1 2 0 1 0 1 1.82%R 1 create_calculator =
      (Ok r2, s2) /\
    (r1 <= r2)%R.
Proof.
  split; [exact wf_create|]. split; [exact wf_create|].
  repeat (split; [lia || reflexivity|]).
  apply (absolute_risk_monotone create_calculator create_calculator
           45 50 60 0 1 2 0 1 0 1 1.82%R 1);
    try exact wf_create; try lia; reflexivity.
Defined.

(** ** Repeated calls and the relative risk *)

(** C7: on an initialised calculator, two successive calls of
    [calculate_full_risk] with the same valid parameters return the same
    result, although the first call has overwritten the working arrays. *)
Theorem repeated_call_identical s p :
  wf s -> valid_params p ->
  exists res s1 s2,
    calculate_full_risk p s = (Ok res, s1) /\
    calculate_full_risk p s1 = (Ok res, s2).
Proof.
  intros Hwf Hp.
  destruct (run_full s p Hwf Hp) as (s1 & Hr1 & Hwf1).
  destruct (run_full s1 p Hwf1 Hp) as (s2 & Hr2 & _).
  now exists (full_value create_calculator p), s1, s2.
Qed.

Lemma valid_params_example : valid_params (mkParams 35 40 2 0 0 1 1 1 1).
Proof.
  unfold valid_params. cbn. repeat split; try lia; auto.
Defined.

Lemma repeated_call_identical_witness :
  wf create_calculator /\ valid_params (mkParams 35 40 2 0 0 1 1 1 1) /\
  exists res s1 s2,
    calculate_full_risk (mkParams 35 40 2 0 0 1 1 1 1) create_calculator =
      (Ok res, s1) /\
    calculate_full_risk (mkParams 35 40 2 0 0 1 1 1 1) s1 = (Ok res, s2).
Proof.
  split; [exact wf_create|]. split; [exact valid_params_example|].
  apply (repeated_call_identical create_calculator);
    [exact wf_create|exact valid_params_example].
Defined.

(** C8: for every valid query the relative risk returned by
    [calculate_full_risk] is the returned absolute risk divided by the
    returned average risk when the latter is positive, and 0 when it
    is 0. *)
Theorem relative_risk_is_ratio s p :
  wf s -> valid_params p ->
  exists res s',
    calculate_full_risk p s = (Ok res, s') /\
    ((0 < average_risk res)%R ->
     relative_risk res = (absolute_risk res / average_risk res)%R) /\
    (average_risk res = 0%R -> relative_risk res = 0%R).
Proof.
  intros Hwf Hp. destruct (run_full s p Hwf Hp) as (s' & Hr & _).
  exists (full_value create_calculator p), s'. split; [exact Hr|].
  unfold full_value. cbn [average_risk relative_risk absolute_risk].
  unfold fltb. split.
  - intros H. destruct (Rlt_dec 0 _) as [_|Hn]; [reflexivity|contradiction].
  - intros H. destruct (Rlt_dec 0 _) as [Hlt|_]; lra.
Qed.

Lemma relative_risk_is_ratio_witness :
  wf create_calculator /\ valid_params (mkParams 35 40 2 0 0 1 1 1 1) /\
  exists res s',
    calculate_full_risk (mkParams 35 40 2 0 0 1 1 1 1) create_calculator =
      (Ok res, s') /\
    ((0 < average_risk res)%R ->
     relative_risk res = (absolute_risk res / average_risk res)%R) /\
    (average_risk res = 0%R -> relative_risk res = 0%R).
Proof.
  split; [exact wf_create|]. split; [exact valid_params_example|].
  apply (relative_risk_is_ratio create_calculator);
    [exact wf_create|exact valid_params_example].
Defined.

(** ** The pattern index and the array bounds *)


Lemma bind_raise {A B} (m : M A) (f : A -> M B) s e s' :
  m s = (Raise e, s') -> bind m f s = (Raise e, s').
Proof. intros H. unfold bind. now rewrite H. Qed.







(** * Further properties *)

(** ** The risk is strictly between 0 and 1 *)

Lemma sprod_pos l b m tb pe lo hi r :
  (0 < r)%R -> (0 < sprod l b m tb pe lo hi r)%R.
Proof.
  unfold sprod. generalize (Py.range lo hi) as xs. intros xs. revert r.
  induction xs as [|j xs IH]; intros r Hr; simpl; [exact Hr|].
  apply IH. apply Rmult_lt_0_compat; [exact Hr|]. unfold sv. apply exp_pos.
Qed.

Lemma ev_pos l b m k p w :
  (forall k, 0 <= at_ l k)%R -> (forall k, 0 <= at_ m k)%R ->
  (0 < at_ l k)%R -> (0 < w)%R -> (0 < ev l b m k p w)%R.
Proof.
  intros Hl Hm Hk Hw. unfold ev, shr, oms.
  pose proof (exp_pos (at_ b p)) as He. specialize (Hm k).
  assert (Ha : (0 < at_ l k * exp (at_ b p))%R)
    by now apply Rmult_lt_0_compat.
  assert (Hh : (0 < haz l b m k p)%R) by (unfold haz; lra).
  assert (He1 : (exp (- haz l b m k p * w) < 1)%R).
  { rewrite <- exp_0. apply exp_increasing.
    assert (0 < haz l b m k p * w)%R by now apply Rmult_lt_0_compat.
    lra. }
  unfold Rdiv. rewrite !Rmult_assoc.
  apply Rmult_lt_0_compat; [lra|].
  apply Rmult_lt_0_compat; [exact Hk|].
  apply Rmult_lt_0_compat; [exact He|]. now apply Rinv_0_lt_compat.
Qed.

Lemma band_sum_strict l b m tb pe ni i ti pl ts ns :
  (forall k, 0 <= at_ l k)%R -> (forall k, 0 <= at_ m k)%R ->
  (0 < at_ l (ni - 1))%R ->
  (0 < at_ tb ni - ti)%R ->
  (forall j, ni < j <= 14 -> (0 <= wd tb j)%R) ->
  (ti < ts)%R ->
  ((ts <= at_ tb ni)%R \/
   (ni < ns <= 14 /\ (0 <= ts - at_ tb (ns - 1))%R)) ->
  (0 < band_sum l b m tb pe pl ti ts ni ns i < 1)%R.
Proof.
  intros Hl Hm Hpos Hw0 Hwd Hti Hcase.
  destruct (Rle_dec ts (at_ tb ni)) as [Hs|Hs].
  - rewrite band_sum_single by exact Hs.
    assert (Hw : (0 < ts - ti)%R) by lra.
    pose proof (ev_pos l b m (ni - 1) (i - 1) _ Hl Hm Hpos Hw).
    pose proof (ev_range l b m Hl Hm (ni - 1) (i - 1) (ts - ti)
                  ltac:(lra)) as He.
    pose proof (sv_range l b m Hl Hm (ni - 1) (i - 1) (ts - ti)
                  ltac:(lra)) as Hsv.
    lra.
  - destruct Hcase as [Hc|[Hns Hw]]; [contradiction|].
    rewrite band_sum_multi by (auto; lia).
    destruct (bands_inv l b m Hl Hm tb pe ni i ti ltac:(lra) Hwd ns
                ltac:(lia)) as (H1 & H2 & H3).
    pose proof (ev_pos l b m (ni - 1) (i - 1) _ Hl Hm Hpos Hw0) as Ha0.
    pose proof (ev_range l b m Hl Hm (ns - 1) pl _ Hw) as He.
    pose proof (sv_range l b m Hl Hm (ns - 1) pl _ Hw) as Hsv.
    assert (HPi : (0 < sprod l b m tb pe (ni + 1) ns
                         (sv l b m (ni - 1) (i - 1) (at_ tb ni - ti)))%R).
    { apply sprod_pos. unfold sv. apply exp_pos. }
    set (Pi := sprod l b m tb pe (ni + 1) ns _) in *.
    set (Sg := fold_left _ _ _) in *.
    set (a0 := ev l b m (ni - 1) (i - 1) _) in *.
    set (e := ev l b m (ns - 1) pl _) in *.
    set (sg := sv l b m (ns - 1) pl _) in *.
    split; nra.
Qed.

(** ** The tables are positive *)

Lemma rlan2_pos : pos_table (rlan2 create_calculator).
Proof.
  unfold pos_table.
  cbv [create_calculator initialize rlan2 init_rlan2 __init__ zeros2 zeros
       repeat set_col col Py.upd nth map scale
       rlan2_col0 rlan2_col1 rlan2_col2 rlan2_col3 rlan2_col6 rlan2_col7
       rlan2_col8 rlan2_col9 rlan2_col10 rlan2_col11].
  repeat (apply Forall_cons;
          [repeat (apply Forall_cons; [lra|]); apply Forall_nil|]).
  apply Forall_nil.
Qed.

Lemma rf2_pos : pos_table (rf2 create_calculator).
Proof.
  unfold pos_table.
  cbv [create_calculator initialize rf2 init_rf2 __init__ zeros2 zeros
       repeat upd2 Py.upd nth fold_left seq].
  repeat (apply Forall_cons;
          [repeat (apply Forall_cons; [lra|]); apply Forall_nil|]).
  apply Forall_nil.
Qed.

Lemma at2_pos (m : list (list R)) (c : nat) i j :
  pos_table m -> Forall (fun row => length row = c) m ->
  0 <= i < Z.of_nat (length m) -> 0 <= j < Z.of_nat c ->
  (0 < at2 m i j)%R.
Proof.
  intros Hp Hc Hi Hj. unfold at2, at_.
  assert (Hin : In (nth (Z.to_nat i) m []) m) by (apply nth_In; lia).
  unfold pos_table in Hp. rewrite Forall_forall in Hp, Hc.
  specialize (Hp _ Hin). specialize (Hc _ Hin).
  rewrite Forall_forall in Hp. apply Hp. apply nth_In. lia.
Qed.

Lemma incidence_pos s ri ir k :
  wf s -> 1 <= ir <= 12 -> 0 <= k < 14 ->
  (0 < at_ (incidence s ri ir) k)%R.
Proof.
  intros Hwf Hir Hk. unfold incidence, rlan_scaled.
  rewrite at_tabulate by exact Hk.
  destruct Hwf as (_ & _ & E2 & E3 & _).
  pose proof shape_create as [_ Hm].
  assert (Hc : 0 <= column_index ri ir < 12).
  { unfold column_index. destruct (ri =? 2); simpl; [|lia].
    destruct (Z.ltb_spec ir 7); lia. }
  assert (Hl : (0 < at_ (rlan_of s (column_index ri ir)) k)%R).
  { unfold rlan_of. rewrite at_tabulate by exact Hk. rewrite E3.
    destruct (Hm Rlan2) as [Hr Hcs]. cbn [mat_of] in Hr, Hcs.
    apply (at2_pos _ 12); try apply rlan2_pos; try exact Hcs;
      rewrite ?Hr; simpl; lia. }
  assert (Hf : forall q, 0 <= q < 2 ->
            (0 < at_ (rf_of s ri ir
                        (if (ri =? 2) && (ir <? 7) then 3 else 0)) q)%R).
  { intros q Hq. unfold rf_of. rewrite E2.
    destruct (Hm Rf2) as [Hr Hcs]. cbn [mat_of] in Hr, Hcs.
    assert (Hq' : q = 0 \/ q = 1) by lia.
    assert (Hidx : 0 <= (if (ri =? 2) && (ir <? 7) then 3 else 0) + ir - 1
                   < 13).
    { destruct (ri =? 2); simpl; [|lia]. destruct (Z.ltb_spec ir 7); lia. }
    destruct ((ri =? 2) && (7 <=? ir));
      destruct Hq' as [-> | ->]; unfold at_; cbn [Z.to_nat Pos.to_nat
        Pos.iter_op Nat.add nth];
      apply (at2_pos _ 13); try apply rf2_pos; try exact Hcs;
        rewrite ?Hr; simpl; lia. }
  destruct (k <? 6); apply Rmult_lt_0_compat; auto; apply Hf; lia.
Qed.

Lemma risk_value_strict s ri C P A nb ma fl fd rh ir :
  wf s -> 20 <= C < 90 -> C < P <= 90 -> 1 <= ir <= 12 ->
  (0 < risk_value s ri C P A nb ma fl fd rh ir < 1)%R.
Proof.
  intros Hwf HC HP Hir. unfold risk_value, integ_val.
  rewrite (wf_t s Hwf).
  destruct (breach_current C HC) as [Hni HniC].
  destruct (breach_projection P ltac:(lia)) as [Hns HnsP].
  set (ni := breach fltb _ _ _) in *.
  set (ns := breach fleb _ _ _) in *.
  apply band_sum_strict.
  - intros k. now apply incidence_nonneg.
  - intros k. now apply rmu_of_nonneg.
  - apply incidence_pos; auto; lia.
  - rewrite at_age by lia. rewrite <- minus_IZR. apply IZR_lt. lia.
  - intros j Hj. rewrite wd_age by lia. lra.
  - apply IZR_lt. lia.
  - rewrite at_age by lia.
    destruct (Z_le_gt_dec P (20 + 5 * ni)) as [H|H].
    + left. now apply IZR_le.
    + right. split; [lia|]. rewrite at_age by lia.
      apply IZR_sub_nonneg. lia.
Qed.

(** ** The full result of the engine *)

Lemma api_value_strict s ri C P ma fl fd eb nb ih ir :
  wf s -> 20 <= C < 90 -> C < P <= 90 -> 1 <= ir <= 12 ->
  (0 < api_value s ri C P ma fl fd eb nb ih ir < 1)%R.
Proof.
  intros Hwf HC HP Hir. unfold api_value.
  destruct (clean_biopsy_inputs eb nb ih) as [[e n] h].
  now apply risk_value_strict.
Qed.

Lemma fltb_true x y : (x < y)%R -> fltb x y = true.
Proof. intros H. unfold fltb. destruct (Rlt_dec x y); [reflexivity|lra]. Qed.

Lemma fltb_false x y : (y <= x)%R -> fltb x y = false.
Proof. intros H. unfold fltb. destruct (Rlt_dec x y); [lra|reflexivity]. Qed.

Lemma full_value_strict p :
  valid_params p ->
  let r := full_value create_calculator p in
  (0 < absolute_risk r < 1)%R /\ (0 < average_risk r < 1)%R /\
  relative_risk r = (absolute_risk r / average_risk r)%R.
Proof.
  intros (Hv & Hir & _). destruct (validate_true p Hv) as [HC HP].
  unfold full_value. cbv zeta. cbn [absolute_risk average_risk relative_risk].
  pose proof (api_value_strict create_calculator ABSOLUTE (current_age p)
    (projection_age p) (menarche_age p) (first_live_birth_age p)
    (first_deg_relatives p) (ever_had_biopsy p) (number_of_biopsy p)
    (hyperplasia p) (race p) wf_create ltac:(lia) ltac:(lia) Hir) as Ha.
  pose proof (api_value_strict create_calculator AVERAGE (current_age p)
    (projection_age p) (menarche_age p) (first_live_birth_age p)
    (first_deg_relatives p) (ever_had_biopsy p) (number_of_biopsy p)
    (hyperplasia p) (race p) wf_create ltac:(lia) ltac:(lia) Hir) as Hb.
  split; [exact Ha|]. split; [exact Hb|].
  rewrite fltb_true by apply Hb. reflexivity.
Qed.

(** X1: for valid parameters [calculate_full_risk] returns an absolute and
    an average risk strictly between 0 and 1; the relative risk is their
    quotient and is positive, so the fallback value 0.0 for an average risk
    that is not positive is never returned. *)
Theorem full_risk_strictly_positive s p :
  wf s -> valid_params p ->
  exists r s',
    calculate_full_risk p s = (Ok r, s') /\
    (0 < absolute_risk r < 1)%R /\ (0 < average_risk r < 1)%R /\
    relative_risk r = (absolute_risk r / average_risk r)%R /\
    (0 < relative_risk r)%R.
Proof.
  intros Hwf Hp. destruct (run_full s p Hwf Hp) as (s' & Hrun & _).
  destruct (full_value_strict p Hp) as (Ha & Hv & Hr).
  exists (full_value create_calculator p), s'.
  split; [exact Hrun|]. split; [exact Ha|]. split; [exact Hv|].
  split; [exact Hr|]. rewrite Hr.
  apply Rmult_lt_0_compat; [apply Ha|]. apply Rinv_0_lt_compat, Hv.
Qed.

Lemma full_risk_strictly_positive_witness :
  wf create_calculator /\ valid_params (mkParams 35 40 2 0 0 1 1 1 1) /\
  exists r s',
    calculate_full_risk (mkParams 35 40 2 0 0 1 1 1 1) create_calculator =
      (Ok r, s') /\
    (0 < absolute_risk r < 1)%R /\ (0 < average_risk r < 1)%R /\
    relative_risk r = (absolute_risk r / average_risk r)%R /\
    (0 < relative_risk r)%R.
Proof.
  split; [exact wf_create|]. split; [exact valid_params_example|].
  apply (full_risk_strictly_positive create_calculator
           (mkParams 35 40 2 0 0 1 1 1 1));
    [exact wf_create|exact valid_params_example].
Defined.

(** ** The questionnaire mapper *)

Lemma map_menarche_age_range a : 0 <= map_menarche_age a <= 2.
Proof.
  unfold map_menarche_age.
  destruct (14 <=? a); [lia|]. destruct ((12 <=? a) && (a <=? 13)); lia.
Qed.

Lemma map_first_birth_age_range a c : 0 <= map_first_birth_age a c <= 3.
Proof.
  unfold map_first_birth_age. destruct a as [a|]; [|lia].
  destruct (a <? 20); [lia|]. destruct ((20 <=? a) && (a <? 25)); [lia|].
  destruct ((25 <=? a) && (a <? 30)); lia.
Qed.

Lemma biopsy_codes_range k :
  let c := dict_get biopsy_codes k 99 in c = 0 \/ c = 1 \/ c = 99.
Proof.
  unfold biopsy_codes. cbn [dict_get].
  destruct (String.eqb _ k); [now left|].
  destruct (String.eqb _ k); [now right; left|].
  destruct (String.eqb _ k); now right; right.
Qed.

Lemma map_biopsy_status_range e :
  map_biopsy_status e = 0 \/ map_biopsy_status e = 1 \/
  map_biopsy_status e = 99.
Proof. apply biopsy_codes_range. Qed.

Lemma map_number_of_biopsies_range e n :
  0 <= map_number_of_biopsies e n <= 2 \/ map_number_of_biopsies e n = 99.
Proof.
  unfold map_number_of_biopsies. cbv zeta.
  destruct (map_biopsy_status e =? 0); [left; lia|].
  destruct (map_biopsy_status e =? 99); [now right|].
  destruct n as [n|]; [|left; lia].
  destruct (n =? 1); [left; lia|].
  destruct ((2 <=? n) && (n <=? 30)); [left; lia|now right].
Qed.

Lemma map_relatives_range n r : 0 <= map_relatives n r <= 2.
Proof.
  unfold map_relatives. destruct (n =? 0); [lia|]. destruct (n =? 1); [lia|].
  destruct (2 <=? n); [|lia]. destruct (7 <=? r); lia.
Qed.

Lemma map_race_range r sr : 1 <= r <= 12 -> 1 <= map_race r sr <= 12.
Proof.
  intros H. unfold map_race. destruct sr as [sr|].
  - destruct (Z.leb_spec 7 sr), (Z.leb_spec sr 12); simpl; lia.
  - destruct (r =? 4); lia.
Qed.

Lemma questionnaire_valid_fields (q : Questionnaire.PatientQuestionnaire) :
  20 <= Questionnaire.age q <= 85 ->
  1 <= Questionnaire.race q <= 12 ->
  let p := questionnaire_to_gail_input q in
  validate p = true /\
  (1 <= race p <= 12 /\
   0 <= menarche_age p <= 2 /\ 0 <= first_live_birth_age p <= 3 /\
   (ever_had_biopsy p = 0 \/ ever_had_biopsy p = 1 \/
    ever_had_biopsy p = 99) /\
   (0 <= number_of_biopsy p <= 30 \/ number_of_biopsy p = 99) /\
   (0 <= first_deg_relatives p <= 31 \/ first_deg_relatives p = 99)).
Proof.
  intros Ha Hr. unfold questionnaire_to_gail_input. cbv zeta.
  cbn [current_age projection_age menarche_age first_live_birth_age
       first_deg_relatives ever_had_biopsy number_of_biopsy hyperplasia
       race].
  split.
  { unfold validate. cbn [current_age projection_age].
    destruct (Z.leb_spec 20 (Questionnaire.age q)); [|lia].
    destruct (Z.leb_spec (Questionnaire.age q) 85); [|lia].
    cbn [andb negb].
    destruct (Z.leb_spec (Questionnaire.age q + 5) (Questionnaire.age q));
      [lia|].
    destruct (Z.ltb_spec 90 (Questionnaire.age q + 5)); [lia|reflexivity]. }
  split; [now apply map_race_range|].
  split; [apply map_menarche_age_range|].
  split; [apply map_first_birth_age_range|].
  split; [apply map_biopsy_status_range|].
  split.
  { destruct (map_number_of_biopsies_range
                (Questionnaire.ever_had_biopsy q)
                (Questionnaire.number_of_biopsies q)) as [H | H];
      [left; lia|now right]. }
  left.
  pose proof (map_relatives_range
                (Questionnaire.num_first_degree_relatives q)
                (map_race (Questionnaire.race q)
                          (Questionnaire.sub_race q))).
  lia.
Qed.

(** X2: whatever a questionnaire holds (any texts, any counts, any ages of
    menarche and first birth), provided its age is between 20 and 85 and
    its race code between 1 and 12, the input the mapper builds passes
    [validate] and every category is within the range the engine
    handles. *)
Theorem questionnaire_input_valid (q : Questionnaire.PatientQuestionnaire) :
  20 <= Questionnaire.age q <= 85 ->
  1 <= Questionnaire.race q <= 12 ->
  valid_params (questionnaire_to_gail_input q).
Proof. intros Ha Hr. exact (questionnaire_valid_fields q Ha Hr). Qed.

Lemma questionnaire_input_valid_witness :
  20 <= Questionnaire.age example_questionnaire <= 85 /\
  1 <= Questionnaire.race example_questionnaire <= 12 /\
  valid_params (questionnaire_to_gail_input example_questionnaire).
Proof.
  split; [simpl; lia|]. split; [simpl; lia|].
  apply (questionnaire_input_valid example_questionnaire); simpl; lia.
Defined.

(** ** The service *)

Lemma lifetime_params_valid q :
  20 <= Questionnaire.age q <= 85 ->
  1 <= Questionnaire.race q <= 12 ->
  valid_params (lifetime_params q).
Proof.
  intros Ha Hr.
  destruct (questionnaire_valid_fields q Ha Hr) as (_ & H).
  split; [|exact H].
  unfold validate, lifetime_params, with_projection_age,
    questionnaire_to_gail_input.
  cbn [current_age projection_age].
  destruct (Z.leb_spec 20 (Questionnaire.age q)); [|lia].
  destruct (Z.leb_spec (Questionnaire.age q) 85); [|lia].
  cbn [andb negb].
  destruct (Z.leb_spec (Z.min 90 (Questionnaire.age q + 50))
              (Questionnaire.age q)); [lia|].
  destruct (Z.ltb_spec 90 (Z.min 90 (Questionnaire.age q + 50)));
    [lia|reflexivity].
Qed.

Lemma run_service q s :
  wf s ->
  20 <= Questionnaire.age q <= 85 ->
  1 <= Questionnaire.race q <= 12 ->
  let r5 := full_value create_calculator (questionnaire_to_gail_input q) in
  let rl := full_value create_calculator (lifetime_params q) in
  exists s',
    calculate_risk q s =
      (Ok (mkRiskAssessment
             (absolute_risk r5) (average_risk r5) (relative_risk r5)
             (absolute_risk rl) (average_risk rl) (relative_risk rl)
             (_categorize_risk (relative_risk r5))), s') /\
    wf s'.
Proof.
  intros Hwf Ha Hr r5 rl.
  destruct (run_full s _ Hwf (questionnaire_valid_fields q Ha Hr))
    as (s1 & Hrun1 & Hwf1).
  destruct (run_full s1 _ Hwf1 (lifetime_params_valid q Ha Hr))
    as (s2 & Hrun2 & Hwf2).
  exists s2. split; [|exact Hwf2].
  unfold calculate_risk. cbv zeta.
  erewrite run_bind by exact Hrun1.
  fold (lifetime_params q).
  erewrite run_bind by exact Hrun2.
  reflexivity.
Qed.

Lemma api_value_mono s ri C P1 P2 ma fl fd eb nb ih ir :
  wf s -> 20 <= C < 90 -> C < P1 -> P1 <= P2 -> P2 <= 90 ->
  (api_value s ri C P1 ma fl fd eb nb ih ir <=
   api_value s ri C P2 ma fl fd eb nb ih ir)%R.
Proof.
  intros Hwf HC H1 H12 H2. unfold api_value.
  destruct (clean_biopsy_inputs eb nb ih) as [[e n] h].
  now apply risk_value_mono.
Qed.

(** X3: on an initialised calculator the service answers every
    questionnaire whose age is between 20 and 85 and whose race code is
    between 1 and 12: both calls of the engine succeed, the four risks
    lie strictly between 0 and 1, and the calculator is left with its
    tables intact, ready for the next request. *)
Theorem service_answers_every_questionnaire q s :
  wf s ->
  20 <= Questionnaire.age q <= 85 ->
  1 <= Questionnaire.race q <= 12 ->
  exists r s',
    calculate_risk q s = (Ok r, s') /\ wf s' /\
    (0 < absolute_risk_5year r < 1)%R /\
    (0 < average_risk_5year r < 1)%R /\
    (0 < absolute_risk_lifetime r < 1)%R /\
    (0 < average_risk_lifetime r < 1)%R.
Proof.
  intros Hwf Ha Hr.
  destruct (run_service q s Hwf Ha Hr) as (s' & Hrun & Hwf').
  destruct (full_value_strict _ (questionnaire_valid_fields q Ha Hr))
    as (H1 & H2 & _).
  destruct (full_value_strict _ (lifetime_params_valid q Ha Hr))
    as (H3 & H4 & _).
  do 2 eexists. split; [exact Hrun|]. split; [exact Hwf'|].
  cbn [absolute_risk_5year average_risk_5year absolute_risk_lifetime
       average_risk_lifetime].
  auto.
Qed.

Lemma service_answers_every_questionnaire_witness :
  wf create_calculator /\
  20 <= Questionnaire.age example_questionnaire <= 85 /\
  1 <= Questionnaire.race example_questionnaire <= 12 /\
  exists r s',
    calculate_risk example_questionnaire create_calculator = (Ok r, s') /\
    wf s' /\
    (0 < absolute_risk_5year r < 1)%R /\
    (0 < average_risk_5year r < 1)%R /\
    (0 < absolute_risk_lifetime r < 1)%R /\
    (0 < average_risk_lifetime r < 1)%R.
Proof.
  split; [exact wf_create|]. split; [simpl; lia|]. split; [simpl; lia|].
  apply (service_answers_every_questionnaire example_questionnaire
           create_calculator); [exact wf_create|simpl; lia|simpl; lia].
Defined.

(** X4: the lifetime risks the service reports are never below the
    5-year risks, for the woman and for the average woman alike: the
    lifetime window, up to age min(90, age + 50), contains the 5-year
    window. *)
Theorem lifetime_risk_at_least_5year q s :
  wf s ->
  20 <= Questionnaire.age q <= 85 ->
  1 <= Questionnaire.race q <= 12 ->
  exists r s',
    calculate_risk q s = (Ok r, s') /\
    (absolute_risk_5year r <= absolute_risk_lifetime r)%R /\
    (average_risk_5year r <= average_risk_lifetime r)%R.
Proof.
  intros Hwf Ha Hr.
  destruct (run_service q s Hwf Ha Hr) as (s' & Hrun & _).
  do 2 eexists. split; [exact Hrun|].
  cbn [absolute_risk_5year average_risk_5year absolute_risk_lifetime
       average_risk_lifetime].
  unfold full_value, lifetime_params, with_projection_age,
    questionnaire_to_gail_input.
  cbv zeta.
  cbn [absolute_risk average_risk current_age projection_age menarche_age
       first_live_birth_age first_deg_relatives ever_had_biopsy
       number_of_biopsy hyperplasia race].
  split; apply api_value_mono; try apply wf_create; lia.
Qed.

Lemma lifetime_risk_at_least_5year_witness :
  wf create_calculator /\
  20 <= Questionnaire.age example_questionnaire <= 85 /\
  1 <= Questionnaire.race example_questionnaire <= 12 /\
  exists r s',
    calculate_risk example_questionnaire create_calculator = (Ok r, s') /\
    (absolute_risk_5year r <= absolute_risk_lifetime r)%R /\
    (average_risk_5year r <= average_risk_lifetime r)%R.
Proof.
  split; [exact wf_create|]. split; [simpl; lia|]. split; [simpl; lia|].
  apply (lifetime_risk_at_least_5year example_questionnaire
           create_calculator); [exact wf_create|simpl; lia|simpl; lia].
Defined.

Lemma categorize_low x : _categorize_risk x = "پایین"%string <-> (x < 1)%R.
Proof.
  unfold _categorize_risk, fltb.
  destruct (Rlt_dec x 1.0) as [H | H].
  - split; [intros _; lra|reflexivity].
  - destruct (Rlt_dec x 1.67); (split; [discriminate|intros; lra]).
Qed.

Lemma categorize_high x :
  _categorize_risk x = "بالا"%string <-> (1.67 <= x)%R.
Proof.
  unfold _categorize_risk, fltb.
  destruct (Rlt_dec x 1.0) as [H | H].
  - split; [discriminate|intros; lra].
  - destruct (Rlt_dec x 1.67); split;
      try discriminate; try reflexivity; intros; lra.
Qed.

(** X5: the category the service reports compares the woman's 5-year
    risk with the average 5-year risk: it is the low one exactly when
    her absolute risk is below the average risk, and the high one
    exactly when it is at least 1.67 times the average risk. *)
Theorem category_compares_with_average q s :
  wf s ->
  20 <= Questionnaire.age q <= 85 ->
  1 <= Questionnaire.race q <= 12 ->
  exists r s',
    calculate_risk q s = (Ok r, s') /\
    (risk_category r = "پایین"%string <->
     (absolute_risk_5year r < average_risk_5year r)%R) /\
    (risk_category r = "بالا"%string <->
     (1.67 * average_risk_5year r <= absolute_risk_5year r)%R).
Proof.
  intros Hwf Ha Hr.
  destruct (run_service q s Hwf Ha Hr) as (s' & Hrun & _).
  destruct (full_value_strict _ (questionnaire_valid_fields q Ha Hr))
    as (H1 & H2 & H3).
  do 2 eexists. split; [exact Hrun|].
  cbn [absolute_risk_5year average_risk_5year risk_category].
  rewrite categorize_low, categorize_high, H3.
  clear Hrun H3.
  generalize dependent (absolute_risk
    (full_value create_calculator (questionnaire_to_gail_input q))).
  generalize dependent (average_risk
    (full_value create_calculator (questionnaire_to_gail_input q))).
  intros v Hv a Ha'.
  assert (E : (a / v * v = a)%R) by (field; lra).
  set (x := (a / v)%R) in *. clearbody x.
  split; split; intros H.
  - rewrite <- E. nra.
  - apply (Rmult_lt_reg_r v); lra.
  - rewrite <- E. nra.
  - apply (Rmult_le_reg_r v); lra.
Qed.

Lemma category_compares_with_average_witness :
  wf create_calculator /\
  20 <= Questionnaire.age example_questionnaire <= 85 /\
  1 <= Questionnaire.race example_questionnaire <= 12 /\
  exists r s',
    calculate_risk example_questionnaire create_calculator = (Ok r, s') /\
    (risk_category r = "پایین"%string <->
     (absolute_risk_5year r < average_risk_5year r)%R) /\
    (risk_category r = "بالا"%string <->
     (1.67 * average_risk_5year r <= absolute_risk_5year r)%R).
Proof.
  split; [exact wf_create|]. split; [simpl; lia|]. split; [simpl; lia|].
  apply (category_compares_with_average example_questionnaire
           create_calculator); [exact wf_create|simpl; lia|simpl; lia].
Defined.

(** ** The average risk *)

Lemma risk_value_average s C P A nb ma fl fd rh ir :
  risk_value s AVERAGE C P A nb ma fl fd rh ir =
  risk_value s AVERAGE C P A 0 0 0 0 1%R ir.
Proof.
  unfold risk_value, effective_pattern, effective_rhyp, AVERAGE.
  change (2 <=? 2) with true. cbv iota zeta.
  destruct ((ir =? 2) && (ma =? 2)), ((ir =? 2) && (0 =? 2));
    replace 1.0%R with 1%R by lra; reflexivity.
Qed.

Lemma run_average s C P ma fl fd eb nb ih ir :
  wf s -> 20 <= C < 90 -> C < P <= 90 -> 1 <= ir <= 12 ->
  exists s',
    calculate_average_risk C P ma fl fd eb nb ih ir s =
      (Ok (risk_value create_calculator AVERAGE C P
             (if 50 <=? C then 1 else 0) 0 0 0 0 1%R ir), s') /\
    wf s'.
Proof.
  intros Hwf HC HP Hir.
  pose proof (fs_calculate_risk_api AVERAGE C P ma fl fd eb nb ih ir) as Hfs.
  pose proof (wf_after _ s Hfs Hwf) as Hafter.
  unfold calculate_average_risk. rewrite (wf_initialized s Hwf).
  change (negb true) with false. cbv iota.
  unfold _calculate_risk_api in *.
  destruct (clean_biopsy_inputs eb nb ih) as [[e n] h].
  fold (recoded_relatives fd ir) in *. fold (hyperplasia_multiplier h) in *.
  set (A := if 50 <=? C then 1 else 0) in *.
  destruct (run_calculate_risk s AVERAGE C P A n ma fl e
              (recoded_relatives fd ir) h (hyperplasia_multiplier h) ir
              Hwf Hir HC ltac:(lia)) as (s' & Hrun & Hs' & _).
  - unfold effective_pattern, pattern_index, AVERAGE, A.
    change (2 <=? 2) with true. cbv iota zeta.
    destruct (50 <=? C); lia.
  - unfold effective_pattern, pattern_index, AVERAGE, A, spans50.
    change (2 <=? 2) with true. cbv iota zeta. intros Hsp.
    apply andb_true_iff in Hsp. destruct Hsp as [_ Hc].
    apply Z.ltb_lt in Hc. destruct (Z.leb_spec 50 C); lia.
  - exists s'. rewrite Hrun in Hafter. split; [|exact (Hafter Hs')].
    rewrite Hrun, risk_value_average, (risk_value_wf s) by exact Hwf.
    reflexivity.
Qed.

(** X6: the average risk depends on the ages and the race only.  Whatever
    integers are passed for menarche, first birth, relatives and the three
    biopsy inputs, even outside their categories, [calculate_average_risk]
    succeeds and returns the same value. *)
Theorem average_risk_ignores_factors
  s C P ir ma fl fd eb nb ih ma' fl' fd' eb' nb' ih' :
  wf s -> 20 <= C < 90 -> C < P <= 90 -> 1 <= ir <= 12 ->
  exists v s1 s2,
    calculate_average_risk C P ma fl fd eb nb ih ir s = (Ok v, s1) /\
    calculate_average_risk C P ma' fl' fd' eb' nb' ih' ir s = (Ok v, s2).
Proof.
  intros Hwf HC HP Hir.
  destruct (run_average s C P ma fl fd eb nb ih ir Hwf HC HP Hir)
    as (s1 & H1 & _).
  destruct (run_average s C P ma' fl' fd' eb' nb' ih' ir Hwf HC HP Hir)
    as (s2 & H2 & _).
  eauto.
Qed.

Lemma average_risk_ignores_factors_witness :
  wf create_calculator /\ 20 <= 35 < 90 /\ 35 < 40 <= 90 /\ 1 <= 1 <= 12 /\
  exists v s1 s2,
    calculate_average_risk 35 40 2 0 0 1 1 1 1 create_calculator =
      (Ok v, s1) /\
    calculate_average_risk 35 40 7 (-3) 40 5 99 2 1 create_calculator =
      (Ok v, s2).
Proof.
  split; [exact wf_create|]. repeat (split; [lia|]).
  apply (average_risk_ignores_factors create_calculator 35 40 1
           2 0 0 1 1 1 7 (-3) 40 5 99 2); [exact wf_create|lia|lia|lia].
Defined.

(** ** An unknown race *)

Lemma get_outside {A} (l : list A) (j : Z) :
  j < - Z.of_nat (length l) \/ Z.of_nat (length l) <= j ->
  Py.get l j = None.
Proof.
  intros H. unfold Py.get, Py.norm_index.
  destruct (Z.leb_spec 0 j), (Z.ltb_spec j (Z.of_nat (length l))),
    (Z.leb_spec (- Z.of_nat (length l)) j), (Z.ltb_spec j 0);
    simpl; try reflexivity; lia.
Qed.

Lemma select_beta_outside ir s :
  shape s -> ir < -11 \/ 12 < ir ->
  select_beta ir s = (Raise IndexError, s).
Proof.
  intros Hs Hir. unfold select_beta, for_range.
  rewrite range_cons by lia. cbn [for_each].
  apply bind_raise, bind_raise. unfold rd2, Py.get2.
  rewrite (get_in _ _ []) by in_bounds.
  rewrite get_outside; [reflexivity|].
  change (bet2 s) with (mat_of Bet2 s).
  rewrite (shape_cols s Bet2 0 Hs) by (simpl; lia). simpl cols_of. lia.
Qed.

Lemma api_outside ri C P ma fl fd eb nb ih ir s :
  shape s -> ir < -11 \/ 12 < ir ->
  _calculate_risk_api ri C P ma fl fd eb nb ih ir s = (Raise IndexError, s).
Proof.
  intros Hs Hir. unfold _calculate_risk_api.
  destruct (clean_biopsy_inputs eb nb ih) as [[e n] h].
  unfold _calculate_risk. cbv zeta.
  apply bind_raise, select_beta_outside; assumption.
Qed.

(** X7: a race code above 12 (or below -11) is not rejected by
    [validate]; [calculate_full_risk] fails on it with the [IndexError] of
    the first table access, before anything is written: the calculator is
    left exactly as it was. *)
Theorem unknown_race_index_error s p :
  wf s -> validate p = true -> race p < -11 \/ 12 < race p ->
  calculate_full_risk p s = (Raise IndexError, s).
Proof.
  intros Hwf Hv Hr. unfold calculate_full_risk. rewrite Hv.
  change (negb true) with false. cbv iota.
  apply bind_raise. unfold calculate_absolute_risk.
  rewrite (wf_initialized s Hwf). change (negb true) with false. cbv iota.
  apply api_outside; [apply Hwf|exact Hr].
Qed.

Lemma unknown_race_index_error_witness :
  wf create_calculator /\
  validate (mkParams 35 40 2 0 0 1 1 1 13) = true /\
  (race (mkParams 35 40 2 0 0 1 1 1 13) < -11 \/
   12 < race (mkParams 35 40 2 0 0 1 1 1 13)) /\
  calculate_full_risk (mkParams 35 40 2 0 0 1 1 1 13) create_calculator =
    (Raise IndexError, create_calculator).
Proof.
  split; [exact wf_create|]. split; [reflexivity|].
  split; [right; simpl; lia|].
  apply (unknown_race_index_error create_calculator
           (mkParams 35 40 2 0 0 1 1 1 13));
    [exact wf_create|reflexivity|right; simpl; lia].
Defined.

(** ** Cleaning the biopsy inputs *)

(** X8: [clean_biopsy_inputs] is idempotent: cleaning a cleaned triple
    changes nothing, for all integers. *)
Theorem clean_biopsy_inputs_idempotent (e n h : Z) :
  let '(e1, n1, h1) := clean_biopsy_inputs e n h in
  clean_biopsy_inputs e1 n1 h1 = (e1, n1, h1).
Proof.
  unfold clean_biopsy_inputs. cbv zeta.
  destruct (Z.eqb_spec e 99) as [-> | He].
  - reflexivity.
  - rewrite (proj2 (Z.eqb_neq e 99) He).
    destruct (Z.eqb_spec e 1) as [-> | H1].
    + cbn [andb Z.eqb].
      destruct (Z.eqb_spec n 99) as [-> | Hn]; [reflexivity|].
      destruct (Z.ltb_spec 1 n), (Z.leb_spec n 30); cbn [andb].
      * reflexivity.
      * rewrite (proj2 (Z.eqb_neq n 99) Hn).
        rewrite (proj2 (Z.ltb_lt 1 n)) by lia.
        rewrite (proj2 (Z.leb_gt n 30)) by lia. reflexivity.
      * rewrite (proj2 (Z.eqb_neq n 99) Hn).
        rewrite (proj2 (Z.ltb_ge 1 n)) by lia. reflexivity.
      * rewrite (proj2 (Z.eqb_neq n 99) Hn).
        rewrite (proj2 (Z.ltb_ge 1 n)) by lia. reflexivity.
    + cbn [andb].
      destruct (Z.eqb_spec e 0) as [-> | H0]; [reflexivity|].
      destruct (Z.ltb_spec 1 n), (Z.leb_spec n 30); cbn [andb].
      * reflexivity.
      * rewrite (proj2 (Z.ltb_lt 1 n)) by lia.
        rewrite (proj2 (Z.leb_gt n 30)) by lia. reflexivity.
      * rewrite (proj2 (Z.ltb_ge 1 n)) by lia. reflexivity.
      * rewrite (proj2 (Z.ltb_ge 1 n)) by lia. reflexivity.
Qed.

(** ** The predictor of a pattern in closed form *)

Lemma block_decode_pattern a m b f r :
  0 <= a <= 1 -> 0 <= m <= 2 -> 0 <= b <= 2 -> 0 <= f <= 3 -> 0 <= r <= 2 ->
  block_decode (pattern_index a m b f r) = (a, m, b, f, r).
Proof.
  intros Ha Hm Hb Hf Hr.
  assert (Ea : a = 0 \/ a = 1) by lia.
  assert (Em : m = 0 \/ m = 1 \/ m = 2) by lia.
  assert (Eb : b = 0 \/ b = 1 \/ b = 2) by lia.
  assert (Ef : f = 0 \/ f = 1 \/ f = 2 \/ f = 3) by lia.
  assert (Er : r = 0 \/ r = 1 \/ r = 2) by lia.
  clear Ha Hm Hb Hf Hr.
  destruct Ea as [-> | ->]; destruct Em as [-> | [-> | ->]];
    destruct Eb as [-> | [-> | ->]];
    destruct Ef as [-> | [-> | [-> | ->]]];
    destruct Er as [-> | [-> | ->]]; reflexivity.
Qed.

Lemma dot_row b x0 x1 x2 x3 x4 x5 x6 x7 x8 :
  fold_left
    (fun acc j => (acc + at_ b j * at_ [x0; x1; x2; x3; x4; x5; x6; x7; x8] j)%R)
    [0; 1; 2; 3; 4; 5; 6; 7] 0%R =
  (0 + at_ b 0 * x0 + at_ b 1 * x1 + at_ b 2 * x2 + at_ b 3 * x3 +
   at_ b 4 * x4 + at_ b 5 * x5 + at_ b 6 * x6 + at_ b 7 * x7)%R.
Proof. reflexivity. Qed.

Lemma dot8_design b a m n f r :
  0 <= a <= 1 -> 0 <= m <= 2 -> 0 <= n <= 2 -> 0 <= f <= 3 -> 0 <= r <= 2 ->
  dot8 b design (pattern_index a m n f r - 1) =
  (at_ b 0 + at_ b 1 * IZR a + at_ b 2 * IZR m + at_ b 3 * IZR n +
   at_ b 4 * IZR f + at_ b 5 * IZR r + at_ b 6 * (IZR a * IZR n) +
   at_ b 7 * (IZR f * IZR r))%R.
Proof.
  intros Ha Hm Hn Hf Hr. unfold dot8, at2.
  rewrite design_nth by (unfold pattern_index; lia).
  unfold design_row. rewrite block_decode_pattern by assumption.
  rewrite range_0_8, dot_row. ring.
Qed.

Lemma at_adjusted l i rh :
  1 <= i <= Z.of_nat (length l) ->
  at_ (adjusted l i rh) (i - 1) = (at_ l (i - 1) + ln rh)%R.
Proof.
  intros Hi. unfold adjusted. cbv zeta.
  destruct (i <=? 108).
  - rewrite at_upd_neq by lia. apply at_upd_eq. lia.
  - apply at_upd_eq. lia.
Qed.

Lemma predictor_entry s ir a m n f r rh :
  0 <= a <= 1 -> 0 <= m <= 2 -> 0 <= n <= 2 -> 0 <= f <= 3 -> 0 <= r <= 2 ->
  let beta j := at2 (bet2 s) j (ir - 1) in
  at_ (predictor s ir (pattern_index a m n f r) rh)
      (pattern_index a m n f r - 1) =
  (beta 2%Z * IZR m + beta 3%Z * IZR n + beta 4%Z * IZR f + beta 5%Z * IZR r +
   beta 6%Z * (IZR a * IZR n) + beta 7%Z * (IZR f * IZR r) + ln rh)%R.
Proof.
  intros Ha Hm Hn Hf Hr beta. unfold predictor. cbv zeta.
  assert (Hi : 1 <= pattern_index a m n f r <= 216)
    by (unfold pattern_index; lia).
  rewrite at_adjusted
    by (unfold sumbb_of; rewrite tabulate_length; lia).
  unfold sumbb_of. rewrite at_tabulate by lia.
  unfold sumb_of. rewrite at_tabulate by lia.
  rewrite dot8_design by assumption.
  unfold beta_of. rewrite !at_tabulate by lia.
  assert (Ea : a = 0 \/ a = 1) by lia.
  destruct Ea as [-> | ->].
  - destruct (Z.ltb_spec (pattern_index 0 m n f r - 1) 108) as [_ | H];
      [|unfold pattern_index in H; lia].
    unfold beta. ring.
  - destruct (Z.ltb_spec (pattern_index 1 m n f r - 1) 108) as [H | _];
      [unfold pattern_index in H; lia|].
    unfold beta. ring.
Qed.



(** ** The result array *)

Lemma run_calculate_risk_abs s ri C P A nb ma fl eb fd ih rh ir :
  wf s ->
  1 <= ir <= 12 -> 20 <= C < 90 -> 20 < P <= 90 ->
  let i := effective_pattern ri ir A nb ma fl fd in
  1 <= i <= 216 -> (spans50 C P = true -> i <= 108) ->
  let v := risk_value s ri C P A nb ma fl fd rh ir in
  exists s',
    _calculate_risk ri C P A nb ma fl eb fd ih rh ir s = (Ok v, s') /\
    abs s' = Py.upd (abs s) (Z.to_nat (i - 1)) v.
Proof.
  intros Hwf Hir HC HP i Hi Hsp v.
  destruct (run_prefix s ri C P A nb ma fl eb fd ih rh ir Hwf Hir HC HP)
    as (s6 & Hrun & Hs6 & E1 & E2 & E3 & E4 & E5 & E6 & E7).
  fold i in Hrun. rewrite Hrun.
  destruct (breach_current C HC) as [Hni _].
  destruct (breach_projection P HP) as [Hns _].
  erewrite run_bind by (apply run_adjust_hyperplasia; [exact Hs6|exact Hi]).
  set (s7 := with_vec Sumbb _ _).
  assert (Hs7 : shape s7).
  { apply shape_with; [assumption|]. rewrite adjusted_length.
    apply (shape_vec s6 Sumbb Hs6). }
  rewrite run_integrate by assumption.
  assert (F1 : rlan s7 = incidence s ri ir) by exact E4.
  assert (F2 : sumbb s7 = predictor s ir i (effective_rhyp ri rh)).
  { unfold s7, predictor. rewrite <- E3. reflexivity. }
  assert (F3 : rmu s7 = rmu_of s (column_index ri ir)) by exact E5.
  assert (F4 : t s7 = age_boundaries) by exact E6.
  assert (F5 : abs s7 = abs s) by exact E7.
  assert (Ev : integ_val (rlan s7) (sumbb s7) (rmu s7) (t s7)
                 ((50 <? P) && (C <? 50)) (IZR C) (IZR P)
                 (breach fltb (IZR C) age_boundaries (Py.range 1 16))
                 (breach fleb (IZR P) age_boundaries (Py.range 1 16)) i = v).
  { rewrite F1, F2, F3, F4. unfold v, risk_value.
    rewrite (wf_t s Hwf). reflexivity. }
  rewrite Ev, F5. eexists. split; reflexivity.
Qed.

(** X10: a successful call stores its result in the entry of the result
    array [abs] at the woman's pattern and touches no other entry of it:
    the results of earlier calls for other patterns stay in the array. *)
Theorem result_array_frame s ri C P A nb ma fl eb fd ih rh ir :
  wf s -> 20 <= C < 90 -> C < P <= 90 -> 1 <= ir <= 12 ->
  A = (if 50 <=? C then 1 else 0) ->
  0 <= ma <= 2 -> 0 <= nb <= 2 -> 0 <= fl <= 3 -> 0 <= fd <= 2 ->
  let i := effective_pattern ri ir A nb ma fl fd in
  exists v s',
    _calculate_risk ri C P A nb ma fl eb fd ih rh ir s = (Ok v, s') /\
    at_ (abs s') (i - 1) = v /\
    forall j, 0 <= j -> j <> i - 1 -> at_ (abs s') j = at_ (abs s) j.
Proof.
  intros Hwf HC HP Hir HA Hma Hnb Hfl Hfd i.
  assert (HA' : 0 <= A <= 1) by (subst A; destruct (50 <=? C); lia).
  destruct (effective_pattern_range ri ir A nb ma fl fd HA' Hma Hnb Hfl Hfd)
    as [Hi Hi0]. fold i in Hi, Hi0.
  destruct (run_calculate_risk_abs s ri C P A nb ma fl eb fd ih rh ir
              Hwf Hir HC ltac:(lia) Hi) as (s' & Hrun & Habs).
  { intros Hsp. apply Hi0. subst A. unfold spans50 in Hsp.
    apply andb_true_iff in Hsp. destruct Hsp as [_ Hc].
    apply Z.ltb_lt in Hc. destruct (Z.leb_spec 50 C); [lia|reflexivity]. }
  do 2 eexists. split; [exact Hrun|]. fold i in Habs. rewrite Habs. split.
  - apply at_upd_eq.
    pose proof (shape_vec s Abs (proj1 Hwf)) as Hl.
    cbn [vec_of len_of] in Hl. lia.
  - intros j Hj Hne. apply at_upd_neq; lia.
Qed.

Lemma result_array_frame_witness :
  wf create_calculator /\ 20 <= 35 < 90 /\ 35 < 40 <= 90 /\ 1 <= 1 <= 12 /\
  0 = (if 50 <=? 35 then 1 else 0) /\
  0 <= 2 <= 2 /\ 0 <= 1 <= 2 /\ 0 <= 0 <= 3 /\ 0 <= 0 <= 2 /\
  let i := effective_pattern ABSOLUTE 1 0 1 2 0 0 in
  exists v s',
    _calculate_risk ABSOLUTE 35 40 0 1 2 0 1 0 1 1.82%R 1 create_calculator =
      (Ok v, s') /\
    at_ (abs s') (i - 1) = v /\
    forall j, 0 <= j -> j <> i - 1 ->
      at_ (abs s') j = at_ (abs create_calculator) j.
Proof.
  split; [exact wf_create|]. repeat (split; [lia || reflexivity|]).
  apply (result_array_frame create_calculator ABSOLUTE 35 40 0 1 2 0 1 0 1
           1.82%R 1); try lia; try reflexivity; exact wf_create.
Defined.

(** ** The integration reads two entries of the predictor *)

Section PredictorEntries.
Variables (l b b' m tb : list R) (sp : bool) (i : Z).
Hypothesis Hown : at_ b (i - 1) = at_ b' (i - 1).
Hypothesis Hmirror : sp = true -> at_ b (i + 107) = at_ b' (i + 107).

Let used (p : Z) : Prop := p = i - 1 \/ (sp = true /\ p = i + 107).

Lemma at_used p : used p -> at_ b p = at_ b' p.
Proof. intros [-> | [H ->]]; auto. Qed.

Lemma haz_used k p : used p -> haz l b m k p = haz l b' m k p.
Proof. intros H. unfold haz. now rewrite (at_used p H). Qed.

Lemma ev_used k p w : used p -> ev l b m k p w = ev l b' m k p w.
Proof.
  intros H. unfold ev, shr, oms.
  now rewrite (haz_used k p H), (at_used p H).
Qed.

Lemma sv_used k p w : used p -> sv l b m k p w = sv l b' m k p w.
Proof. intros H. unfold sv. now rewrite (haz_used k p H). Qed.

Lemma sprod_used pe lo hi r :
  (forall j, used (pe j)) ->
  sprod l b m tb pe lo hi r = sprod l b' m tb pe lo hi r.
Proof.
  intros H. unfold sprod. apply fold_left_ext_in.
  intros a j _. now rewrite sv_used.
Qed.

Lemma band_sum_used pe pl ti ts ni ns :
  (forall j, used (pe j)) -> used pl ->
  band_sum l b m tb pe pl ti ts ni ns i =
  band_sum l b' m tb pe pl ti ts ni ns i.
Proof.
  intros Hpe Hpl. unfold band_sum.
  assert (H0 : used (i - 1)) by now left.
  rewrite !(ev_used _ _ _ H0), !(sv_used _ _ _ H0), (ev_used _ _ _ Hpl).
  destruct (fleb ts (at_ tb ni)); [reflexivity|]. cbv zeta.
  rewrite (sprod_used pe (ni + 1) ns _ Hpe).
  apply fold_left_ext_in. intros a k _.
  now rewrite (sprod_used pe (ni + 1) k _ Hpe), (ev_used _ _ _ (Hpe k)).
Qed.

Lemma integ_val_used ti ts ni ns :
  integ_val l b m tb sp ti ts ni ns i =
  integ_val l b' m tb sp ti ts ni ns i.
Proof.
  unfold integ_val. apply band_sum_used.
  - intros j. unfold entry, used.
    destruct sp; cbn [andb]; [|now left].
    destruct (fleb 50 (at_ tb (j - 1))); [right|left]; auto.
  - unfold used. destruct sp; [right|left]; auto.
Qed.

End PredictorEntries.

(** ** The predictor of the mirror pattern *)

Lemma at_adjusted_mirror l i rh :
  1 <= i <= 108 -> i + 107 < Z.of_nat (length l) ->
  at_ (adjusted l i rh) (i + 107) = (at_ l (i + 107) + ln rh)%R.
Proof.
  intros Hi Hl. unfold adjusted. cbv zeta.
  destruct (Z.leb_spec i 108); [|lia].
  rewrite at_upd_eq by (rewrite upd_length; lia).
  rewrite at_upd_neq by lia. reflexivity.
Qed.

Lemma predictor_mirror_entry s ir m n f r rh :
  0 <= m <= 2 -> 0 <= n <= 2 -> 0 <= f <= 3 -> 0 <= r <= 2 ->
  let beta j := at2 (bet2 s) j (ir - 1) in
  at_ (predictor s ir (pattern_index 0 m n f r) rh)
      (pattern_index 0 m n f r + 107) =
  (beta 2%Z * IZR m + beta 3%Z * IZR n + beta 4%Z * IZR f +
   beta 5%Z * IZR r + beta 6%Z * IZR n + beta 7%Z * (IZR f * IZR r) +
   ln rh)%R.
Proof.
  intros Hm Hn Hf Hr beta. unfold predictor. cbv zeta.
  assert (Hi : 1 <= pattern_index 0 m n f r <= 108)
    by (unfold pattern_index; lia).
  rewrite at_adjusted_mirror
    by (unfold sumbb_of; rewrite ?tabulate_length; lia).
  replace (pattern_index 0 m n f r + 107)
    with (pattern_index 1 m n f r - 1) by (unfold pattern_index; lia).
  assert (Hj : 109 <= pattern_index 1 m n f r <= 216)
    by (unfold pattern_index; lia).
  unfold sumbb_of. rewrite at_tabulate by lia.
  unfold sumb_of. rewrite at_tabulate by lia.
  rewrite dot8_design by lia.
  unfold beta_of. rewrite !at_tabulate by lia.
  destruct (Z.ltb_spec (pattern_index 1 m n f r - 1) 108) as [H | _];
    [lia|].
  unfold beta. ring.
Qed.

(** ** The average risk as an absolute risk *)

Lemma risk_value_baseline C P rh r :
  1 <= r <= 6 ->
  let A := if 50 <=? C then 1 else 0 in
  risk_value create_calculator AVERAGE C P A 0 0 0 0 rh r =
  risk_value create_calculator ABSOLUTE C P A 0 0 0 0 1.0%R (r + 3).
Proof.
  intros H A. unfold risk_value.
  assert (HA : 0 <= A <= 1) by (unfold A; destruct (50 <=? C); lia).
  assert (Ei : effective_pattern AVERAGE r A 0 0 0 0 =
               pattern_index A 0 0 0 0).
  { unfold effective_pattern, AVERAGE. change (2 <=? 2) with true.
    cbv zeta iota. reflexivity. }
  assert (Ej : effective_pattern ABSOLUTE (r + 3) A 0 0 0 0 =
               pattern_index A 0 0 0 0).
  { unfold effective_pattern, ABSOLUTE. change (2 <=? 1) with false.
    change (0 =? 2) with false. rewrite andb_false_r. reflexivity. }
  rewrite Ei, Ej.
  change (effective_rhyp AVERAGE rh) with 1.0%R.
  change (effective_rhyp ABSOLUTE 1.0) with 1.0%R.
  assert (El : incidence create_calculator AVERAGE r =
               incidence create_calculator ABSOLUTE (r + 3)).
  { assert (E : r = 1 \/ r = 2 \/ r = 3 \/ r = 4 \/ r = 5 \/ r = 6) by lia.
    destruct E as [-> | [-> | [-> | [-> | [-> | ->]]]]]; reflexivity. }
  assert (Em : column_index AVERAGE r = column_index ABSOLUTE (r + 3)).
  { unfold column_index, AVERAGE, ABSOLUTE. cbn [Z.eqb Pos.eqb andb].
    destruct (Z.ltb_spec r 7); lia. }
  rewrite El, Em.
  apply integ_val_used.
  - rewrite !predictor_entry by lia. ring.
  - intros Hsp. unfold spans50 in Hsp.
    apply andb_true_iff in Hsp. destruct Hsp as [_ Hc].
    apply Z.ltb_lt in Hc. unfold A.
    destruct (Z.leb_spec 50 C); [lia|].
    rewrite !predictor_mirror_entry by lia. ring.
Qed.

(** X11: the average risk of race code r, for r from 1 to 6 and whatever
    risk factors are passed, is the absolute risk of race code r + 3 with
    every factor in its lowest category and no biopsy.  So the codes 4 to
    6 are the average women of races 1 to 3, and the average risk of the
    codes 4 to 6 themselves is computed from the columns of the codes
    7 to 9. *)
Theorem average_risk_is_absolute_of_code_plus_3
  s C P ma fl fd eb nb ih r :
  wf s -> 20 <= C < 90 -> C < P <= 90 -> 1 <= r <= 6 ->
  exists v s1 s2,
    calculate_average_risk C P ma fl fd eb nb ih r s = (Ok v, s1) /\
    calculate_absolute_risk C P 0 0 0 0 0 99 (r + 3) s = (Ok v, s2).
Proof.
  intros Hwf HC HP Hr.
  destruct (run_average s C P ma fl fd eb nb ih r Hwf HC HP ltac:(lia))
    as (s1 & H1 & _).
  destruct (run_api s ABSOLUTE C P 0 0 0 0 0 99 (r + 3) Hwf HC
              ltac:(lia) ltac:(lia) ltac:(lia) ltac:(lia)
              ltac:(now left) ltac:(left; lia) ltac:(left; lia))
    as (s2 & H2 & _).
  do 3 eexists. split; [exact H1|].
  unfold calculate_absolute_risk. rewrite (wf_initialized s Hwf).
  change (negb true) with false. cbv iota. rewrite H2.
  f_equal. f_equal. unfold api_value.
  change (clean_biopsy_inputs 0 0 99) with (0, 0, 99).
  cbv iota beta.
  change (recoded_relatives 0 (r + 3)) with 0.
  change (hyperplasia_multiplier 99) with 1.0%R.
  symmetry. now apply risk_value_baseline.
Qed.

Lemma average_risk_is_absolute_of_code_plus_3_witness :
  wf create_calculator /\ 20 <= 35 < 90 /\ 35 < 40 <= 90 /\ 1 <= 5 <= 6 /\
  exists v s1 s2,
    calculate_average_risk 35 40 2 0 0 1 1 1 5 create_calculator =
      (Ok v, s1) /\
    calculate_absolute_risk 35 40 0 0 0 0 0 99 (5 + 3) create_calculator =
      (Ok v, s2).
Proof.
  split; [exact wf_create|]. repeat (split; [lia|]).
  apply (average_risk_is_absolute_of_code_plus_3 create_calculator 35 40
           2 0 0 1 1 1 5); [exact wf_create|lia|lia|lia].
Defined.

(** ** [initialize] assigns every cell of the tables *)

Ltac explode_list l H :=
  repeat (destruct l as [|? l]; [discriminate H|]);
  destruct l; [|discriminate H]; clear H.

Ltac explode_rows m Hl :=
  explode_list m Hl;
  repeat match goal with
  | H : Forall _ (_ :: _) |- _ =>
      inversion H as [|? ? ?Hrow ?Hrest]; subst; clear H
  end;
  repeat match goal with
  | H : length ?l = _ |- _ => explode_list l H
  end.

Lemma init_bet2_reset (m : list (list R)) :
  length m = 8%nat -> Forall (fun row => length row = 12%nat) m ->
  init_bet2 m = bet2 create_calculator.
Proof. intros Hl Hc. explode_rows m Hl. reflexivity. Qed.

Lemma init_rf2_reset (m : list (list R)) :
  length m = 2%nat -> Forall (fun row => length row = 13%nat) m ->
  init_rf2 m = rf2 create_calculator.
Proof. intros Hl Hc. explode_rows m Hl. reflexivity. Qed.

Lemma init_rlan2_reset (m : list (list R)) :
  length m = 14%nat -> Forall (fun row => length row = 12%nat) m ->
  init_rlan2 m = rlan2 create_calculator.
Proof. intros Hl Hc. explode_rows m Hl. reflexivity. Qed.

Lemma init_rmu2_reset (m : list (list R)) :
  length m = 14%nat -> Forall (fun row => length row = 12%nat) m ->
  init_rmu2 m = rmu2 create_calculator.
Proof. intros Hl Hc. explode_rows m Hl. reflexivity. Qed.

Lemma tables_reset s :
  shape s ->
  init_bet2 (bet2 s) = bet2 create_calculator /\
  init_rf2 (rf2 s) = rf2 create_calculator /\
  init_rlan2 (rlan2 s) = rlan2 create_calculator /\
  init_rmu2 (rmu2 s) = rmu2 create_calculator.
Proof.
  intros [_ Hm].
  destruct (Hm Bet2) as [B1 B2]. destruct (Hm Rf2) as [F1 F2].
  destruct (Hm Rlan2) as [L1 L2]. destruct (Hm Rmu2) as [M1 M2].
  split; [exact (init_bet2_reset _ B1 B2)|].
  split; [exact (init_rf2_reset _ F1 F2)|].
  split; [exact (init_rlan2_reset _ L1 L2)|exact (init_rmu2_reset _ M1 M2)].
Qed.

Lemma shape_initialize s : shape s -> shape (initialize s).
Proof.
  intros Hs. destruct (tables_reset s Hs) as (E1 & E2 & E3 & E4).
  destruct Hs as [Hv Hm]. pose proof shape_create as [_ Hc]. split.
  - intros a.
    destruct a;
      [exact (Hv Bet)|exact (Hv Rf)|exact (Hv Abs)|exact (Hv Rlan)|
       exact (Hv Rmu)|exact (Hv Sumb)|exact (Hv Sumbb)|reflexivity].
  - intros a. specialize (Hc a). destruct a.
    + change (mat_of Bet2 (initialize s)) with (init_bet2 (bet2 s)).
      rewrite E1. exact Hc.
    + change (mat_of Rf2 (initialize s)) with (init_rf2 (rf2 s)).
      rewrite E2. exact Hc.
    + change (mat_of Rlan2 (initialize s)) with (init_rlan2 (rlan2 s)).
      rewrite E3. exact Hc.
    + change (mat_of Rmu2 (initialize s)) with (init_rmu2 (rmu2 s)).
      rewrite E4. exact Hc.
Qed.

Lemma wf_initialize s : shape s -> wf (initialize s).
Proof.
  intros Hs. destruct (tables_reset s Hs) as (E1 & E2 & E3 & E4).
  split; [now apply shape_initialize|].
  change (bet2 (initialize s)) with (init_bet2 (bet2 s)).
  change (rf2 (initialize s)) with (init_rf2 (rf2 s)).
  change (rlan2 (initialize s)) with (init_rlan2 (rlan2 s)).
  change (rmu2 (initialize s)) with (init_rmu2 (rmu2 s)).
  change (t (initialize s)) with age_boundaries.
  change (is_initialized (initialize s)) with true.
  split; [exact E1|]. split; [exact E2|]. split; [exact E3|].
  split; [exact E4|]. split; reflexivity.
Qed.

(** X12: [initialize] assigns every cell of the four tables.  On any
    instance whose arrays have the shapes of [__init__], fresh or used and
    whatever its tables hold, it leaves exactly the tables of
    [create_calculator] and sets the flag; a second call changes
    nothing. *)
Theorem initialize_resets_tables s :
  shape s ->
  wf (initialize s) /\ initialize (initialize s) = initialize s.
Proof.
  intros Hs. destruct (tables_reset s Hs) as (E1 & E2 & E3 & E4).
  split; [now apply wf_initialize|].
  destruct (tables_reset _ (shape_initialize s Hs)) as (G1 & G2 & G3 & G4).
  transitivity
    (mkCalc (bet2 create_calculator) (bet s) (rf s) (rf2 create_calculator)
       (abs s) (rlan s) (rlan2 create_calculator) (rmu s)
       (rmu2 create_calculator) (sumb s) (sumbb s) age_boundaries true).
  - rewrite <- G1, <- G2, <- G3, <- G4. reflexivity.
  - rewrite <- E1, <- E2, <- E3, <- E4. reflexivity.
Qed.

Lemma initialize_resets_tables_witness :
  shape __init__ /\
  wf (initialize __init__) /\
  initialize (initialize __init__) = initialize __init__.
Proof.
  split; [exact shape_init|].
  apply (initialize_resets_tables __init__). exact shape_init.
Defined.

(** ** The two classifications of a relative risk *)

(** On a relative risk that is a number the thresholds of the two
    classifications coincide. *)
Lemma thresholds_coincide (r : GailResult) :
  (_interpret r = "ریسک بالا - نیاز به مشاوره"%string <->
   _categorize_risk (relative_risk r) = "بالا"%string) /\
  (_interpret r = "ریسک متوسط"%string <->
   _categorize_risk (relative_risk r) = "متوسط"%string) /\
  (_interpret r = "ریسک پایین‌تر از میانگین"%string <->
   _categorize_risk (relative_risk r) = "پایین"%string).
Proof.
  unfold _interpret, _categorize_risk, fleb, fltb.
  destruct (Rle_dec 1.67 (relative_risk r)) as [H1 | H1];
    destruct (Rle_dec 1.0 (relative_risk r)) as [H2 | H2];
    destruct (Rlt_dec (relative_risk r) 1.0) as [H3 | H3];
    destruct (Rlt_dec (relative_risk r) 1.67) as [H4 | H4];
    try lra;
    (split; [|split]); split; intros H;
    try reflexivity; discriminate H.
Qed.

(** X13: on every result [calculate_full_risk] returns for valid
    parameters, whose relative risk is a positive quotient and so a
    number, the interpretation of the result by the engine and the
    category the service derives from its relative risk agree: both are
    high from a relative risk of 1.67 on, moderate from 1.0 on, and low
    below. *)
Theorem interpretation_agrees_with_category s p :
  wf s -> valid_params p ->
  exists r s',
    calculate_full_risk p s = (Ok r, s') /\
    (0 < relative_risk r)%R /\
    (_interpret r = "ریسک بالا - نیاز به مشاوره"%string <->
     _categorize_risk (relative_risk r) = "بالا"%string) /\
    (_interpret r = "ریسک متوسط"%string <->
     _categorize_risk (relative_risk r) = "متوسط"%string) /\
    (_interpret r = "ریسک پایین‌تر از میانگین"%string <->
     _categorize_risk (relative_risk r) = "پایین"%string).
Proof.
  intros Hwf Hp. destruct (run_full s p Hwf Hp) as (s' & Hrun & _).
  destruct (full_value_strict p Hp) as (Ha & Hv & Hr).
  exists (full_value create_calculator p), s'.
  split; [exact Hrun|]. split.
  - rewrite Hr. apply Rmult_lt_0_compat; [apply Ha|].
    apply Rinv_0_lt_compat, Hv.
  - apply thresholds_coincide.
Qed.

Lemma interpretation_agrees_with_category_witness :
  wf create_calculator /\ valid_params (mkParams 35 40 2 0 0 1 1 1 1) /\
  exists r s',
    calculate_full_risk (mkParams 35 40 2 0 0 1 1 1 1) create_calculator =
      (Ok r, s') /\
    (0 < relative_risk r)%R /\
    (_interpret r = "ریسک بالا - نیاز به مشاوره"%string <->
     _categorize_risk (relative_risk r) = "بالا"%string) /\
    (_interpret r = "ریسک متوسط"%string <->
     _categorize_risk (relative_risk r) = "متوسط"%string) /\
    (_interpret r = "ریسک پایین‌تر از میانگین"%string <->
     _categorize_risk (relative_risk r) = "پایین"%string).
Proof.
  split; [exact wf_create|]. split; [exact valid_params_example|].
  apply (interpretation_agrees_with_category create_calculator
           (mkParams 35 40 2 0 0 1 1 1 1));
    [exact wf_create|exact valid_params_example].
Defined.

Local Open Scope R_scope.

(** ** Splitting the sum over the bands at a boundary

    The interval from [ti], in band [ni], to [ts], in band [ns], is cut at
    the upper boundary of band [nm]; the second part starts in band
    [nm + 1] with its own pattern [i2]. *)

Section Compose.
Variables (l b m tb : list R) (pe : Z -> Z).
Variables (ni nm ns i i2 pl : Z) (ti ts : R).
Hypothesis Hnm : (ni <= nm < ns)%Z.
Hypothesis Hpe : pe (nm + 1)%Z = (i2 - 1)%Z.
Hypothesis Hpl : pl = (i2 - 1)%Z.
Hypothesis Hle : at_ tb ni <= at_ tb nm.
Hypothesis Hmid : (ni < nm)%Z -> ~ at_ tb nm <= at_ tb ni.
Hypothesis Hts : ~ ts <= at_ tb nm.
Hypothesis Hlast : (ns = nm + 1)%Z -> ts <= at_ tb (nm + 1).
Hypothesis Hlater : (nm + 1 < ns)%Z -> ~ ts <= at_ tb (nm + 1).

Let s0_ (n0 i0 : Z) (t0 : R) : R :=
  sv l b m (n0 - 1) (i0 - 1) (at_ tb n0 - t0).
Let Pi_ (n0 i0 : Z) (t0 : R) (n : Z) : R :=
  sprod l b m tb pe (n0 + 1) n (s0_ n0 i0 t0).

Let a0 : R := ev l b m (ni - 1) (i - 1) (at_ tb ni - ti).
Let S : R := Pi_ ni i ti (nm + 1).












End Compose.

Local Close Scope R_scope.

(** ** Composition at age 50 *)







